(** * claude-hub: account selection, session registry, usage cache,
      rate-limit detection and failover.

    A shallow embedding of the scheduler core of claude-hub
    ([src/usage/selector.ts], [src/usage/api.ts], the PTY wrapper and the
    launcher in the CLI entry point) together with the properties the
    specification states about it.

    Conventions of the embedding:
    - in the modules [Api], [Selector] and those built on them a
      JavaScript [number] is read as an exact rational ([Q]) and one clock
      reading serves a whole synchronous call; they carry the properties
      that rest on comparisons, on the order of the candidates and on
      scores that differ by more than rounding;
    - the module [Binary64] has the scored path of [selectBestAccount]
      once more with its numbers as IEEE 754 doubles ([PrimFloat]), NaN and
      infinities included, and with a clock reading for every [new Date()]
      of the code; what depends on the last bit of a score or on the
      instant of a reading is stated there, and [main] selects through it;
    - a [Date] is its [getTime()] value, milliseconds as a [number];
    - a JavaScript string is a [string], one character per code unit;
    - module-level mutable state, the state file and the clock are passed
      explicitly. *)

From Stdlib Require Import List String Ascii ZArith QArith Qminmax Qround Bool Lia Lqa.
From Stdlib Require Import Permutation Sorted.
From Stdlib Require Floats.
Import ListNotations.

(* ================================================================== *)
(** ** JavaScript primitives used by the code *)
(* ================================================================== *)

Module JS.

Definition number := Q.

(** [x < y] and [x <= y] on numbers, as booleans. *)
Definition ltb (x y : number) : bool := negb (Qle_bool y x).
Definition leb (x y : number) : bool := Qle_bool x y.

(** Truthiness of a [string | null | undefined] value: the empty string
    is falsy as well. *)
Definition truthy (s : option string) : bool :=
  match s with
  | Some s => negb (s =? "")%string
  | None => false
  end.

(** [s.includes(t)]: [t] occurs in [s] as a contiguous substring. *)
Fixpoint includes (s t : string) : bool :=
  String.prefix t s ||
  match s with
  | EmptyString => false
  | String _ s' => includes s' t
  end.

(** [s.slice(-n)]: the last [n] code units ([s] itself when shorter). *)
Fixpoint drop (k : nat) (s : string) : string :=
  match k, s with
  | O, _ => s
  | S k', String _ s' => drop k' s'
  | S _, EmptyString => EmptyString
  end.

Definition sliceLast (n : nat) (s : string) : string :=
  drop (String.length s - n) s.

(** [l.indexOf(x)] on an array of strings: first index, or -1. *)
Fixpoint indexOf (x : string) (l : list string) : Z :=
  match l with
  | [] => -1
  | y :: l' =>
      if (y =? x)%string then 0
      else let r := indexOf x l' in
           if (r <? 0)%Z then -1 else (r + 1)%Z
  end.

(** [l[i]] for an integer index: [undefined] (here [None]) out of range. *)
Definition at_ {A} (l : list A) (i : Z) : option A :=
  if (i <? 0)%Z then None else nth_error l (Z.to_nat i).

(** [l.filter((a, i) => f a i)], with the element's index. *)
Fixpoint filteri_from {A} (f : A -> nat -> bool) (i : nat) (l : list A) : list A :=
  match l with
  | [] => []
  | a :: l' =>
      if f a i then a :: filteri_from f (S i) l' else filteri_from f (S i) l'
  end.

Definition filteri {A} (f : A -> nat -> bool) (l : list A) : list A :=
  filteri_from f 0 l.

(** [l.sort(cmp)]: ECMAScript requires a stable sort; [cmp a b > 0] puts
    [a] after [b], any other result keeps [a] first.  For a consistent
    comparator every stable algorithm returns the same array; the model
    is insertion from the right. *)
Section Sort.
Context {A : Type} (cmp : A -> A -> number).

Fixpoint insert (x : A) (l : list A) : list A :=
  match l with
  | [] => [x]
  | y :: l' => if ltb 0 (cmp x y) then y :: insert x l' else x :: l
  end.

Definition sort (l : list A) : list A := fold_right insert [] l.
End Sort.

(** A call either returns a value or throws (a [TypeError] on reading a
    property of [undefined]). *)
Inductive completion (A : Type) : Type :=
| Returns (a : A)
| Throws.
Arguments Returns {A} a.
Arguments Throws {A}.

(** [s.endsWith(t)] and [s.startsWith(t)]. *)
Fixpoint endsWith (s t : string) : bool :=
  if (s =? t)%string then true
  else match s with
       | EmptyString => false
       | String _ s' => endsWith s' t
       end.

Definition startsWith (s t : string) : bool := String.prefix t s.

(** [s.replace(pattern, replacement)] with a string pattern: the first
    occurrence only. *)
Fixpoint replaceFirst (s pattern replacement : string) : string :=
  if String.prefix pattern s
  then (replacement ++ drop (String.length pattern) s)%string
  else match s with
       | EmptyString => EmptyString
       | String c s' => String c (replaceFirst s' pattern replacement)
       end.

(** [s > t] on strings: code units compared in order. *)
Definition gt (s t : string) : bool := String.ltb t s.

(** [Math.floor(x)] and [Math.round(x)]; the latter rounds halves up. *)
Definition floor (x : number) : number := inject_Z (Qfloor x).
Definition round (x : number) : number := inject_Z (Qfloor (x + (1 # 2))).

End JS.

(* ================================================================== *)
(** ** [src/usage/api.ts]: usage snapshots *)
(* ================================================================== *)

Module Api.

Definition Date := JS.number.

(** [APIUsageData]; the display-only fields (e-mail address, formatted
    reset strings, extra usage, raw response) play no part in selection
    or caching and are left out. *)
Record APIUsageData := {
  accountName : string;
  fiveHourUsed : JS.number;
  fiveHourRemaining : JS.number;
  fiveHourResetsAt : Date;
  sevenDayUsed : JS.number;
  sevenDayRemaining : JS.number;
  sevenDayResetsAt : Date;
  error : option string
}.

(** [u.error] used as a condition. *)
Definition hasError (u : APIUsageData) : bool := JS.truthy (error u).

(** *** The usage cache of [getAllAPIUsage] *)

Definition USAGE_CACHE_SECONDS : JS.number := 30.

(** The two module-level variables [cachedUsageData] and [lastFetchTime]. *)
Record Cache := {
  cachedUsageData : option (list APIUsageData);
  lastFetchTime : JS.number
}.

Definition initialCache : Cache :=
  {| cachedUsageData := None; lastFetchTime := 0 |}.

(** [cachedUsageData.some(u => !u.error && u.fiveHourResetsAt.getTime() < now)] *)
Definition hasStaleResetTime (now : JS.number) (data : list APIUsageData) : bool :=
  existsb (fun u => negb (hasError u) && JS.ltb (fiveHourResetsAt u) now) data.

(** What one call of [getAllAPIUsage] did: the array it resolved to, whether
    it went to the network, and the cache it left behind. *)
Record Fetched := {
  results : list APIUsageData;
  refetched : bool;
  cacheAfter : Cache
}.

(** [getAllAPIUsage(accounts)].  [now] is [Date.now()] at entry and [fresh]
    is what [Promise.all] over [getAPIUsage] resolves to, should the call
    get that far. *)
Definition getAllAPIUsage (now : JS.number) (fresh : list APIUsageData)
    (cache : Cache) : Fetched :=
  let cacheAgeSeconds := (now - lastFetchTime cache) / 1000 in
  let refetch :=
    {| results := fresh;
       refetched := true;
       cacheAfter := {| cachedUsageData := Some fresh; lastFetchTime := now |} |} in
  match cachedUsageData cache with
  | Some data =>
      if JS.ltb cacheAgeSeconds USAGE_CACHE_SECONDS then
        if negb (hasStaleResetTime now data) then
          {| results := data; refetched := false; cacheAfter := cache |}
        else refetch
      else refetch
  | None => refetch
  end.

(** One window of the usage endpoint's answer; [resets_at] is the instant
    its ISO string denotes ([new Date(resets_at)]). *)
Record UsageWindowResponse := {
  utilization : JS.number;
  resets_at : Date
}.

(** [UsageAPIResponse], without the optional per-model windows and the
    extra-usage block, which only feed the display. *)
Record UsageAPIResponse := {
  five_hour : UsageWindowResponse;
  seven_day : UsageWindowResponse
}.

Definition parseAPIResponse (name : string) (response : UsageAPIResponse)
    : APIUsageData :=
  {| accountName := name;
     fiveHourUsed := JS.round (utilization (five_hour response));
     fiveHourRemaining := JS.round (100 - utilization (five_hour response));
     fiveHourResetsAt := resets_at (five_hour response);
     sevenDayUsed := JS.round (utilization (seven_day response));
     sevenDayRemaining := JS.round (100 - utilization (seven_day response));
     sevenDayResetsAt := resets_at (seven_day response);
     error := None |}.

(** [makeErrorResult(errorMsg)] of [getAPIUsage]; [now] and [now'] are its
    two readings of [new Date()]. *)
Definition makeErrorResult (name : string) (now now' : Date)
    (errorMsg : string) : APIUsageData :=
  {| accountName := name;
     fiveHourUsed := 0;
     fiveHourRemaining := 100;
     fiveHourResetsAt := now;
     sevenDayUsed := 0;
     sevenDayRemaining := 100;
     sevenDayResetsAt := now';
     error := Some errorMsg |}.

(** A call that may throw: its value, or the message of the [Error]. *)
Inductive outcome (A : Type) : Type :=
| Ok (a : A)
| Err (message : string).
Arguments Ok {A} a.
Arguments Err {A} message.

(** What [getAPIUsage] meets outside: the keychain read and the HTTP call,
    each as it goes the first time and on the retry, and whether
    [refreshToken] reports success. *)
Record Surroundings := {
  keychain : outcome string;
  fetchUsage : string -> outcome UsageAPIResponse;
  refreshToken : bool;
  keychainAfterRefresh : outcome string;
  fetchUsageAfterRefresh : string -> outcome UsageAPIResponse
}.

(** What [getAPIUsage] does outside, in order. *)
Inductive Step :=
| ReadKeychain
| CallApi (token : string)
| RefreshToken.

(** [errMsg.includes('Token expired') || errMsg.includes('401')] *)
Definition looksExpired (errMsg : string) : bool :=
  JS.includes errMsg "Token expired" || JS.includes errMsg "401".

(** [getAPIUsage(accountName, configDir)]: the snapshot it resolves to and
    the steps it took. *)
Definition getAPIUsage (name : string) (now now' : Date)
    (env : Surroundings)
    : APIUsageData * list Step :=
  match keychain env with
  | Err m => (makeErrorResult name now now' m, [ReadKeychain])
  | Ok token =>
      match fetchUsage env token with
      | Ok response =>
          (parseAPIResponse name response, [ReadKeychain; CallApi token])
      | Err errMsg =>
          if looksExpired errMsg then
            if negb (refreshToken env) then
              (makeErrorResult name now now' "Token expired. Refresh failed.",
               [ReadKeychain; CallApi token; RefreshToken])
            else
              match keychainAfterRefresh env with
              | Err m =>
                  (makeErrorResult name now now' m,
                   [ReadKeychain; CallApi token; RefreshToken; ReadKeychain])
              | Ok token2 =>
                  match fetchUsageAfterRefresh env token2 with
                  | Ok response =>
                      (parseAPIResponse name response,
                       [ReadKeychain; CallApi token; RefreshToken;
                        ReadKeychain; CallApi token2])
                  | Err m =>
                      (makeErrorResult name now now' m,
                       [ReadKeychain; CallApi token; RefreshToken;
                        ReadKeychain; CallApi token2])
                  end
              end
          else
            (makeErrorResult name now now' errMsg, [ReadKeychain; CallApi token])
      end
  end.

(** How often a run of [getAPIUsage] called the API, and how often it
    refreshed the token. *)
Definition apiCalls (steps : list Step) : nat :=
  List.length
    (filter (fun s => match s with CallApi _ => true | _ => false end) steps).

Definition refreshes (steps : list Step) : nat :=
  List.length
    (filter (fun s => match s with RefreshToken => true | _ => false end) steps).

Definition clearUsageCache (_ : Cache) : Cache := initialCache.

Definition hasValidUsageCache (now : JS.number) (cache : Cache) : bool :=
  match cachedUsageData cache with
  | None => false
  | Some _ => JS.ltb ((now - lastFetchTime cache) / 1000) USAGE_CACHE_SECONDS
  end.

End Api.

(* ================================================================== *)
(** ** [src/usage/selector.ts]: session registry, scoring, selection *)
(* ================================================================== *)

Module Selector.
Import Api.

(** *** Configuration *)

Definition WEIGHT_SESSION : JS.number := 0.6.
Definition WEIGHT_WEEKLY : JS.number := 0.4.
Definition PENALTY_ACTIVE_SESSION : JS.number := 15.
Definition PENALTY_LAST_USED : JS.number := 5.
Definition BONUS_PER_HOUR_CLOSER_SESSION_RESET : JS.number := 0.5.
Definition MAX_SESSION_RESET_HOURS_FOR_BONUS : JS.number := 24.
Definition BONUS_PER_DAY_CLOSER_WEEKLY_RESET : JS.number := 2.5.
Definition MAX_WEEKLY_RESET_DAYS_FOR_BONUS : JS.number := 7.

(** *** Types *)

Record AccountSelection := {
  sel_accountName : string;
  sessionRemaining : JS.number;
  weeklyRemaining : JS.number;
  score : JS.number;
  isRateLimited : bool;
  resetsAt : option Date
}.

Record ActiveSession := {
  account : string;
  pid : Z;
  startedAt : string
}.

Record SelectorState := {
  lastUsedAccount : option string;
  lastUsedAt : option string;
  activeSessions : list ActiveSession
}.

(** [ScoredAccount], without the [penalties] strings kept for logging. *)
Record ScoredAccount := {
  usage : APIUsageData;
  baseScore : JS.number;
  adjustedScore : JS.number
}.

(** *** State management *)

(** The state file as [loadState] sees it: [Some] of the parsed content, or
    [None] when the file is missing, unreadable or not JSON. *)
Definition StateFile := option SelectorState.

Definition defaultState : SelectorState :=
  {| lastUsedAccount := None; lastUsedAt := None; activeSessions := [] |}.

Definition loadState (file : StateFile) : SelectorState :=
  match file with
  | Some state => state
  | None => defaultState
  end.

(** [saveState]: a failed write is swallowed and leaves the file as it was;
    [writable] says whether the write goes through. *)
Definition saveState (writable : bool) (state : SelectorState)
    (file : StateFile) : StateFile :=
  if writable then Some state else file.

Section Registry.

(** [isProcessRunning pid]: [process.kill(pid, 0)] does not throw. *)
Variable isProcessRunning : Z -> bool.

Definition cleanStaleSessions (state : SelectorState) : SelectorState :=
  {| lastUsedAccount := lastUsedAccount state;
     lastUsedAt := lastUsedAt state;
     activeSessions :=
       filter (fun session => isProcessRunning (pid session))
              (activeSessions state) |}.

(** [registerSession(accountName)], run by the process [self]; [startIso]
    and [usedIso] are the two readings of [new Date().toISOString()]. *)
Definition registerSession (writable : bool) (self : Z)
    (startIso usedIso : string) (accountName : string) (file : StateFile)
    : StateFile :=
  let state := cleanStaleSessions (loadState file) in
  let sessions := filter (fun s => negb (pid s =? self)%Z) (activeSessions state) in
  let sessions :=
    sessions ++ [{| account := accountName; pid := self; startedAt := startIso |}] in
  saveState writable
    {| lastUsedAccount := Some accountName;
       lastUsedAt := Some usedIso;
       activeSessions := sessions |}
    file.

End Registry.

(** [unregisterSession()], run by the process [self]. *)
Definition unregisterSession (writable : bool) (self : Z)
    (file : StateFile) : StateFile :=
  let state := loadState file in
  saveState writable
    {| lastUsedAccount := lastUsedAccount state;
       lastUsedAt := lastUsedAt state;
       activeSessions :=
         filter (fun s => negb (pid s =? self)%Z) (activeSessions state) |}
    file.

(** [getActiveAccounts(state).has(name)] *)
Definition getActiveAccounts (state : SelectorState) : list string :=
  map account (activeSessions state).

Definition has (names : list string) (name : string) : bool :=
  existsb (String.eqb name) names.

(** *** Scoring *)

Section Scoring.

(** [new Date().getTime()] during the call. *)
Variable now : JS.number.

Definition hoursUntil (date : Date) : JS.number :=
  let diffMs := date - now in
  Qmax 0 (diffMs / (1000 * 60 * 60)).

Definition daysUntil (date : Date) : JS.number :=
  hoursUntil date / 24.

Definition calculateBaseScore (usage : APIUsageData) : JS.number :=
  (fiveHourRemaining usage * WEIGHT_SESSION) +
  (sevenDayRemaining usage * WEIGHT_WEEKLY).

Definition calculateSessionResetBonus (usage : APIUsageData) : JS.number :=
  let hoursToReset := hoursUntil (fiveHourResetsAt usage) in
  let cappedHours := Qmin hoursToReset MAX_SESSION_RESET_HOURS_FOR_BONUS in
  (MAX_SESSION_RESET_HOURS_FOR_BONUS - cappedHours) * BONUS_PER_HOUR_CLOSER_SESSION_RESET.

Definition calculateWeeklyResetBonus (usage : APIUsageData) : JS.number :=
  let daysToReset := daysUntil (sevenDayResetsAt usage) in
  let cappedDays := Qmin daysToReset MAX_WEEKLY_RESET_DAYS_FOR_BONUS in
  (MAX_WEEKLY_RESET_DAYS_FOR_BONUS - cappedDays) * BONUS_PER_DAY_CLOSER_WEEKLY_RESET.

(** [!u.error && u.accountName !== excludeAccount] *)
Definition eligible (excludeAccount : option string) (u : APIUsageData) : bool :=
  negb (hasError u) &&
  match excludeAccount with
  | Some x => negb (accountName u =? x)%string
  | None => true
  end.

(** [usage.accountName === state.lastUsedAccount] *)
Definition isLastUsed (state : SelectorState) (u : APIUsageData) : bool :=
  match lastUsedAccount state with
  | Some l => (accountName u =? l)%string
  | None => false
  end.

Definition scoreAccounts (usages : list APIUsageData) (state : SelectorState)
    (excludeAccount : option string) : list ScoredAccount :=
  let activeAccounts := getActiveAccounts state in
  map (fun usage =>
         let baseScore := calculateBaseScore usage in
         let adjustedScore := baseScore in
         let adjustedScore :=
           if has activeAccounts (accountName usage)
           then adjustedScore - PENALTY_ACTIVE_SESSION else adjustedScore in
         let adjustedScore :=
           if isLastUsed state usage
           then adjustedScore - PENALTY_LAST_USED else adjustedScore in
         let sessionResetBonus := calculateSessionResetBonus usage in
         let adjustedScore := adjustedScore + sessionResetBonus in
         let weeklyResetBonus := calculateWeeklyResetBonus usage in
         let adjustedScore := adjustedScore + weeklyResetBonus in
         {| usage := usage; baseScore := baseScore; adjustedScore := adjustedScore |})
      (filter (eligible excludeAccount) usages).

(** *** Selection *)

Variable isProcessRunning : Z -> bool.

Definition selectBestAccount (file : StateFile) (usages : list APIUsageData)
    (excludeAccount : option string) : JS.completion (option AccountSelection) :=
  if (List.length usages =? 0)%nat then JS.Returns None else
  let state := cleanStaleSessions isProcessRunning (loadState file) in
  let candidates := filter (eligible excludeAccount) usages in
  if (List.length candidates =? 0)%nat then JS.Returns None else
  let available := filter (fun u => JS.ltb 0 (fiveHourRemaining u)) candidates in
  let rateLimited := filter (fun u => JS.leb (fiveHourRemaining u) 0) candidates in
  if (List.length available =? 0)%nat then
    let sorted :=
      JS.sort (fun a b => fiveHourResetsAt a - fiveHourResetsAt b) rateLimited in
    match sorted with
    | best :: _ =>
        JS.Returns (Some
          {| sel_accountName := accountName best;
             sessionRemaining := fiveHourRemaining best;
             weeklyRemaining := sevenDayRemaining best;
             score := 0;
             isRateLimited := true;
             resetsAt := Some (fiveHourResetsAt best) |})
    | [] => JS.Throws
    end
  else
    let scored := scoreAccounts available state excludeAccount in
    let scored := JS.sort (fun a b => adjustedScore b - adjustedScore a) scored in
    match scored with
    | best :: _ =>
        JS.Returns (Some
          {| sel_accountName := accountName (usage best);
             sessionRemaining := fiveHourRemaining (usage best);
             weeklyRemaining := sevenDayRemaining (usage best);
             score := adjustedScore best;
             isRateLimited := false;
             resetsAt := None |})
    | [] => JS.Throws
    end.

Definition selectNextAccount (file : StateFile) (usages : list APIUsageData)
    (currentAccount : string) : JS.completion (option AccountSelection) :=
  selectBestAccount file usages (Some currentAccount).

End Scoring.

Definition isAccountRateLimited (usage : APIUsageData) : bool :=
  negb (hasError usage) && JS.leb (fiveHourRemaining usage) 0.

End Selector.


(* ================================================================== *)
(** ** The PTY wrapper: output relay and rate-limit detection *)
(* ================================================================== *)

Module Pty.

Definition RATE_LIMIT_TRIGGER : string := "You've hit your limit".

(** The variables of the [createPtyWrapper] closure that [onData] touches. *)
Record Wrapper := {
  outputBuffer : string;
  rateLimitDetected : bool;
  outputPaused : bool
}.

Definition created : Wrapper :=
  {| outputBuffer := ""; rateLimitDetected := false; outputPaused := false |}.

(** What the wrapper does towards the outside, in order. *)
Inductive Effect :=
| StdoutWrite (data : string)
| EmitRateLimit
| CallOnRateLimitDetected
| EmitData (data : string).

(** The [ptyProcess.onData] callback; [hasCallback] says whether
    [options.onRateLimitDetected] was given. *)
Definition onData (hasCallback : bool) (data : string) (w : Wrapper)
    : Wrapper * list Effect :=
  let written := if negb (outputPaused w) then [StdoutWrite data] else [] in
  let buffer := (outputBuffer w ++ data)%string in
  let buffer :=
    if (500 <? String.length buffer)%nat then JS.sliceLast 500 buffer else buffer in
  if negb (rateLimitDetected w) && JS.includes buffer RATE_LIMIT_TRIGGER then
    ({| outputBuffer := buffer; rateLimitDetected := true;
        outputPaused := outputPaused w |},
     written ++ [EmitRateLimit]
       ++ (if hasCallback then [CallOnRateLimitDetected] else [])
       ++ [EmitData data])
  else
    ({| outputBuffer := buffer; rateLimitDetected := rateLimitDetected w;
        outputPaused := outputPaused w |},
     written ++ [EmitData data]).

Definition pauseOutput (w : Wrapper) : Wrapper :=
  {| outputBuffer := outputBuffer w; rateLimitDetected := rateLimitDetected w;
     outputPaused := true |}.

Definition resumeOutput (w : Wrapper) : Wrapper :=
  {| outputBuffer := outputBuffer w; rateLimitDetected := rateLimitDetected w;
     outputPaused := false |}.

(** What can happen to one wrapper during its session. *)
Inductive Input :=
| Data (chunk : string)
| PauseOutput
| ResumeOutput.

Definition step (hasCallback : bool) (i : Input) (w : Wrapper)
    : Wrapper * list Effect :=
  match i with
  | Data chunk => onData hasCallback chunk w
  | PauseOutput => (pauseOutput w, [])
  | ResumeOutput => (resumeOutput w, [])
  end.

(** A session: the inputs in order, with the effects of each. *)
Fixpoint run (hasCallback : bool) (inputs : list Input) (w : Wrapper)
    : Wrapper * list (list Effect) :=
  match inputs with
  | [] => (w, [])
  | i :: rest =>
      let '(w1, effects) := step hasCallback i w in
      let '(w2, later) := run hasCallback rest w1 in
      (w2, effects :: later)
  end.

Definition isRateLimitEvent (e : Effect) : bool :=
  match e with
  | EmitRateLimit => true
  | _ => false
  end.

(** Did this input make the wrapper emit ['rate-limit']? *)
Definition fired (effects : list Effect) : bool :=
  existsb isRateLimitEvent effects.

(** How many ['rate-limit'] events a session emitted. *)
Definition rateLimitEvents (trace : list (list Effect)) : nat :=
  List.length (filter isRateLimitEvent (List.concat trace)).

(** What an input adds to the child's output. *)
Definition outputOf (i : Input) : string :=
  match i with
  | Data chunk => chunk
  | _ => ""
  end.

(** The child's whole output up to and including input [k]. *)
Fixpoint outputUpTo (inputs : list Input) (k : nat) : string :=
  match inputs with
  | [] => ""
  | i :: rest =>
      match k with
      | O => outputOf i
      | S k' => (outputOf i ++ outputUpTo rest k')%string
      end
  end.

(** The detection buffer as the specification describes it: the trailing
    500 characters of everything output so far. *)
Definition trailing (inputs : list Input) (k : nat) : string :=
  JS.sliceLast 500 (outputUpTo inputs k).

(** What the wrapper's variables say about the output [history] so far:
    the buffer holds its last 500 characters, and as long as nothing was
    detected the marker is not in the buffer. *)
Definition tracks (w : Wrapper) (history : string) : Prop :=
  outputBuffer w = JS.sliceLast 500 history /\
  (rateLimitDetected w = false ->
   JS.includes (outputBuffer w) RATE_LIMIT_TRIGGER = false).

(** Does the marker show in the trailing buffer after input [k]? *)
Definition markerVisible (inputs : list Input) (k : nat) : bool :=
  JS.includes (trailing inputs k) RATE_LIMIT_TRIGGER.

(** The same two notions for a session observed from a later point on,
    [history] being the output before that point. *)
Definition seenAfter (history : string) (inputs : list Input) (k : nat) : bool :=
  JS.includes (JS.sliceLast 500 (history ++ outputUpTo inputs k))
              RATE_LIMIT_TRIGGER.

Definition quietBefore (history : string) (inputs : list Input) (k : nat) : bool :=
  forallb (fun j => negb (seenAfter history inputs j)) (seq 0 k).

End Pty.

(* ================================================================== *)
(** ** The launcher: [launchClaudeWithPty] and its failover handlers *)
(* ================================================================== *)

Module Launcher.
Import Api Selector.

(** What one invocation of [launchClaudeWithPty] closes over. *)
Record Controller := {
  accountName : string;
  claudeArgs : list string;
  usageData : list APIUsageData;
  autoSwitch : bool
}.

(** The two flags of the closure. *)
Record Flags := {
  isHandlingRateLimit : bool;
  isHandlingManualSwitch : bool
}.

Definition launched : Flags :=
  {| isHandlingRateLimit := false; isHandlingManualSwitch := false |}.

(** What a handler reads from its surroundings when it runs: the registry
    file, process liveness, the clock, and what [findActiveSessionId]
    returns for the current account's conversation store. *)
Record World := {
  stateFile : StateFile;
  isProcessRunning : Z -> bool;
  now : JS.number;
  activeSessionId : option string
}.

Inductive Action :=
| Kill
| Sync
| NoticeAllRateLimited
| Launch (account : string) (args : list string) (usage : list APIUsageData)
| Exit (code : Z)
| Uncaught.

(** [i > 0 && claudeArgs[i - 1] === '--resume'] *)
Definition afterResume (args : list string) (i : nat) : bool :=
  (0 <? i)%nat &&
  match nth_error args (i - 1) with
  | Some prev => (prev =? "--resume")%string
  | None => false
  end.

(** The [filter] callback of [switchAccount]. *)
Definition keepOnSwitch (args : list string) (a : string) (i : nat) : bool :=
  if (a =? "--resume")%string then false
  else if afterResume args i then false
  else true.

(** The [filter] callback of [onRateLimitDetected]:
    [a !== '--resume' && !claudeArgs[claudeArgs.indexOf('--resume') + 1]?.includes(a)] *)
Definition keepOnRateLimit (args : list string) (a : string) : bool :=
  negb (a =? "--resume")%string &&
  negb match JS.at_ args (JS.indexOf "--resume" args + 1) with
       | Some value => JS.includes value a
       | None => false
       end.

Definition switchResumeArgs (sessionId : option string) (args : list string)
    : list string :=
  match sessionId with
  | Some id =>
      if JS.truthy sessionId
      then "--resume"%string :: id :: JS.filteri (keepOnSwitch args) args
      else args
  | None => args
  end.

Definition rateLimitResumeArgs (sessionId : option string) (args : list string)
    : list string :=
  match sessionId with
  | Some id =>
      if JS.truthy sessionId
      then "--resume"%string :: id :: filter (keepOnRateLimit args) args
      else args
  | None => args
  end.

Section Handlers.
Variable c : Controller.

(** [switchAccount(newAccountName, resumeSession)] of the command context. *)
Definition switchAccount (w : World) (newAccountName : string)
    (resumeSession : bool) (f : Flags) : Flags * list Action :=
  let f := {| isHandlingRateLimit := isHandlingRateLimit f;
              isHandlingManualSwitch := true |} in
  let sessionId := if resumeSession then activeSessionId w else None in
  let resumeArgs := switchResumeArgs sessionId (claudeArgs c) in
  (f, [Kill; Sync; Launch newAccountName resumeArgs (usageData c)]).

(** [{ ...u, fiveHourRemaining: 0, fiveHourUsed: 100 }] for the current account. *)
Definition markExhausted (u : APIUsageData) : APIUsageData :=
  if (Api.accountName u =? accountName c)%string then
    {| Api.accountName := Api.accountName u;
       fiveHourUsed := 100;
       fiveHourRemaining := 0;
       fiveHourResetsAt := fiveHourResetsAt u;
       sevenDayUsed := sevenDayUsed u;
       sevenDayRemaining := sevenDayRemaining u;
       sevenDayResetsAt := sevenDayResetsAt u;
       error := error u |}
  else u.

(** The [onRateLimitDetected] option handed to the wrapper. *)
Definition onRateLimitDetected (w : World) (f : Flags) : Flags * list Action :=
  if negb (autoSwitch c) || isHandlingRateLimit f then (f, [])
  else
    let f := {| isHandlingRateLimit := true;
                isHandlingManualSwitch := isHandlingManualSwitch f |} in
    match selectNextAccount (now w) (isProcessRunning w) (stateFile w)
                            (usageData c) (accountName c) with
    | JS.Throws => (f, [Uncaught])
    | JS.Returns None => (f, [NoticeAllRateLimited])
    | JS.Returns (Some nextAccount) =>
        if isRateLimited nextAccount then (f, [NoticeAllRateLimited])
        else
          let resumeArgs := rateLimitResumeArgs (activeSessionId w) (claudeArgs c) in
          let updatedUsage := map markExhausted (usageData c) in
          (f, [Kill; Sync;
               Launch (sel_accountName nextAccount) resumeArgs updatedUsage])
    end.

(** The [onExit] option handed to the wrapper. *)
Definition onExit (code : Z) (f : Flags) : Flags * list Action :=
  if isHandlingRateLimit f || isHandlingManualSwitch f then (f, [])
  else (f, [Exit code]).

(** What can reach one controller instance. *)
Inductive Event :=
| RateLimitDetected (w : World)
| SwitchRequested (w : World) (newAccountName : string) (resumeSession : bool)
| Exited (code : Z).

Definition handle (e : Event) (f : Flags) : Flags * list Action :=
  match e with
  | RateLimitDetected w => onRateLimitDetected w f
  | SwitchRequested w newAccountName resumeSession =>
      switchAccount w newAccountName resumeSession f
  | Exited code => onExit code f
  end.

Fixpoint run (events : list Event) (f : Flags) : Flags * list (list Action) :=
  match events with
  | [] => (f, [])
  | e :: rest =>
      let '(f1, actions) := handle e f in
      let '(f2, later) := run rest f1 in
      (f2, actions :: later)
  end.

End Handlers.

Definition isKill (a : Action) : bool :=
  match a with Kill => true | _ => false end.

Definition isLaunch (a : Action) : bool :=
  match a with Launch _ _ _ => true | _ => false end.

(** An event was dropped: it neither killed the supervisor nor launched a
    replacement. *)
Definition dropped (actions : list Action) : bool :=
  negb (existsb isKill actions) && negb (existsb isLaunch actions).

(** The argument list the specification prescribes for a failover that
    found the identifier [id]: a resume pair, then the prior arguments
    without any [--resume] flag and its value. *)
Fixpoint spec_stripResume (args : list string) : list string :=
  match args with
  | [] => []
  | a :: rest =>
      if (a =? "--resume")%string then
        match rest with
        | [] => []
        | _ :: rest' => spec_stripResume rest'
        end
      else a :: spec_stripResume rest
  end.

Definition spec_resumeArgs (id : string) (args : list string) : list string :=
  "--resume"%string :: id :: spec_stripResume args.

(** No [--resume] flag takes another [--resume] as its value. *)
Fixpoint noDoubleResume (args : list string) : bool :=
  match args with
  | a :: (b :: _) as rest =>
      negb ((a =? "--resume")%string && (b =? "--resume")%string)
      && noDoubleResume rest
  | _ => true
  end.

(** The filter of [switchAccount] read as one left-to-right pass that
    remembers whether the element just passed was [--resume]. *)
Fixpoint scanResume (afterFlag : bool) (args : list string) : list string :=
  match args with
  | [] => []
  | a :: rest =>
      if (a =? "--resume")%string then scanResume true rest
      else if afterFlag then scanResume false rest
      else a :: scanResume false rest
  end.

Definition isRateLimitDetected (e : Event) : bool :=
  match e with
  | RateLimitDetected _ => true
  | _ => false
  end.

(** How many rate-limit detections of a run were acted upon, that is,
    killed the supervisor or launched a replacement. *)
Definition rateLimitFailovers (c : Controller) (events : list Event)
    (f : Flags) : nat :=
  List.length
    (filter (fun ea => isRateLimitDetected (fst ea) && negb (dropped (snd ea)))
            (combine events (snd (run c events f)))).

End Launcher.

(* ================================================================== *)
(** ** Scoring as the specification words it *)
(* ================================================================== *)

Module Spec.
Import Api Selector.

(** [finalScore = baseScore + sessionBonus + windowBonus - activePenalty -
    lastUsedPenalty], for a snapshot judged against a (cleaned) registry
    state at the instant [now]. *)
Definition finalScore (now : JS.number) (state : SelectorState)
    (u : APIUsageData) : JS.number :=
  let baseScore := fiveHourRemaining u * 0.6 + sevenDayRemaining u * 0.4 in
  let sessionBonus := (24 - Qmin (hoursUntil now (fiveHourResetsAt u)) 24) * 0.5 in
  let windowBonus := (7 - Qmin (hoursUntil now (sevenDayResetsAt u) / 24) 7) * 2.5 in
  let activePenalty :=
    if has (getActiveAccounts state) (accountName u) then 15 else 0 in
  let lastUsedPenalty := if isLastUsed state u then 5 else 0 in
  baseScore + sessionBonus + windowBonus - activePenalty - lastUsedPenalty.

(** The candidates of a call: no error, not the excluded account. *)
Definition candidatesOf (excludeAccount : option string)
    (usages : list APIUsageData) : list APIUsageData :=
  filter (eligible excludeAccount) usages.

(** The candidates with session capacity left. *)
Definition availableOf (excludeAccount : option string)
    (usages : list APIUsageData) : list APIUsageData :=
  filter (fun u => JS.ltb 0 (fiveHourRemaining u))
         (candidatesOf excludeAccount usages).

(** The registry state a call scores against: the file's, cleaned. *)
Definition registryOf (isProcessRunning : Z -> bool) (file : StateFile)
    : SelectorState :=
  cleanStaleSessions isProcessRunning (loadState file).

(** A registry entry survives a register/unregister round trip of the
    process [self] when its process is alive and is not [self]. *)
Definition survives (isProcessRunning : Z -> bool) (self : Z)
    (s : ActiveSession) : bool :=
  isProcessRunning (pid s) && negb (pid s =? self)%Z.

(** A reset instant of a snapshot free of error lies before [now], in
    either quota window. *)
Definition someResetPassed (now : JS.number) (u : APIUsageData) : bool :=
  negb (hasError u) &&
  (JS.ltb (fiveHourResetsAt u) now || JS.ltb (sevenDayResetsAt u) now).

End Spec.

(* ================================================================== *)
(** ** Concrete situations *)
(* ================================================================== *)

Module Scenarios.
Import Api Selector.

(** Durations in milliseconds. *)
Definition minutes (n : JS.number) : JS.number := n * 60000.
Definition hours (n : JS.number) : JS.number := n * 3600000.
Definition days (n : JS.number) : JS.number := n * 86400000.

(** A snapshot free of error whose windows reset [session] and [weekly]
    milliseconds after [now]. *)
Definition snapshot (name : string) (sessionLeft weeklyLeft : JS.number)
    (now session weekly : JS.number) : APIUsageData :=
  {| accountName := name;
     fiveHourUsed := 100 - sessionLeft;
     fiveHourRemaining := sessionLeft;
     fiveHourResetsAt := now + session;
     sevenDayUsed := 100 - weeklyLeft;
     sevenDayRemaining := weeklyLeft;
     sevenDayResetsAt := now + weekly;
     error := None |}.

(** Accounts [p] and [q] of the specification's scenarios A and B. *)
Definition p (now : JS.number) : APIUsageData :=
  snapshot "p" 88 79 now (hours 3 + minutes 20) (days 6 + hours 12).

Definition q (now : JS.number) : APIUsageData :=
  snapshot "q" 61 57 now (hours 3 + minutes 20) (days 3 + hours 13).

(** Scenario B's registry: a session of process [owner] runs on [p], and
    [p] is the account used last. *)
Definition registryB (owner : Z) (since : string) : StateFile :=
  Some {| lastUsedAccount := Some "p"%string;
          lastUsedAt := Some since;
          activeSessions :=
            [{| account := "p"; pid := owner; startedAt := since |}] |}.

(** Scenario C: three exhausted accounts resetting in 1 h, 3 h and 30 min. *)
Definition exhaustedThree (now : JS.number) : list APIUsageData :=
  [ snapshot "a" 0 40 now (hours 1) (days 2);
    snapshot "b" 0 50 now (hours 3) (days 3);
    snapshot "c" 0 60 now (minutes 30) (days 4) ].

(** A cache filled one second ago whose only snapshot has its session
    reset an hour ahead and its weekly reset a minute behind. *)
Definition weeklyStale (now : JS.number) : APIUsageData :=
  {| accountName := "a";
     fiveHourUsed := 50;
     fiveHourRemaining := 50;
     fiveHourResetsAt := now + hours 1;
     sevenDayUsed := 50;
     sevenDayRemaining := 50;
     sevenDayResetsAt := now - minutes 1;
     error := None |}.

Definition recentCache (now : JS.number) : Cache :=
  {| cachedUsageData := Some [weeklyStale now];
     lastFetchTime := now - 1000 |}.

(** Account [a] is exhausted, account [b] has capacity left. *)
Definition twoAccounts (now : JS.number) : list APIUsageData :=
  [ snapshot "a" 0 40 now (hours 1) (days 2);
    snapshot "b" 50 50 now (hours 2) (days 3) ].

(** A controller supervising a session on [a], started with [args]. *)
Definition controllerOnA (now : JS.number) (args : list string)
    : Launcher.Controller :=
  {| Launcher.accountName := "a";
     Launcher.claudeArgs := args;
     Launcher.usageData := twoAccounts now;
     Launcher.autoSwitch := true |}.

(** No registry file, every process alive, and a conversation store in
    which [findActiveSessionId] finds [sessionId]. *)
Definition worldAt (now : JS.number) (sessionId : option string)
    : Launcher.World :=
  {| Launcher.stateFile := None;
     Launcher.isProcessRunning := fun _ => true;
     Launcher.now := now;
     Launcher.activeSessionId := sessionId |}.

End Scenarios.

(* ================================================================== *)
(** ** The command line: [parseArgs] *)
(* ================================================================== *)

Module Cli.

Record CliArgs := {
  sync : bool;
  verbose : bool;
  list : bool;
  help : bool;
  usage : bool;
  score : bool;
  noAutoSwitch : bool;
  account : option string;
  addAccount : option string;
  mcpArgs : option (List.list string);
  claudeArgs : List.list string
}.

Definition hubFlags : List.list string :=
  ["--sync"; "--help"; "-h"; "--list"; "-v"; "--verbose"; "--account";
   "--usage"; "--score"; "--no-auto-switch"; "--add-account"]%string.

(** [args.includes(x)] on an array of strings. *)
Definition includes (args : List.list string) (x : string) : bool :=
  existsb (String.eqb x) args.

(** The lookup of [--account] and [--add-account]: the argument after the
    first occurrence of [flag], when there is one. *)
Definition valueAfter (flag : string) (args : List.list string) : option string :=
  let index := JS.indexOf flag args in
  if negb (index =? -1)%Z && (index + 1 <? Z.of_nat (List.length args))%Z
  then JS.at_ args (index + 1)
  else None.

(** The loop that separates hub flags from the arguments meant for
    claude; a flag that takes a value skips the next argument too. *)
Fixpoint separate (args : List.list string) : List.list string :=
  match args with
  | [] => []
  | arg :: rest =>
      if includes hubFlags arg then
        if (arg =? "--account")%string || (arg =? "--add-account")%string then
          match rest with
          | [] => []
          | _ :: rest' => separate rest'
          end
        else separate rest
      else arg :: separate rest
  end.

(** [parseArgs()], for [process.argv.slice(2) = args]. *)
Definition parseArgs (args : List.list string) : CliArgs :=
  {| sync := includes args "--sync";
     verbose := includes args "-v" || includes args "--verbose";
     list := includes args "--list";
     help := includes args "--help" || includes args "-h";
     usage := includes args "--usage";
     score := includes args "--score";
     noAutoSwitch := includes args "--no-auto-switch";
     account := valueAfter "--account" args;
     addAccount := valueAfter "--add-account" args;
     mcpArgs :=
       match args with
       | first :: rest => if (first =? "mcp")%string then Some rest else None
       | [] => None
       end;
     claudeArgs := separate args |}.

End Cli.

(* ================================================================== *)
(** ** The conversation store: [findActiveSessionId] *)
(* ================================================================== *)

Module Conversations.

(** A line of a conversation file as far as the scan reads it: the
    [timestamp] of its entry, or [None] when the line is not JSON or its
    entry carries none. *)
Definition Line := option string.

(** A directory entry of the project's folder; [content] is [None] when
    the file cannot be read. *)
Record Entry := {
  fileName : string;
  content : option (list Line)
}.

(** The project's folder under [projects/]; [None] when it does not exist
    or cannot be listed. *)
Definition Store := option (list Entry).

(** [f.endsWith('.jsonl') && !f.includes('/')] *)
Definition isConversation (e : Entry) : bool :=
  JS.endsWith (fileName e) ".jsonl" && negb (JS.includes (fileName e) "/").

(** [file.replace('.jsonl', '')] *)
Definition sessionIdOf (e : Entry) : string :=
  JS.replaceFirst (fileName e) ".jsonl" "".

(** The search from the end of a file for an entry with a timestamp. *)
Definition lastTimestamp (lines : list Line) : option string :=
  match find JS.truthy (rev lines) with
  | Some (Some timestamp) => Some timestamp
  | _ => None
  end.

(** The timestamp the scan finds for a directory entry, if any. *)
Definition latestOf (e : Entry) : option string :=
  match content e with
  | Some lines => lastTimestamp lines
  | None => None
  end.

(** What [latestTimestamp] and [latestSessionId] say after the files in
    [seen] were visited: nothing found so far, or the first file of
    greatest timestamp among them. *)
Definition tracksLatest (seen : list Entry) (latest : string * option string)
    : Prop :=
  match snd latest with
  | None => fst latest = ""%string /\ forall e, In e seen -> latestOf e = None
  | Some id =>
      exists before e after,
        seen = before ++ e :: after /\
        id = sessionIdOf e /\
        latestOf e = Some (fst latest) /\
        (forall e' t, In e' before -> latestOf e' = Some t ->
                      String.ltb t (fst latest) = true) /\
        (forall e' t, In e' after -> latestOf e' = Some t ->
                      String.ltb (fst latest) t = false)
  end.

(** One turn of the loop over the files, on [latestTimestamp] and
    [latestSessionId]. *)
Definition visit (latest : string * option string) (e : Entry)
    : string * option string :=
  match content e with
  | None => latest
  | Some lines =>
      match lastTimestamp lines with
      | Some timestamp =>
          if JS.gt timestamp (fst latest)
          then (timestamp, Some (sessionIdOf e))
          else latest
      | None => latest
      end
  end.

Definition findActiveSessionId (store : Store) : option string :=
  match store with
  | None => None
  | Some entries =>
      let files := filter isConversation entries in
      if (List.length files =? 0)%nat then None
      else snd (fold_left visit files (""%string, None))
  end.

(** The project's folder under [projects/], as [findActiveSessionId]
    names it: ['-' + cwd.replace(/\//g, '-').slice(1)]. *)
Fixpoint slashesToDashes (s : string) : string :=
  match s with
  | EmptyString => EmptyString
  | String c s' =>
      String (if Ascii.eqb c "/" then "-"%char else c) (slashesToDashes s')
  end.

Definition projectDirName (cwd : string) : string :=
  String "-" (JS.drop 1 (slashesToDashes cwd)).

End Conversations.

(* ================================================================== *)
(** ** The switch overlay: [renderSwitchMenu] and [waitForSelection] *)
(* ================================================================== *)

Module SwitchMenu.
Import Api Selector.

Record SwitchOption := {
  number : nat;
  optionAccount : string;
  isRecommended : bool
}.

(** The loop of [renderSwitchMenu] as far as it builds [options];
    [optionNumber] is the number the next option gets. *)
Fixpoint optionsFrom (optionNumber : nat) (bestAccount : option string)
    (currentAccount : string) (usages : list APIUsageData)
    : list SwitchOption :=
  match usages with
  | [] => []
  | u :: rest =>
      let isCurrent := (accountName u =? currentAccount)%string in
      let isBest :=
        match bestAccount with
        | Some best => (accountName u =? best)%string
        | None => false
        end in
      if negb isCurrent then
        {| number := optionNumber;
           optionAccount := accountName u;
           isRecommended := isBest |}
        :: optionsFrom (S optionNumber) bestAccount currentAccount rest
      else optionsFrom optionNumber bestAccount currentAccount rest
  end.

(** [renderSwitchMenu(usages, currentAccount)], its return value. *)
Definition renderSwitchMenu (now : JS.number) (isProcessRunning : Z -> bool)
    (file : StateFile) (usages : list APIUsageData) (currentAccount : string)
    : JS.completion (list SwitchOption) :=
  match selectBestAccount now isProcessRunning file usages (Some currentAccount) with
  | JS.Throws => JS.Throws
  | JS.Returns bestSelection =>
      let bestAccount := option_map sel_accountName bestSelection in
      JS.Returns (optionsFrom 1 bestAccount currentAccount usages)
  end.

(** [parseInt(char, 10)] of one character: its digit, or NaN. *)
Definition digitOf (c : ascii) : option nat :=
  let n := nat_of_ascii c in
  if (48 <=? n)%nat && (n <=? 57)%nat then Some (n - 48)%nat else None.

(** What the input handler of [waitForSelection] makes of one chunk of
    keys: [None] while it keeps waiting, [Some None] on cancel, [Some (Some
    n)] on the choice of option [n]. *)
Fixpoint keysPressed (data : string) (maxOption : nat) : option (option nat) :=
  match data with
  | EmptyString => None
  | String char rest =>
      if Ascii.eqb char "027" then Some None
      else if (maxOption =? 0)%nat then Some None
      else match digitOf char with
           | Some num =>
               if (1 <=? num)%nat && (num <=? maxOption)%nat then Some (Some num)
               else keysPressed rest maxOption
           | None => keysPressed rest maxOption
           end
  end.

(** [name] is not the account Claude runs on. *)
Definition other (currentAccount name : string) : bool :=
  negb (name =? currentAccount)%string.

(** [waitForSelection(context, maxOption)] over the chunks of keys that
    arrive while the menu is shown: the handler stays installed until a
    chunk settles the choice; [None] when none does. *)
Fixpoint waitForSelection (chunks : list string) (maxOption : nat)
    : option (option nat) :=
  match chunks with
  | [] => None
  | data :: rest =>
      match keysPressed data maxOption with
      | Some selection => Some selection
      | None => waitForSelection rest maxOption
      end
  end.

(** [options[selection - 1].accountName] when [selection !== null]; reading
    [accountName] of a missing element throws. *)
Definition selectedAccount (options : list SwitchOption) (selection : option nat)
    : JS.completion (option string) :=
  match selection with
  | None => JS.Returns None
  | Some O => JS.Throws
  | Some (S index) =>
      match nth_error options index with
      | Some opt => JS.Returns (Some (optionAccount opt))
      | None => JS.Throws
      end
  end.

(** [switchHandler] as the launcher's F10 key runs it for controller [c]:
    the menu is built from [usages] (what [getAllAPIUsage] gave) with the
    registry read at [now], the keys arrive in [chunks], and the switch, if
    any, happens in world [w].  An exception ends the command without a
    switch; so does a choice that never comes. *)
Definition switchHandler (c : Launcher.Controller) (now : JS.number)
    (isProcessRunning : Z -> bool) (file : StateFile)
    (usages : list APIUsageData) (chunks : list string)
    (w : Launcher.World) (f : Launcher.Flags)
    : Launcher.Flags * list Launcher.Action :=
  match renderSwitchMenu now isProcessRunning file usages
                         (Launcher.accountName c) with
  | JS.Throws => (f, [])
  | JS.Returns options =>
      match waitForSelection chunks (List.length options) with
      | None => (f, [])
      | Some selection =>
          match selectedAccount options selection with
          | JS.Throws => (f, [])
          | JS.Returns selected =>
              match selected with
              | Some account =>
                  if JS.truthy selected
                  then Launcher.switchAccount c w account true f
                  else (f, [])
              | None => (f, [])
              end
          end
      end
  end.

End SwitchMenu.

(* ================================================================== *)
(** ** A chain of rate-limit failovers *)
(* ================================================================== *)

Module Chain.
Import Api Launcher.

(** A snapshot the controller could fail over to: no error, not the
    current account, session capacity left. *)
Definition isTarget (current : string) (u : APIUsageData) : bool :=
  Selector.eligible (Some current) u && JS.ltb 0 (fiveHourRemaining u).

Definition targetsLeft (c : Controller) : nat :=
  List.length (filter (isTarget (accountName c)) (usageData c)).

(** The controller that [launchClaudeWithPty(config, account, args, usage,
    autoSwitch, verbose)] sets up from within [c]. *)
Definition relaunched (c : Controller) (account : string)
    (args : list string) (usage : list APIUsageData) : Controller :=
  {| accountName := account;
     claudeArgs := args;
     usageData := usage;
     autoSwitch := autoSwitch c |}.

(** [c'] is the controller a rate-limit detection in [c] launches. *)
Inductive failsOverTo (c : Controller) : Controller -> Prop :=
| FailsOver (w : World) (f : Flags) (account : string) (args : list string)
    (usage : list APIUsageData) :
    In (Launch account args usage) (snd (onRateLimitDetected c w f)) ->
    failsOverTo c (relaunched c account args usage).

(** [c'] is reached from [c] by [n] rate-limit failovers in a row. *)
Inductive failoverChain : nat -> Controller -> Controller -> Prop :=
| ChainEnd (c : Controller) : failoverChain 0 c c
| ChainStep (n : nat) (c c1 c2 : Controller) :
    failsOverTo c c1 -> failoverChain n c1 c2 -> failoverChain (S n) c c2.

End Chain.

(* ================================================================== *)
(** ** The PTY wrapper: keyboard relay and function keys *)
(* ================================================================== *)

Module Stdin.

Definition ESC : ascii := "027"%char.

(** Function key escape sequences (xterm style). *)
Definition F9_SEQ : string := String ESC "[20~".
Definition F10_SEQ : string := String ESC "[21~".

(** The variables of the [createPtyWrapper] closure that [stdinHandler]
    touches.  [commandInputHandler] and [ptyProcess] are kept as far as
    the handler tests them: set or [null].  [pendingFlushes] counts the
    50 ms timers set and not yet fired. *)
Record Keyboard := {
  isProcessingFunctionKey : bool;
  commandInputHandler : bool;
  inputBuffer : string;
  ptyProcess : bool;
  pendingFlushes : nat
}.

(** The closure after a successful spawn. *)
Definition created : Keyboard :=
  {| isProcessingFunctionKey := false;
     commandInputHandler := false;
     inputBuffer := "";
     ptyProcess := true;
     pendingFlushes := 0 |}.

Inductive Effect :=
| PtyWrite (data : string)
| CommandInput (data : string)
| CallOnF9
| CallOnF10
| SetTimeout.

(** [if (inputBuffer.length > 0 && ptyProcess) { ptyProcess.write(inputBuffer);
    inputBuffer = ''; }] on the buffer [buffer]. *)
Definition flush (buffer : string) (k : Keyboard) : string * list Effect :=
  if (0 <? String.length buffer)%nat && ptyProcess k
  then (""%string, [PtyWrite buffer])
  else (buffer, []).

(** [stdinHandler] up to its first [await]; [hasF9] and [hasF10] say
    whether [options.onF9] and [options.onF10] were given. *)
Definition stdinHandler (hasF9 hasF10 : bool) (str : string) (k : Keyboard)
    : Keyboard * list Effect :=
  if isProcessingFunctionKey k then
    (k, if commandInputHandler k then [CommandInput str] else [])
  else
    let buffer := (inputBuffer k ++ str)%string in
    if JS.includes buffer F9_SEQ && hasF9 then
      let buffer := JS.replaceFirst buffer F9_SEQ "" in
      let '(buffer, written) := flush buffer k in
      ({| isProcessingFunctionKey := true;
          commandInputHandler := commandInputHandler k;
          inputBuffer := buffer;
          ptyProcess := ptyProcess k;
          pendingFlushes := pendingFlushes k |},
       written ++ [CallOnF9])
    else if JS.includes buffer F10_SEQ && hasF10 then
      let buffer := JS.replaceFirst buffer F10_SEQ "" in
      let '(buffer, written) := flush buffer k in
      ({| isProcessingFunctionKey := true;
          commandInputHandler := commandInputHandler k;
          inputBuffer := buffer;
          ptyProcess := ptyProcess k;
          pendingFlushes := pendingFlushes k |},
       written ++ [CallOnF10])
    else if JS.startsWith buffer (String ESC "") && (String.length buffer <? 5)%nat then
      ({| isProcessingFunctionKey := false;
          commandInputHandler := commandInputHandler k;
          inputBuffer := buffer;
          ptyProcess := ptyProcess k;
          pendingFlushes := S (pendingFlushes k) |},
       [SetTimeout])
    else
      let '(buffer, written) := flush buffer k in
      ({| isProcessingFunctionKey := false;
          commandInputHandler := commandInputHandler k;
          inputBuffer := buffer;
          ptyProcess := ptyProcess k;
          pendingFlushes := pendingFlushes k |},
       written).

(** The callback of [setTimeout(..., 50)], when one is pending. *)
Definition flushTimer (k : Keyboard) : Keyboard * list Effect :=
  match pendingFlushes k with
  | O => (k, [])
  | S pending =>
      let '(buffer, written) := flush (inputBuffer k) k in
      ({| isProcessingFunctionKey := isProcessingFunctionKey k;
          commandInputHandler := commandInputHandler k;
          inputBuffer := buffer;
          ptyProcess := ptyProcess k;
          pendingFlushes := pending |},
       written)
  end.

(** What can happen to the keyboard side of one wrapper: a chunk from
    stdin, a flush timer firing, the awaited [onF9] or [onF10] settling
    (the [finally] of the handler), [setCommandInputHandler], and the
    child's exit. *)
Inductive Event :=
| Typed (str : string)
| TimerFired
| CommandSettled
| HandlerSet (present : bool)
| PtyExited.

Definition step (hasF9 hasF10 : bool) (e : Event) (k : Keyboard)
    : Keyboard * list Effect :=
  match e with
  | Typed str => stdinHandler hasF9 hasF10 str k
  | TimerFired => flushTimer k
  | CommandSettled =>
      ({| isProcessingFunctionKey := false;
          commandInputHandler := commandInputHandler k;
          inputBuffer := inputBuffer k;
          ptyProcess := ptyProcess k;
          pendingFlushes := pendingFlushes k |}, [])
  | HandlerSet present =>
      ({| isProcessingFunctionKey := isProcessingFunctionKey k;
          commandInputHandler := present;
          inputBuffer := inputBuffer k;
          ptyProcess := ptyProcess k;
          pendingFlushes := pendingFlushes k |}, [])
  | PtyExited =>
      ({| isProcessingFunctionKey := isProcessingFunctionKey k;
          commandInputHandler := commandInputHandler k;
          inputBuffer := inputBuffer k;
          ptyProcess := false;
          pendingFlushes := pendingFlushes k |}, [])
  end.

Fixpoint run (hasF9 hasF10 : bool) (events : list Event) (k : Keyboard)
    : Keyboard * list Effect :=
  match events with
  | [] => (k, [])
  | e :: rest =>
      let '(k1, effects) := step hasF9 hasF10 e k in
      let '(k2, later) := run hasF9 hasF10 rest k1 in
      (k2, effects ++ later)
  end.

(** Everything typed, in order. *)
Fixpoint typed (events : list Event) : string :=
  match events with
  | [] => ""
  | Typed str :: rest => (str ++ typed rest)%string
  | _ :: rest => typed rest
  end.

(** Everything written to the child, in order. *)
Fixpoint written (effects : list Effect) : string :=
  match effects with
  | [] => ""
  | PtyWrite data :: rest => (data ++ written rest)%string
  | _ :: rest => written rest
  end.

Definition isFunctionKeyCall (e : Effect) : bool :=
  match e with
  | CallOnF9 | CallOnF10 => true
  | _ => false
  end.

End Stdin.

(* ================================================================== *)
(** ** Scoring in double precision *)
(* ================================================================== *)

(** The scored path of [selectBestAccount] ranks accounts by a sum of
    products, and which account comes first can hang on the last bit of
    that sum.  This module follows the code in binary64, operation by
    operation, and gives every call of [hoursUntil] its own reading of the
    clock. *)
Module Binary64.
Import Floats.SpecFloat PrimFloat.
Local Open Scope float_scope.
Set Warnings "-inexact-float".

Definition number := float.

(** [Math.max(x, y)] and [Math.min(x, y)]: NaN if either is, and of two
    zeros the positive, respectively the negative one. *)
Definition max (x y : number) : number :=
  if is_nan x || is_nan y then nan
  else if x <? y then y
  else if y <? x then x
  else match classify x with
       | FloatClass.NZero => y
       | _ => x
       end.

Definition min (x y : number) : number :=
  if is_nan x || is_nan y then nan
  else if x <? y then x
  else if y <? x then y
  else match classify x with
       | FloatClass.PZero => y
       | _ => x
       end.

(** [APIUsageData] with its numbers as doubles; a [Date] is its
    [getTime()]. *)
Record APIUsageData := {
  accountName : string;
  fiveHourUsed : number;
  fiveHourRemaining : number;
  fiveHourResetsAt : number;
  sevenDayUsed : number;
  sevenDayRemaining : number;
  sevenDayResetsAt : number;
  error : option string
}.

Definition hasError (u : APIUsageData) : bool := JS.truthy (error u).

Record AccountSelection := {
  sel_accountName : string;
  sessionRemaining : number;
  weeklyRemaining : number;
  score : number;
  isRateLimited : bool;
  resetsAt : option number
}.

Record ScoredAccount := {
  usage : APIUsageData;
  baseScore : number;
  adjustedScore : number
}.

Definition WEIGHT_SESSION : number := 0.6.
Definition WEIGHT_WEEKLY : number := 0.4.
Definition PENALTY_ACTIVE_SESSION : number := 15.
Definition PENALTY_LAST_USED : number := 5.
Definition BONUS_PER_HOUR_CLOSER_SESSION_RESET : number := 0.5.
Definition MAX_SESSION_RESET_HOURS_FOR_BONUS : number := 24.
Definition BONUS_PER_DAY_CLOSER_WEEKLY_RESET : number := 2.5.
Definition MAX_WEEKLY_RESET_DAYS_FOR_BONUS : number := 7.

(** [hoursUntil(date)]; [now] is what its own [new Date()] reads. *)
Definition hoursUntil (now : number) (date : number) : number :=
  let diffMs := date - now in
  max 0 (diffMs / (1000 * 60 * 60)).

Definition daysUntil (now : number) (date : number) : number :=
  hoursUntil now date / 24.

Definition calculateBaseScore (usage : APIUsageData) : number :=
  (fiveHourRemaining usage * WEIGHT_SESSION) +
  (sevenDayRemaining usage * WEIGHT_WEEKLY).

Definition calculateSessionResetBonus (now : number) (usage : APIUsageData)
    : number :=
  let hoursToReset := hoursUntil now (fiveHourResetsAt usage) in
  let cappedHours := min hoursToReset MAX_SESSION_RESET_HOURS_FOR_BONUS in
  (MAX_SESSION_RESET_HOURS_FOR_BONUS - cappedHours) * BONUS_PER_HOUR_CLOSER_SESSION_RESET.

Definition calculateWeeklyResetBonus (now : number) (usage : APIUsageData)
    : number :=
  let daysToReset := daysUntil now (sevenDayResetsAt usage) in
  let cappedDays := min daysToReset MAX_WEEKLY_RESET_DAYS_FOR_BONUS in
  (MAX_WEEKLY_RESET_DAYS_FOR_BONUS - cappedDays) * BONUS_PER_DAY_CLOSER_WEEKLY_RESET.

(** [!u.error && u.accountName !== excludeAccount] *)
Definition eligible (excludeAccount : option string) (u : APIUsageData) : bool :=
  negb (hasError u) &&
  match excludeAccount with
  | Some x => negb (accountName u =? x)%string
  | None => true
  end.

(** The callback of [map] in [scoreAccounts]; [nowSession] and [nowWeekly]
    are the clock readings of its two calls of [hoursUntil]. *)
Definition scoreAccount (state : Selector.SelectorState)
    (activeAccounts : list string) (nowSession nowWeekly : number)
    (usage : APIUsageData) : ScoredAccount :=
  let baseScore := calculateBaseScore usage in
  let adjustedScore := baseScore in
  let adjustedScore :=
    if Selector.has activeAccounts (accountName usage)
    then adjustedScore - PENALTY_ACTIVE_SESSION else adjustedScore in
  let adjustedScore :=
    if match Selector.lastUsedAccount state with
       | Some l => (accountName usage =? l)%string
       | None => false
       end
    then adjustedScore - PENALTY_LAST_USED else adjustedScore in
  let sessionResetBonus := calculateSessionResetBonus nowSession usage in
  let adjustedScore := adjustedScore + sessionResetBonus in
  let weeklyResetBonus := calculateWeeklyResetBonus nowWeekly usage in
  let adjustedScore := adjustedScore + weeklyResetBonus in
  {| usage := usage; baseScore := baseScore; adjustedScore := adjustedScore |}.

(** [map] goes through the array in order; [clock k] is the reading of
    the [k]-th [new Date()] of the call, counted from 0, and every
    element takes two. *)
Fixpoint scoreFrom (clock : nat -> number) (k : nat)
    (state : Selector.SelectorState) (activeAccounts : list string)
    (usages : list APIUsageData) : list ScoredAccount :=
  match usages with
  | [] => []
  | usage :: rest =>
      scoreAccount state activeAccounts (clock k) (clock (S k)) usage
      :: scoreFrom clock (S (S k)) state activeAccounts rest
  end.

Definition scoreAccounts (clock : nat -> number) (usages : list APIUsageData)
    (state : Selector.SelectorState) (excludeAccount : option string)
    : list ScoredAccount :=
  let activeAccounts := Selector.getActiveAccounts state in
  scoreFrom clock 0 state activeAccounts (filter (eligible excludeAccount) usages).

(** [l.sort(cmp)] with a comparator into doubles: [cmp a b > 0] puts [a]
    after [b], any other result (NaN included) keeps [a] first. *)
Section Sort.
Context {A : Type} (cmp : A -> A -> number).

Fixpoint insert (x : A) (l : list A) : list A :=
  match l with
  | [] => [x]
  | y :: l' => if 0 <? cmp x y then y :: insert x l' else x :: l
  end.

Definition sort (l : list A) : list A := fold_right insert [] l.
End Sort.

Definition selectBestAccount (clock : nat -> number)
    (isProcessRunning : Z -> bool) (file : Selector.StateFile)
    (usages : list APIUsageData) (excludeAccount : option string)
    : JS.completion (option AccountSelection) :=
  if (List.length usages =? 0)%nat then JS.Returns None else
  let state := Selector.cleanStaleSessions isProcessRunning (Selector.loadState file) in
  let candidates := filter (eligible excludeAccount) usages in
  if (List.length candidates =? 0)%nat then JS.Returns None else
  let available := filter (fun u => 0 <? fiveHourRemaining u) candidates in
  let rateLimited := filter (fun u => fiveHourRemaining u <=? 0) candidates in
  if (List.length available =? 0)%nat then
    let sorted :=
      sort (fun a b => fiveHourResetsAt a - fiveHourResetsAt b) rateLimited in
    match sorted with
    | best :: _ =>
        JS.Returns (Some
          {| sel_accountName := accountName best;
             sessionRemaining := fiveHourRemaining best;
             weeklyRemaining := sevenDayRemaining best;
             score := 0;
             isRateLimited := true;
             resetsAt := Some (fiveHourResetsAt best) |})
    | [] => JS.Throws
    end
  else
    let scored := scoreAccounts clock available state excludeAccount in
    let scored := sort (fun a b => adjustedScore b - adjustedScore a) scored in
    match scored with
    | best :: _ =>
        JS.Returns (Some
          {| sel_accountName := accountName (usage best);
             sessionRemaining := fiveHourRemaining (usage best);
             weeklyRemaining := sevenDayRemaining (usage best);
             score := adjustedScore best;
             isRateLimited := false;
             resetsAt := None |})
    | [] => JS.Throws
    end.

(** *** The order of the doubles *)

(** The value of a double in units of the least positive double,
    2^-1074; an infinity counts as 2^2098, beyond every finite value. *)
Definition rankOf (x : spec_float) : Z :=
  match x with
  | S754_zero _ => 0
  | S754_infinity s => cond_Zopp s (2 ^ 2098)
  | S754_nan => 0
  | S754_finite s m e => cond_Zopp s (Zpos m * 2 ^ (e + 1074))
  end%Z.

Definition rank (x : number) : Z := rankOf (FloatOps.Prim2SF x).

End Binary64.

(* ================================================================== *)
(** ** The scored path as the specification and its amendment word it *)
(* ================================================================== *)

Module Scored.
Import PrimFloat.
Import Binary64.
Local Open Scope float_scope.
Set Warnings "-inexact-float".

(** The candidates of a call, and those with session capacity left. *)
Definition candidatesOf (excludeAccount : option string)
    (usages : list APIUsageData) : list APIUsageData :=
  filter (fun u => negb (JS.truthy (error u)) &&
                   match excludeAccount with
                   | Some x => negb (accountName u =? x)%string
                   | None => true
                   end) usages.

Definition availableOf (excludeAccount : option string)
    (usages : list APIUsageData) : list APIUsageData :=
  filter (fun u => 0 <? fiveHourRemaining u) (candidatesOf excludeAccount usages).

(** The registry a call scores against: the file's entries whose process
    is alive. *)
Definition registryOf (isProcessRunning : Z -> bool) (file : Selector.StateFile)
    : Selector.SelectorState :=
  match file with
  | Some state =>
      {| Selector.lastUsedAccount := Selector.lastUsedAccount state;
         Selector.lastUsedAt := Selector.lastUsedAt state;
         Selector.activeSessions :=
           filter (fun s => isProcessRunning (Selector.pid s))
                  (Selector.activeSessions state) |}
  | None =>
      {| Selector.lastUsedAccount := None;
         Selector.lastUsedAt := None;
         Selector.activeSessions := [] |}
  end.

Definition isActive (state : Selector.SelectorState) (u : APIUsageData) : bool :=
  existsb (fun s => (Selector.account s =? accountName u)%string)
          (Selector.activeSessions state).

Definition isLastUsed (state : Selector.SelectorState) (u : APIUsageData) : bool :=
  match Selector.lastUsedAccount state with
  | Some l => (l =? accountName u)%string
  | None => false
  end.

(** Hours from [now] until [instant], none when it has passed. *)
Definition hoursLeft (now instant : number) : number :=
  if instant <? now then 0 else (instant - now) / 3600000.

(** The final score as the specification defines it, evaluated in doubles
    from left to right: the bonuses are added to the base score, then the
    penalties are subtracted; one instant [now] serves the whole call. *)
Definition finalScore (now : number) (state : Selector.SelectorState)
    (u : APIUsageData) : number :=
  let baseScore := fiveHourRemaining u * 0.6 + sevenDayRemaining u * 0.4 in
  let hours := hoursLeft now (fiveHourResetsAt u) in
  let days := hoursLeft now (sevenDayResetsAt u) / 24 in
  let sessionBonus := (24 - (if hours <? 24 then hours else 24)) * 0.5 in
  let windowBonus := (7 - (if days <? 7 then days else 7)) * 2.5 in
  let activePenalty := if isActive state u then 15 else 0 in
  let lastUsedPenalty := if isLastUsed state u then 5 else 0 in
  baseScore + sessionBonus + windowBonus - activePenalty - lastUsedPenalty.

(** The score the amended claim ranks by: the penalties that apply are
    subtracted from the base score first, then the session bonus and the
    weekly bonus are added, each measured at an instant of its own. *)
Definition computedScore (nowSession nowWeekly : number)
    (state : Selector.SelectorState) (u : APIUsageData) : number :=
  let baseScore := fiveHourRemaining u * 0.6 + sevenDayRemaining u * 0.4 in
  let penalised :=
    match isActive state u, isLastUsed state u with
    | true, true => baseScore - 15 - 5
    | true, false => baseScore - 15
    | false, true => baseScore - 5
    | false, false => baseScore
    end in
  let hours := max 0 ((fiveHourResetsAt u - nowSession) / 3600000) in
  let days := max 0 ((sevenDayResetsAt u - nowWeekly) / 3600000) / 24 in
  penalised + (24 - min hours 24) * 0.5 + (7 - min days 7) * 2.5.

(** The available candidates in snapshot order, each with its computed
    score; the candidate at position [i] has its bonuses measured at the
    readings [2 i] and [2 i + 1] of the clock. *)
Fixpoint rankedFrom (clock : nat -> number) (k : nat)
    (state : Selector.SelectorState) (available : list APIUsageData)
    : list (APIUsageData * number) :=
  match available with
  | [] => []
  | u :: rest =>
      (u, computedScore (clock k) (clock (S k)) state u)
      :: rankedFrom clock (S (S k)) state rest
  end.

Definition ranked (clock : nat -> number) (state : Selector.SelectorState)
    (available : list APIUsageData) : list (APIUsageData * number) :=
  rankedFrom clock 0 state available.

(** The final score of the specification in exact arithmetic. *)
Definition exactScore (sessionRemainingPct windowRemainingPct : Q)
    (hoursToSessionReset daysToWindowReset : Q) (active lastUsed : bool) : Q :=
  (sessionRemainingPct * 0.6 + windowRemainingPct * 0.4
   + (24 - Qmin hoursToSessionReset 24) * 0.5
   + (7 - Qmin daysToWindowReset 7) * 2.5
   - (if active then 15 else 0) - (if lastUsed then 5 else 0))%Q.

End Scored.

(* ================================================================== *)
(** ** Concrete situations on the scored path *)
(* ================================================================== *)

Module NearTies.
Import PrimFloat.
Import Binary64.
Local Open Scope float_scope.

(** The instant every reading of the clock gives. *)
Definition instant : number := 1700000000000.

Definition steady (k : nat) : number := instant.

(** A snapshot free of error whose windows reset [session] and [weekly]
    milliseconds after [instant]. *)
Definition snapshot (name : string) (sessionLeft weeklyLeft : number)
    (session weekly : number) : APIUsageData :=
  {| accountName := name;
     fiveHourUsed := 100 - sessionLeft;
     fiveHourRemaining := sessionLeft;
     fiveHourResetsAt := instant + session;
     sevenDayUsed := 100 - weeklyLeft;
     sevenDayRemaining := weeklyLeft;
     sevenDayResetsAt := instant + weekly;
     error := None |}.

(** [x] has 44 % of its session and 2 % of its week left, [y] 4 % and
    12 %; both reset in 7 hours and in 7 days. *)
Definition x : APIUsageData := snapshot "x" 44 2 25200000 604800000.
Definition y : APIUsageData := snapshot "y" 4 12 25200000 604800000.

(** A live session runs on [x], and [x] is the account used last. *)
Definition registryX : Selector.StateFile :=
  Some {| Selector.lastUsedAccount := Some "x"%string;
          Selector.lastUsedAt := Some "2023-11-14T22:00:00.000Z"%string;
          Selector.activeSessions :=
            [{| Selector.account := "x";
                Selector.pid := 4242;
                Selector.startedAt := "2023-11-14T22:00:00.000Z" |}] |}.

(** [u] has 3 % and 0 % left, [v] 1 % and 3 %; both reset in 24 hours
    and in 7 days, so that neither earns a bonus. *)
Definition u : APIUsageData := snapshot "u" 3 0 86400000 604800000.
Definition v : APIUsageData := snapshot "v" 1 3 86400000 604800000.

(** What [getAPIUsage] resolves to for an account whose fetch failed at
    [instant] with [message]. *)
Definition failed (name message : string) : APIUsageData :=
  {| accountName := name;
     fiveHourUsed := 0;
     fiveHourRemaining := 100;
     fiveHourResetsAt := instant;
     sevenDayUsed := 0;
     sevenDayRemaining := 100;
     sevenDayResetsAt := instant;
     error := Some message |}.

End NearTies.

(* ================================================================== *)
(** ** The entry point: [main] *)
(* ================================================================== *)

Module Main.

(** [Config]; [accounts] lists the own keys of the object with their
    paths. *)
Record Config := {
  accounts : list (string * string);
  masterFolder : string;
  syncOnStart : bool
}.

(** What a property read finds on a plain object that has no own key of
    that name: the members of [Object.prototype]. *)
Definition objectPrototypeKeys : list string :=
  ["constructor"; "hasOwnProperty"; "isPrototypeOf"; "propertyIsEnumerable";
   "toLocaleString"; "toString"; "valueOf"; "__defineGetter__";
   "__defineSetter__"; "__lookupGetter__"; "__lookupSetter__";
   "__proto__"]%string.

Inductive Property :=
| Path (path : string)
| Inherited.

(** [config.accounts[name]]: [loadConfig] builds [accounts] as a plain
    object, so the read finds an own key's path or else what the object
    inherits. *)
Definition lookupAccount (config : Config) (name : string) : option Property :=
  match find (fun entry => (fst entry =? name)%string) (accounts config) with
  | Some entry => Some (Path (snd entry))
  | None =>
      if existsb (String.eqb name) objectPrototypeKeys then Some Inherited
      else None
  end.

(** The value used as a condition: a function or an object is truthy, a
    string unless it is empty. *)
Definition found (property : option Property) : bool :=
  match property with
  | Some (Path path) => negb (path =? "")%string
  | Some Inherited => true
  | None => false
  end.

(** [validateConfig(config)], its result; [pathExists] is
    [fs.existsSync]. *)
Definition validateConfig (pathExists : string -> bool) (config : Config) : bool :=
  if (List.length (accounts config) =? 0)%nat then false
  else forallb (fun entry => pathExists (snd entry)) (accounts config).

(** What [main] finds around it. *)
Record Surroundings := {
  configExists : bool;
  (** did the setup wizard return a result? *)
  setupCompleted : bool;
  (** [loadConfig()] *)
  loadConfig : JS.completion Config;
  pathExists : string -> bool;
  (** did [addAccount] succeed? *)
  accountAdded : bool;
  (** what [getAllAPIUsage(config.accounts)] resolves to *)
  fetchedUsage : list Binary64.APIUsageData;
  stateFile : Selector.StateFile;
  isProcessRunning : Z -> bool;
  (** the readings of the clock during [selectBestAccount] *)
  clock : nat -> Binary64.number
}.

(** The calls [main] makes, in order, console output and plain queries
    left out.  What a call does inside is its own: [AddAccount] and
    [HandleMcpCommand] run claude themselves, [GetAllAPIUsage] goes to the
    keychain and the network, [ValidateConfig] may recreate the master
    folder. *)
Inductive Call :=
| ShowHelp
| RunSetupWizard
| SaveSetupConfig
| LoadConfig
| AddAccount (name : string)
| ValidateConfig
| HandleMcpCommand (mcpArgs : list string)
| ListConversations
| GetAllAPIUsage
| DisplayAPIUsage (usages : list Binary64.APIUsageData)
| GetScoreBreakdown (usages : list Binary64.APIUsageData)
| RunSync
| LaunchClaudeWithPty (account : string) (claudeArgs : list string)
    (usageData : list Binary64.APIUsageData)
| LaunchClaudeFallback (account : string) (claudeArgs : list string)
| ProcessExit (code : Z).

(** The end of [main], from the check that the account exists on. *)
Definition launch (args : Cli.CliArgs) (config : Config)
    (accountToUse : string) (usageData : list Binary64.APIUsageData)
    : list Call :=
  if negb (found (lookupAccount config accountToUse)) then [ProcessExit 1]
  else
    let synced := if syncOnStart config then [RunSync] else [] in
    let autoSwitch :=
      negb (Cli.noAutoSwitch args) && (0 <? List.length usageData)%nat in
    if autoSwitch
    then synced ++ [LaunchClaudeWithPty accountToUse (Cli.claudeArgs args) usageData]
    else synced ++ [LaunchClaudeFallback accountToUse (Cli.claudeArgs args)].

(** The part of [main] from "Determine account to use" on. *)
Definition startSession (args : Cli.CliArgs) (config : Config)
    (env : Surroundings) : list Call :=
  if negb (JS.truthy (Cli.account args)) then
    let usageData := fetchedUsage env in
    GetAllAPIUsage ::
    match Binary64.selectBestAccount (clock env) (isProcessRunning env)
                                     (stateFile env) usageData None with
    | JS.Throws => [ProcessExit 1]
    | JS.Returns None => [ProcessExit 1]
    | JS.Returns (Some selection) =>
        launch args config (Binary64.sel_accountName selection) usageData
    end
  else
    match Cli.account args with
    | Some accountToUse =>
        if negb (Cli.noAutoSwitch args)
        then GetAllAPIUsage :: launch args config accountToUse (fetchedUsage env)
        else launch args config accountToUse []
    | None => [ProcessExit 1]
    end.

Definition main (args : Cli.CliArgs) (env : Surroundings) : list Call :=
  if Cli.help args then [ShowHelp]
  else if negb (configExists env) then
    if negb (setupCompleted env) then [RunSetupWizard; ProcessExit 0]
    else [RunSetupWizard; SaveSetupConfig]
  else
    match loadConfig env with
    | JS.Throws => [LoadConfig; ProcessExit 1]
    | JS.Returns config =>
        LoadConfig ::
        match (if JS.truthy (Cli.addAccount args) then Cli.addAccount args else None) with
        | Some name =>
            [AddAccount name; ProcessExit (if accountAdded env then 0 else 1)]
        | None =>
            ValidateConfig ::
            if negb (validateConfig (pathExists env) config) then [ProcessExit 1]
            else match Cli.mcpArgs args with
            | Some mcpArgs => [HandleMcpCommand mcpArgs]
            | None =>
                if Cli.list args then [ListConversations]
                else if Cli.usage args then
                  [GetAllAPIUsage; DisplayAPIUsage (fetchedUsage env)]
                else if Cli.score args then
                  [GetAllAPIUsage; GetScoreBreakdown (fetchedUsage env)]
                else if Cli.sync args then [RunSync]
                else startSession args config env
            end
        end
    end.

(** The account and the arguments of a call of [launchClaudeWithPty] or
    [launchClaudeFallback], and the usage list handed to the former. *)
Definition launchOf (c : Call)
    : option (string * list string * option (list Binary64.APIUsageData)) :=
  match c with
  | LaunchClaudeWithPty account claudeArgs usageData =>
      Some (account, claudeArgs, Some usageData)
  | LaunchClaudeFallback account claudeArgs => Some (account, claudeArgs, None)
  | _ => None
  end.

End Main.

(* ================================================================== *)
(** ** Facts about lists *)
(* ================================================================== *)

Module ListFacts.

Lemma length_zero {A} (l : list A) : (List.length l =? 0)%nat = true <-> l = [].
Proof.
  destruct l; simpl; split; intro H; try reflexivity; discriminate.
Qed.

Lemma length_nonzero {A} (l : list A) : l <> [] -> (List.length l =? 0)%nat = false.
Proof.
  destruct l; simpl; [congruence | reflexivity].
Qed.

Lemma filter_nonempty_source {A} (f : A -> bool) (l : list A) :
  filter f l <> [] -> l <> [].
Proof.
  intros H ->. apply H. reflexivity.
Qed.

Lemma filter_all {A} (f : A -> bool) (l : list A) :
  (forall x, In x l -> f x = true) -> filter f l = l.
Proof.
  induction l as [|x l IH]; intro H; simpl; [reflexivity|].
  rewrite (H x (or_introl eq_refl)). f_equal. apply IH.
  intros y Hy. apply H. right. exact Hy.
Qed.

Lemma filter_none {A} (f : A -> bool) (l : list A) :
  (forall x, In x l -> f x = false) -> filter f l = [].
Proof.
  induction l as [|x l IH]; intro H; simpl; [reflexivity|].
  rewrite (H x (or_introl eq_refl)). apply IH.
  intros y Hy. apply H. right. exact Hy.
Qed.

Lemma filter_filter {A} (f g : A -> bool) (l : list A) :
  filter f (filter g l) = filter (fun x => g x && f x) l.
Proof.
  induction l as [|x l IH]; simpl; [reflexivity|].
  destruct (g x); simpl; [destruct (f x)|]; rewrite ?IH; reflexivity.
Qed.

Lemma filter_same {A} (f g : A -> bool) (l : list A) :
  (forall x, f x = g x) -> filter f l = filter g l.
Proof.
  intro H. induction l as [|x l IH]; simpl; [reflexivity|].
  rewrite H, IH. reflexivity.
Qed.

Lemma forallb_map_ext {A B} (f : B -> bool) (g : A -> B) (h : A -> bool)
    (l : list A) :
  (forall x, f (g x) = h x) -> forallb f (map g l) = forallb h l.
Proof.
  intro H. induction l as [|x l IH]; simpl; [reflexivity|].
  rewrite H, IH. reflexivity.
Qed.

End ListFacts.

(* ================================================================== *)
(** ** Facts about the JavaScript primitives *)
(* ================================================================== *)

Module JSFacts.
Import JS.

Lemma ltb_lt (x y : number) : ltb x y = true <-> x < y.
Proof.
  unfold ltb. rewrite negb_true_iff.
  split; intro H.
  - apply Qnot_le_lt. intro Hle. apply Qle_bool_iff in Hle. congruence.
  - destruct (Qle_bool y x) eqn:E; [|reflexivity].
    apply Qle_bool_iff in E. exfalso. exact (Qlt_not_le _ _ H E).
Qed.

Lemma ltb_ge (x y : number) : ltb x y = false <-> y <= x.
Proof.
  unfold ltb. rewrite negb_false_iff. apply Qle_bool_iff.
Qed.

Lemma leb_le (x y : number) : leb x y = true <-> x <= y.
Proof. apply Qle_bool_iff. Qed.

Lemma leb_gt (x y : number) : leb x y = false <-> y < x.
Proof.
  unfold leb. split; intro H.
  - apply Qnot_le_lt. intro Hle. apply Qle_bool_iff in Hle. congruence.
  - destruct (Qle_bool x y) eqn:E; [|reflexivity].
    apply Qle_bool_iff in E. exfalso. exact (Qlt_not_le _ _ H E).
Qed.

(** *** [sort] returns the stably sorted permutation *)

Section SortFacts.
Context {A : Type} (cmp : A -> A -> number) (key : A -> number).

(** The comparator orders by [key], ascending. *)
Hypothesis cmp_key : forall a b, 0 < cmp a b <-> key b < key a.

Lemma insert_perm (x : A) (l : list A) : Permutation (insert cmp x l) (x :: l).
Proof.
  induction l as [|y l IH]; simpl.
  - apply Permutation_refl.
  - destruct (ltb 0 (cmp x y)).
    + eapply perm_trans; [apply perm_skip, IH | apply perm_swap].
    + apply Permutation_refl.
Qed.

Lemma sort_perm (l : list A) : Permutation (sort cmp l) l.
Proof.
  induction l as [|x l IH]; simpl.
  - apply perm_nil.
  - eapply perm_trans; [apply insert_perm | apply perm_skip, IH].
Qed.

Lemma insert_sorted (x : A) (l : list A) :
  StronglySorted (fun a b => key a <= key b) l ->
  StronglySorted (fun a b => key a <= key b) (insert cmp x l).
Proof.
  induction 1 as [|y l Hs IH Hy]; simpl.
  - constructor; [constructor | constructor].
  - destruct (ltb 0 (cmp x y)) eqn:E.
    + apply ltb_lt, cmp_key in E.
      constructor; [exact IH|].
      apply Forall_forall. intros z Hz.
      apply (Permutation_in _ (insert_perm x l)) in Hz.
      destruct Hz as [<-|Hz]; [apply Qlt_le_weak, E|].
      rewrite Forall_forall in Hy. auto.
    + apply ltb_ge in E.
      assert (Hxy : key x <= key y).
      { apply Qnot_lt_le. intro Hlt. apply cmp_key in Hlt.
        exact (Qlt_not_le _ _ Hlt E). }
      constructor; [constructor; assumption|].
      constructor; [exact Hxy|].
      rewrite Forall_forall in Hy |- *. intros z Hz.
      eapply Qle_trans; [exact Hxy | auto].
Qed.

Lemma sort_sorted (l : list A) :
  StronglySorted (fun a b => key a <= key b) (sort cmp l).
Proof.
  induction l as [|x l IH]; simpl; [constructor | apply insert_sorted, IH].
Qed.

(** The first element of the sorted array is the first element of least
    key of the original one. *)
Lemma sort_head (l : list A) (h : A) (t : list A) :
  sort cmp l = h :: t ->
  exists pre post,
    l = pre ++ h :: post /\
    (forall c, In c pre -> key h < key c) /\
    (forall c, In c post -> key h <= key c).
Proof.
  revert h t. induction l as [|x l IH]; intros h t Hs; [discriminate|].
  simpl in Hs. destruct (sort cmp l) as [|h' t'] eqn:Hl.
  - simpl in Hs. injection Hs as <- <-.
    assert (l = []) as ->.
    { apply Permutation_nil. rewrite <- Hl. apply sort_perm. }
    exists [], []. repeat split; intros c [].
  - destruct (IH h' t' eq_refl) as (pre & post & -> & Hpre & Hpost).
    simpl in Hs. destruct (ltb 0 (cmp x h')) eqn:E.
    + injection Hs as <- <-. apply ltb_lt, cmp_key in E.
      exists (x :: pre), post. repeat split; auto.
      intros c [<-|Hc]; auto.
    + injection Hs as <- <-. apply ltb_ge in E.
      assert (Hxh : key x <= key h').
      { apply Qnot_lt_le. intro Hlt. apply cmp_key in Hlt.
        exact (Qlt_not_le _ _ Hlt E). }
      exists [], (pre ++ h' :: post). repeat split; [intros c []|].
      intros c Hc. apply in_app_or in Hc.
      destruct Hc as [Hc|[<-|Hc]].
      * apply Qlt_le_weak. eapply Qle_lt_trans; [exact Hxh | auto].
      * exact Hxh.
      * eapply Qle_trans; [exact Hxh | auto].
Qed.

(** Elements of equal key keep their relative order: the sort is stable.
    Sorted, a permutation and stable, the result is the one array
    ECMAScript allows. *)
Lemma insert_stable (x : A) (l : list A) (k : number) :
  filter (fun a => Qeq_bool (key a) k) (insert cmp x l)
  = filter (fun a => Qeq_bool (key a) k) (x :: l).
Proof.
  induction l as [|y l IH]; [reflexivity|].
  cbn [insert]. destruct (ltb 0 (cmp x y)) eqn:E; [|reflexivity].
  apply ltb_lt, cmp_key in E.
  cbn [filter] in *. rewrite IH.
  destruct (Qeq_bool (key y) k) eqn:Ey; [|reflexivity].
  destruct (Qeq_bool (key x) k) eqn:Ex; [|reflexivity].
  apply Qeq_bool_iff in Ey, Ex. exfalso.
  rewrite Ey, Ex in E. exact (Qlt_irrefl _ E).
Qed.

Lemma sort_stable (l : list A) (k : number) :
  filter (fun a => Qeq_bool (key a) k) (sort cmp l)
  = filter (fun a => Qeq_bool (key a) k) l.
Proof.
  induction l as [|x l IH]; [reflexivity|].
  cbn [sort fold_right]. fold (sort cmp l).
  rewrite insert_stable. cbn [filter]. rewrite IH. reflexivity.
Qed.

Lemma sort_nonempty (l : list A) : l <> [] -> sort cmp l <> [].
Proof.
  intros Hl Hs. apply Hl. apply Permutation_nil.
  rewrite <- Hs. apply sort_perm.
Qed.

End SortFacts.

(** *** Strings *)

Local Open Scope string_scope.

Lemma append_length (a b : string) :
  String.length (a ++ b) = (String.length a + String.length b)%nat.
Proof.
  induction a as [|c a IH]; simpl; [reflexivity | rewrite IH; reflexivity].
Qed.

Lemma append_assoc (a b c : string) : (a ++ b) ++ c = a ++ (b ++ c).
Proof.
  induction a as [|x a IH]; simpl; [reflexivity | rewrite IH; reflexivity].
Qed.

Lemma append_empty (a : string) : a ++ "" = a.
Proof.
  induction a as [|x a IH]; simpl; [reflexivity | rewrite IH; reflexivity].
Qed.

Lemma prefix_spec (t s : string) :
  String.prefix t s = true <-> exists rest, s = t ++ rest.
Proof.
  revert s. induction t as [|c t IH]; intro s.
  - split; [intros _; exists s; reflexivity | destruct s; reflexivity].
  - destruct s as [|d s]; simpl.
    + split; [discriminate | intros (rest & H); discriminate].
    + destruct (Ascii.ascii_dec c d) as [->|Hne].
      * rewrite IH. split; intros (rest & H); exists rest.
        -- rewrite H. reflexivity.
        -- injection H as H. exact H.
      * split; [discriminate|]. intros (rest & H). injection H as H _.
        congruence.
Qed.

(** [includes] is substring containment. *)
Lemma includes_spec (s t : string) :
  JS.includes s t = true <-> exists before after, s = before ++ t ++ after.
Proof.
  induction s as [|c s IH]; cbn [JS.includes].
  - rewrite orb_false_r, prefix_spec. split.
    + intros (rest & H). exists "", rest. exact H.
    + intros (before & after & H).
      destruct before; [exists after; exact H | discriminate].
  - rewrite orb_true_iff, prefix_spec, IH. split.
    + intros [(rest & H)|(before & after & H)].
      * exists "", rest. exact H.
      * exists (String c before), after. simpl. rewrite H. reflexivity.
    + intros (before & after & H). destruct before as [|d before].
      * left. exists after. exact H.
      * right. injection H as _ H. exists before, after. exact H.
Qed.

Lemma drop_length (k : nat) (s : string) :
  String.length (JS.drop k s) = (String.length s - k)%nat.
Proof.
  revert s. induction k as [|k IH]; intro s; simpl.
  - rewrite Nat.sub_0_r. reflexivity.
  - destruct s as [|c s]; simpl; [reflexivity | apply IH].
Qed.

Lemma drop_append (k : nat) (a b : string) :
  (k <= String.length a)%nat -> JS.drop k (a ++ b) = JS.drop k a ++ b.
Proof.
  revert a. induction k as [|k IH]; intros a Hk; simpl; [reflexivity|].
  destruct a as [|c a]; simpl in *; [lia | apply IH; lia].
Qed.

Lemma drop_drop (i j : nat) (s : string) :
  JS.drop j (JS.drop i s) = JS.drop (i + j) s.
Proof.
  revert s. induction i as [|i IH]; intro s; simpl; [reflexivity|].
  destruct s as [|c s]; [destruct j; reflexivity | apply IH].
Qed.

Lemma sliceLast_length (n : nat) (s : string) :
  (String.length (JS.sliceLast n s) <= n)%nat.
Proof.
  unfold JS.sliceLast. rewrite drop_length. lia.
Qed.

(** Trimming after every chunk keeps the same characters as trimming the
    whole output once. *)
Lemma sliceLast_append (n : nat) (a b : string) :
  JS.sliceLast n (JS.sliceLast n a ++ b) = JS.sliceLast n (a ++ b).
Proof.
  unfold JS.sliceLast.
  rewrite <- (drop_append (String.length a - n) a b) by lia.
  rewrite drop_drop, drop_length, append_length.
  f_equal. lia.
Qed.

End JSFacts.

(* ================================================================== *)
(** ** Selection: the scored path, the all-exhausted path, exclusion *)
(* ================================================================== *)

Module SelectorFacts.
Import Api Selector ListFacts.

Section Selection.
Variable now : JS.number.
Variable isProcessRunning : Z -> bool.
Variable file : StateFile.
Variable excludeAccount : option string.

Local Abbreviation candidatesOf := (Spec.candidatesOf excludeAccount).
Local Abbreviation availableOf := (Spec.availableOf excludeAccount).
Local Abbreviation registryOf := (Spec.registryOf isProcessRunning file).


(** The two partitions cover the candidates: a number is positive or it is
    at most zero. *)
Lemma partition_covers (l : list APIUsageData) :
  filter (fun u => JS.ltb 0 (fiveHourRemaining u)) l = [] ->
  filter (fun u => JS.leb (fiveHourRemaining u) 0) l = l.
Proof.
  intro H. apply filter_all. intros u Hu.
  destruct (JS.leb (fiveHourRemaining u) 0) eqn:E; [reflexivity|].
  apply JSFacts.leb_gt, JSFacts.ltb_lt in E.
  assert (Hin : In u (filter (fun u => JS.ltb 0 (fiveHourRemaining u)) l))
    by (apply filter_In; split; assumption).
  rewrite H in Hin. destruct Hin.
Qed.

(** Every scored entry carries the score the specification defines, and
    scoring keeps the candidates and their order. *)
Lemma adjusted_is_final (usages : list APIUsageData) (state : SelectorState)
    (s : ScoredAccount) :
  In s (scoreAccounts now usages state excludeAccount) ->
  adjustedScore s == Spec.finalScore now state (usage s).
Proof.
  unfold scoreAccounts. intro H. apply in_map_iff in H.
  destruct H as (u & <- & _). simpl.
  unfold Spec.finalScore, calculateBaseScore, calculateSessionResetBonus,
    calculateWeeklyResetBonus, daysUntil, WEIGHT_SESSION, WEIGHT_WEEKLY,
    PENALTY_ACTIVE_SESSION, PENALTY_LAST_USED,
    BONUS_PER_HOUR_CLOSER_SESSION_RESET, MAX_SESSION_RESET_HOURS_FOR_BONUS,
    BONUS_PER_DAY_CLOSER_WEEKLY_RESET, MAX_WEEKLY_RESET_DAYS_FOR_BONUS.
  destruct (has (getActiveAccounts state) (accountName u));
    destruct (isLastUsed state u); ring.
Qed.

Lemma scored_usages (usages : list APIUsageData) (state : SelectorState) :
  map usage (scoreAccounts now (availableOf usages) state excludeAccount)
  = availableOf usages.
Proof.
  unfold scoreAccounts. rewrite map_map. simpl. rewrite map_id.
  apply filter_all. intros u Hu.
  unfold availableOf, candidatesOf in Hu.
  apply filter_In in Hu. destruct Hu as [Hu _].
  apply filter_In in Hu. apply Hu.
Qed.

(** How a call proceeds once it has a candidate. *)
Lemma select_with_candidates (usages : list APIUsageData) :
  candidatesOf usages <> [] ->
  selectBestAccount now isProcessRunning file usages excludeAccount =
  if (List.length (availableOf usages) =? 0)%nat then
    match JS.sort (fun a b => fiveHourResetsAt a - fiveHourResetsAt b)
            (filter (fun u => JS.leb (fiveHourRemaining u) 0) (candidatesOf usages))
    with
    | best :: _ =>
        JS.Returns (Some
          {| sel_accountName := accountName best;
             sessionRemaining := fiveHourRemaining best;
             weeklyRemaining := sevenDayRemaining best;
             score := 0;
             isRateLimited := true;
             resetsAt := Some (fiveHourResetsAt best) |})
    | [] => JS.Throws
    end
  else
    match JS.sort (fun a b => adjustedScore b - adjustedScore a)
            (scoreAccounts now (availableOf usages) registryOf excludeAccount)
    with
    | best :: _ =>
        JS.Returns (Some
          {| sel_accountName := accountName (usage best);
             sessionRemaining := fiveHourRemaining (usage best);
             weeklyRemaining := sevenDayRemaining (usage best);
             score := adjustedScore best;
             isRateLimited := false;
             resetsAt := None |})
    | [] => JS.Throws
    end.
Proof.
  intro Hc. unfold selectBestAccount.
  rewrite (length_nonzero _ (filter_nonempty_source _ _ Hc)).
  fold (candidatesOf usages). rewrite (length_nonzero _ Hc).
  reflexivity.
Qed.

Lemma select_without_candidates (usages : list APIUsageData) :
  candidatesOf usages = [] ->
  selectBestAccount now isProcessRunning file usages excludeAccount
  = JS.Returns None.
Proof.
  intro Hc. unfold selectBestAccount.
  destruct (List.length usages =? 0)%nat; [reflexivity|].
  fold (candidatesOf usages). rewrite Hc. reflexivity.
Qed.

Lemma descending_key (a b : ScoredAccount) :
  0 < adjustedScore b - adjustedScore a <-> - adjustedScore b < - adjustedScore a.
Proof. split; intro H; lra. Qed.

Lemma ascending_key (a b : APIUsageData) :
  0 < fiveHourResetsAt a - fiveHourResetsAt b <-> fiveHourResetsAt b < fiveHourResetsAt a.
Proof. split; intro H; lra. Qed.

(** Whenever there is a candidate, the call returns one of them. *)
Lemma select_picks_candidate (usages : list APIUsageData) :
  candidatesOf usages <> [] ->
  exists best sel,
    In best (candidatesOf usages) /\
    selectBestAccount now isProcessRunning file usages excludeAccount
      = JS.Returns (Some sel) /\
    sel_accountName sel = accountName best.
Proof.
  intro Hc. rewrite (select_with_candidates _ Hc).
  destruct (List.length (availableOf usages) =? 0)%nat eqn:El.
  - apply length_zero in El. unfold availableOf in El.
    rewrite (partition_covers _ El).
    destruct (JS.sort _ (candidatesOf usages)) as [|h t] eqn:Hs.
    + exfalso. exact (JSFacts.sort_nonempty _ _ Hc Hs).
    + exists h. eexists. split; [|split; reflexivity].
      assert (Hin : In h (h :: t)) by (left; reflexivity).
      rewrite <- Hs in Hin.
      exact (Permutation_in _ (JSFacts.sort_perm _ _) Hin).
  - set (scored := scoreAccounts now (availableOf usages) registryOf excludeAccount).
    assert (Hn : scored <> []).
    { intro E. assert (Ha : availableOf usages = [])
        by (rewrite <- (scored_usages usages registryOf); fold scored;
            rewrite E; reflexivity).
      rewrite Ha in El. discriminate. }
    destruct (JS.sort _ scored) as [|h t] eqn:Hs.
    + exfalso. exact (JSFacts.sort_nonempty _ _ Hn Hs).
    + exists (usage h). eexists. split; [|split; reflexivity].
      assert (Hin : In h (h :: t)) by (left; reflexivity).
      rewrite <- Hs in Hin.
      apply (Permutation_in _ (JSFacts.sort_perm _ _)) in Hin.
      apply (in_map usage) in Hin. unfold scored in Hin.
      rewrite scored_usages in Hin. unfold availableOf in Hin.
      apply filter_In in Hin. apply Hin.
Qed.

(** C4.  When the candidates (no error, not excluded) are not empty and
    every one of them has no session capacity left, [selectBestAccount]
    returns the candidate whose session resets first, the first in snapshot
    order among equal reset instants, marked rate-limited, with that
    candidate's reset instant as [resetsAt]. *)
Theorem select_exhausted_soonest (usages : list APIUsageData) :
  candidatesOf usages <> [] ->
  (forall u, In u (candidatesOf usages) -> fiveHourRemaining u == 0) ->
  exists pre best post,
    candidatesOf usages = pre ++ best :: post /\
    (forall c, In c pre -> fiveHourResetsAt best < fiveHourResetsAt c) /\
    (forall c, In c post -> fiveHourResetsAt best <= fiveHourResetsAt c) /\
    selectBestAccount now isProcessRunning file usages excludeAccount
      = JS.Returns (Some
          {| sel_accountName := accountName best;
             sessionRemaining := fiveHourRemaining best;
             weeklyRemaining := sevenDayRemaining best;
             score := 0;
             isRateLimited := true;
             resetsAt := Some (fiveHourResetsAt best) |}).
Proof.
  intros Hc Hzero.
  assert (Ha : availableOf usages = []).
  { apply filter_none. intros u Hu. apply JSFacts.ltb_ge.
    rewrite (Hzero u Hu). apply Qle_refl. }
  rewrite (select_with_candidates _ Hc), Ha. simpl List.length. simpl Nat.eqb. cbv iota.
  unfold availableOf in Ha. rewrite (partition_covers _ Ha).
  destruct (JS.sort _ (candidatesOf usages)) as [|h t] eqn:Hs.
  - exfalso. exact (JSFacts.sort_nonempty _ _ Hc Hs).
  - destruct (JSFacts.sort_head _ fiveHourResetsAt ascending_key _ _ _ Hs)
      as (pre & post & Hsplit & Hpre & Hpost).
    exists pre, h, post. repeat split; assumption || reflexivity.
Qed.

(** C5.  A call never returns the excluded account, whichever path produces
    the selection; it returns none exactly when no candidate is left after
    dropping errored snapshots and the excluded account; and it always
    returns. *)
Theorem select_never_excluded (usages : list APIUsageData) :
  let r := selectBestAccount now isProcessRunning file usages excludeAccount in
  (forall sel, r = JS.Returns (Some sel) ->
     excludeAccount <> Some (sel_accountName sel)) /\
  (r = JS.Returns None <-> candidatesOf usages = []) /\
  r <> JS.Throws.
Proof.
  intro r. subst r.
  destruct (candidatesOf usages) as [|c0 cs] eqn:Ec.
  - rewrite (select_without_candidates _ Ec).
    repeat split; intros; congruence.
  - assert (Hc : candidatesOf usages <> []) by (rewrite Ec; discriminate).
    destruct (select_picks_candidate _ Hc) as (best & sel & Hin & -> & Hname).
    repeat split; try congruence; try discriminate.
    intros sel' Heq. injection Heq as <-. rewrite Hname.
    apply filter_In in Hin. destruct Hin as [_ He].
    unfold eligible in He. apply andb_true_iff in He. destruct He as [_ He].
    destruct excludeAccount as [x|]; [|discriminate].
    intro E. injection E as ->.
    rewrite String.eqb_refl in He. discriminate.
Qed.

End Selection.

(** *** The specification's scenarios *)

Import Scenarios.

Lemma hoursUntil_after (now d : JS.number) :
  0 <= d -> hoursUntil now (now + d) == d / 3600000.
Proof.
  intro Hd. unfold hoursUntil.
  assert (E : (now + d - now) / (1000 * 60 * 60) == d / 3600000) by field.
  rewrite E. apply Q.max_r.
  apply Qle_shift_div_l; [reflexivity | lra].
Qed.

(** The score of a scenario snapshot does not depend on the instant the
    scenario is played at, only on the time left to each reset. *)
Lemma snapshot_score (now : JS.number) (state : SelectorState)
    (name : string) (sessionLeft weeklyLeft session weekly : JS.number) :
  0 <= session -> 0 <= weekly ->
  Spec.finalScore now state (snapshot name sessionLeft weeklyLeft now session weekly)
  == sessionLeft * 0.6 + weeklyLeft * 0.4
     + (24 - Qmin (session / 3600000) 24) * 0.5
     + (7 - Qmin (weekly / 3600000 / 24) 7) * 2.5
     - (if has (getActiveAccounts state) name then 15 else 0)
     - (if match lastUsedAccount state with
           | Some l => (name =? l)%string
           | None => false
           end then 5 else 0).
Proof.
  intros Hs Hw. unfold Spec.finalScore, isLastUsed, snapshot. simpl.
  rewrite !hoursUntil_after by assumption. reflexivity.
Qed.

Lemma registryB_cleaned (isProcessRunning : Z -> bool) (owner : Z) (since : string) :
  isProcessRunning owner = true ->
  Spec.registryOf isProcessRunning (registryB owner since)
  = {| lastUsedAccount := Some "p"%string;
       lastUsedAt := Some since;
       activeSessions := [{| account := "p"; pid := owner; startedAt := since |}] |}.
Proof.
  intro Hrun. unfold Spec.registryOf, cleanStaleSessions, registryB. simpl.
  rewrite Hrun. reflexivity.
Qed.

(** C6.  Scenario B: [p] (88 % / 79 %, resets in 3 h 20 min and 6 d 12 h)
    has a live session in the registry and is the account used last; [q]
    (61 % / 57 %, resets in 3 h 20 min and 3 d 13 h) has neither.  [p]
    loses 20 points to its two penalties, which puts its final score
    (75.98, quoted as 76.1) below [q]'s (78.38, quoted as 78.5), and
    [selectBestAccount] picks [q], not rate-limited. *)
Theorem scenario_B_selects_q (now : JS.number) (isProcessRunning : Z -> bool)
    (owner : Z) (since : string) :
  isProcessRunning owner = true ->
  let registry := Spec.registryOf isProcessRunning (registryB owner since) in
  has (getActiveAccounts registry) "p" = true /\
  isLastUsed registry (p now) = true /\
  has (getActiveAccounts registry) "q" = false /\
  isLastUsed registry (q now) = false /\
  Spec.finalScore now registry (p now)
    == Spec.finalScore now defaultState (p now) - 20 /\
  Spec.finalScore now registry (p now) == 4559 # 60 /\
  Spec.finalScore now registry (q now) == 18811 # 240 /\
  76.1 - 0.15 < Spec.finalScore now registry (p now) < 76.1 + 0.15 /\
  78.5 - 0.15 < Spec.finalScore now registry (q now) < 78.5 + 0.15 /\
  Spec.finalScore now registry (p now) < Spec.finalScore now registry (q now) /\
  exists sel,
    selectBestAccount now isProcessRunning (registryB owner since)
                      [p now; q now] None = JS.Returns (Some sel) /\
    sel_accountName sel = "q"%string /\
    sessionRemaining sel = 61 /\
    weeklyRemaining sel = 57 /\
    score sel == 18811 # 240 /\
    isRateLimited sel = false.
Proof.
  intros Hrun registry.
  assert (Hreg : registry = _) by exact (registryB_cleaned _ _ since Hrun).
  assert (Hp : Spec.finalScore now registry (p now) == 4559 # 60).
  { unfold p. rewrite snapshot_score by (vm_compute; discriminate).
    rewrite Hreg. vm_compute. reflexivity. }
  assert (Hq : Spec.finalScore now registry (q now) == 18811 # 240).
  { unfold q. rewrite snapshot_score by (vm_compute; discriminate).
    rewrite Hreg. vm_compute. reflexivity. }
  assert (Hp0 : Spec.finalScore now defaultState (p now) == 5759 # 60).
  { unfold p. rewrite snapshot_score by (vm_compute; discriminate).
    vm_compute. reflexivity. }
  split; [rewrite Hreg; reflexivity|].
  split; [rewrite Hreg; reflexivity|].
  split; [rewrite Hreg; reflexivity|].
  split; [rewrite Hreg; reflexivity|].
  split; [rewrite Hp, Hp0; reflexivity|].
  split; [exact Hp|]. split; [exact Hq|].
  split; [rewrite Hp; split; reflexivity|].
  split; [rewrite Hq; split; reflexivity|].
  split; [rewrite Hp, Hq; reflexivity|].
  rewrite (select_with_candidates now isProcessRunning (registryB owner since)
             None [p now; q now]) by discriminate.
  change (Spec.availableOf None [p now; q now]) with [p now; q now].
  cbv beta iota delta [List.length Nat.eqb].
  fold registry.
  set (scored := scoreAccounts now [p now; q now] registry None).
  assert (Hsc : exists sp sq,
            scored = [sp; sq] /\ usage sp = p now /\ usage sq = q now).
  { unfold scored, scoreAccounts. simpl. do 2 eexists.
    split; [reflexivity | split; reflexivity]. }
  destruct Hsc as (sp & sq & Hsc & Hup & Huq).
  assert (Hsp : adjustedScore sp == Spec.finalScore now registry (usage sp)).
  { apply (adjusted_is_final now None [p now; q now] registry).
    fold scored. rewrite Hsc. left. reflexivity. }
  assert (Hsq : adjustedScore sq == Spec.finalScore now registry (usage sq)).
  { apply (adjusted_is_final now None [p now; q now] registry).
    fold scored. rewrite Hsc. right. left. reflexivity. }
  rewrite Hup in Hsp. rewrite Huq in Hsq.
  assert (Hlt : JS.ltb 0 (adjustedScore sq - adjustedScore sp) = true).
  { apply JSFacts.ltb_lt. rewrite Hsp, Hsq, Hp, Hq. reflexivity. }
  rewrite Hsc. unfold JS.sort. simpl fold_right. unfold JS.insert. rewrite Hlt.
  eexists. split; [reflexivity|]. simpl. rewrite Huq.
  repeat split; try reflexivity. rewrite Hsq. exact Hq.
Qed.

Lemma scenario_B_selects_q_witness :
  exists sel,
    selectBestAccount 0 (fun _ => true) (registryB 4242 "2024-01-30T10:30:00Z")
                      [p 0; q 0] None = JS.Returns (Some sel) /\
    sel_accountName sel = "q"%string /\
    sessionRemaining sel = 61 /\
    weeklyRemaining sel = 57 /\
    score sel == 18811 # 240 /\
    isRateLimited sel = false.
Proof.
  apply (scenario_B_selects_q 0 (fun _ => true) 4242 "2024-01-30T10:30:00Z").
  reflexivity.
Defined.

(** Scenario A, for comparison: with no penalty in play [p] wins,
    with final score 95.98. *)
Example scenario_A_selects_p :
  exists sel,
    selectBestAccount 0 (fun _ => true) None [p 0; q 0] None
      = JS.Returns (Some sel) /\
    sel_accountName sel = "p"%string /\
    score sel == 5759 # 60 /\
    isRateLimited sel = false.
Proof.
  eexists. split; [vm_compute; reflexivity|].
  repeat split; reflexivity.
Qed.

(** Scenario C: of three exhausted accounts the one resetting in 30
    minutes is returned, marked rate-limited. *)
Example scenario_C_selects_soonest :
  selectBestAccount 0 (fun _ => true) None (exhaustedThree 0) None
  = JS.Returns (Some
      {| sel_accountName := "c";
         sessionRemaining := 0;
         weeklyRemaining := 60;
         score := 0;
         isRateLimited := true;
         resetsAt := Some (0 + minutes 30) |}).
Proof. reflexivity. Qed.

Lemma select_exhausted_soonest_witness :
  exists pre best post,
    Spec.candidatesOf None (exhaustedThree 0) = pre ++ best :: post /\
    (forall c, In c pre -> fiveHourResetsAt best < fiveHourResetsAt c) /\
    (forall c, In c post -> fiveHourResetsAt best <= fiveHourResetsAt c) /\
    selectBestAccount 0 (fun _ => true) None (exhaustedThree 0) None
      = JS.Returns (Some
          {| sel_accountName := accountName best;
             sessionRemaining := fiveHourRemaining best;
             weeklyRemaining := sevenDayRemaining best;
             score := 0;
             isRateLimited := true;
             resetsAt := Some (fiveHourResetsAt best) |}).
Proof.
  apply (select_exhausted_soonest 0 (fun _ => true) None None (exhaustedThree 0)).
  - discriminate.
  - intros u Hu. simpl in Hu.
    destruct Hu as [<-|[<-|[<-|[]]]]; reflexivity.
Defined.

End SelectorFacts.

(* ================================================================== *)
(** ** The session registry *)
(* ================================================================== *)

Module RegistryFacts.
Import Api Selector ListFacts.


(** C9.  Registering and then unregistering from the same process, with
    both writes reaching the file, leaves as persisted [activeSessions]
    the entries it had before registration, in their order, minus those
    pruned on the way: the stale ones (process not alive) and any recorded
    under the caller's own process id. *)
Theorem register_unregister_roundtrip (isProcessRunning : Z -> bool)
    (self : Z) (startIso usedIso accountName : string) (file : StateFile) :
  activeSessions
    (loadState
       (unregisterSession true self
          (registerSession isProcessRunning true self startIso usedIso
                           accountName file)))
  = filter (Spec.survives isProcessRunning self) (activeSessions (loadState file)).
Proof.
  unfold unregisterSession, registerSession, saveState, cleanStaleSessions.
  simpl. rewrite filter_app. simpl. rewrite Z.eqb_refl. simpl.
  rewrite app_nil_r, !filter_filter.
  apply filter_same. intro s. unfold Spec.survives.
  destruct (isProcessRunning (pid s)), (pid s =? self)%Z; reflexivity.
Qed.

(** C10.  [unregisterSession] rewrites the file with [lastUsedAccount] and
    [lastUsedAt] as loaded and with exactly the loaded entries whose
    process id differs from the caller's, in their order; liveness of the
    recorded processes is never consulted, so entries of dead processes
    stay.  When the write fails the file is as it was. *)
Theorem unregister_frame (self : Z) (file : StateFile) :
  unregisterSession true self file
  = Some {| lastUsedAccount := lastUsedAccount (loadState file);
            lastUsedAt := lastUsedAt (loadState file);
            activeSessions :=
              filter (fun s => negb (pid s =? self)%Z)
                     (activeSessions (loadState file)) |} /\
  (forall s, In s (activeSessions (loadState (unregisterSession true self file)))
             <-> In s (activeSessions (loadState file)) /\ pid s <> self) /\
  unregisterSession false self file = file.
Proof.
  split; [reflexivity|]. split; [|reflexivity].
  intro s. unfold unregisterSession, saveState. simpl.
  rewrite filter_In, negb_true_iff, Z.eqb_neq. reflexivity.
Qed.

(** X1.  Cleaning stale sessions twice, with no process exiting in
    between, gives the same state as cleaning once. *)
Theorem clean_stale_idempotent (isProcessRunning : Z -> bool)
    (state : SelectorState) :
  cleanStaleSessions isProcessRunning (cleanStaleSessions isProcessRunning state)
  = cleanStaleSessions isProcessRunning state.
Proof.
  unfold cleanStaleSessions. simpl. f_equal.
  rewrite filter_filter. apply filter_same.
  intro s. destruct (isProcessRunning (pid s)); reflexivity.
Qed.

(** X2.  Cleaning removes exactly the entries whose process is not alive
    and touches neither the other entries nor the last-used fields. *)
Theorem clean_stale_removes_dead_only (isProcessRunning : Z -> bool)
    (state : SelectorState) :
  (forall s, In s (activeSessions (cleanStaleSessions isProcessRunning state))
             <-> In s (activeSessions state) /\ isProcessRunning (pid s) = true) /\
  lastUsedAccount (cleanStaleSessions isProcessRunning state)
    = lastUsedAccount state /\
  lastUsedAt (cleanStaleSessions isProcessRunning state) = lastUsedAt state.
Proof.
  split; [|split; reflexivity].
  intro s. unfold cleanStaleSessions. simpl. apply filter_In.
Qed.

(** X3.  After a registration that reaches the file, the calling process
    owns exactly one entry, the last one, recorded for the account it
    registered, and that account is the one used last. *)
Theorem register_single_entry (isProcessRunning : Z -> bool) (self : Z)
    (startIso usedIso accountName : string) (file : StateFile) :
  let saved :=
    loadState (registerSession isProcessRunning true self startIso usedIso
                               accountName file) in
  filter (fun s => (pid s =? self)%Z) (activeSessions saved)
    = [{| account := accountName; pid := self; startedAt := startIso |}] /\
  lastUsedAccount saved = Some accountName /\
  lastUsedAt saved = Some usedIso.
Proof.
  intro saved. subst saved. unfold registerSession, saveState. simpl.
  split; [|split; reflexivity].
  rewrite filter_app. simpl. rewrite Z.eqb_refl.
  rewrite !filter_filter.
  rewrite (filter_none _ (activeSessions (loadState file))); [reflexivity|].
  intros s _. destruct (isProcessRunning (pid s)), (pid s =? self)%Z; reflexivity.
Qed.

End RegistryFacts.


(* ================================================================== *)
(** ** The usage cache *)
(* ================================================================== *)

Module CacheFacts.
Import Api Scenarios.

Lemma stale_none (now : JS.number) (data : list APIUsageData) :
  hasStaleResetTime now data = false <->
  forall u, In u data -> hasError u = false -> now <= fiveHourResetsAt u.
Proof.
  unfold hasStaleResetTime. split.
  - intros H u Hu He.
    destruct (JS.ltb (fiveHourResetsAt u) now) eqn:E.
    + assert (Hex : existsb (fun u => negb (hasError u) &&
                             JS.ltb (fiveHourResetsAt u) now) data = true).
      { apply existsb_exists. exists u. rewrite He, E. split; [exact Hu|reflexivity]. }
      congruence.
    + apply JSFacts.ltb_ge, E.
  - intro H. destruct (existsb _ data) eqn:E; [|reflexivity].
    apply existsb_exists in E. destruct E as (u & Hu & E).
    apply andb_true_iff in E. destruct E as [He Hlt].
    apply negb_true_iff in He. apply JSFacts.ltb_lt in Hlt.
    exfalso. exact (Qlt_not_le _ _ Hlt (H u Hu He)).
Qed.

(** C7, as the code has it.  [getAllAPIUsage] answers from the cache
    exactly when there is a cached list, it is younger than 30 seconds, and
    no snapshot free of error in it has its session (five-hour) reset
    instant behind [now]; it then returns the cached list and leaves the
    cache alone.  Otherwise it fetches, returns the fresh list and caches
    it with [now] as fetch time.  The weekly reset instant plays no part. *)
Theorem cache_served_iff (now : JS.number) (fresh : list APIUsageData)
    (cache : Cache) :
  let r := getAllAPIUsage now fresh cache in
  (refetched r = false <->
     exists data,
       cachedUsageData cache = Some data /\
       (now - lastFetchTime cache) / 1000 < USAGE_CACHE_SECONDS /\
       forall u, In u data -> hasError u = false -> now <= fiveHourResetsAt u) /\
  (refetched r = false ->
     cachedUsageData cache = Some (results r) /\ cacheAfter r = cache) /\
  (refetched r = true ->
     results r = fresh /\
     cacheAfter r = {| cachedUsageData := Some fresh; lastFetchTime := now |}).
Proof.
  intro r. subst r. unfold getAllAPIUsage.
  destruct (cachedUsageData cache) as [data|] eqn:Ec.
  - destruct (JS.ltb ((now - lastFetchTime cache) / 1000) USAGE_CACHE_SECONDS) eqn:Ea.
    + destruct (hasStaleResetTime now data) eqn:Es; simpl.
      * repeat split; try discriminate; try reflexivity.
        intros (d & Hd & _ & Hall). injection Hd as <-.
        apply stale_none in Hall. congruence.
      * repeat split; try discriminate; try reflexivity.
        intros _. exists data. repeat split.
        -- apply JSFacts.ltb_lt, Ea.
        -- apply stale_none, Es.
    + simpl. repeat split; try discriminate; try reflexivity.
      intros (d & _ & Hage & _). apply JSFacts.ltb_lt in Hage. congruence.
  - simpl. repeat split; try discriminate; try reflexivity.
    intros (d & Hd & _). discriminate.
Qed.

(** C7, as the claim has it, fails: a cached snapshot whose weekly reset
    instant has passed is still served from the cache. *)
Lemma weekly_reset_passed_still_cached :
  let now := 1706610600000 in
  let r := getAllAPIUsage now [] (recentCache now) in
  cachedUsageData (recentCache now) = Some [weeklyStale now] /\
  hasError (weeklyStale now) = false /\
  sevenDayResetsAt (weeklyStale now) < now /\
  existsb (Spec.someResetPassed now) [weeklyStale now] = true /\
  refetched r = false /\
  results r = [weeklyStale now].
Proof.
  repeat split.
Qed.

End CacheFacts.

(* ================================================================== *)
(** ** Rate-limit detection in the PTY wrapper *)
(* ================================================================== *)

Module PtyFacts.
Import Pty ListFacts JSFacts.
Local Open Scope string_scope.

(** The conditional trim of [onData] is [sliceLast 500]. *)
Lemma trim_is_sliceLast (s : string) :
  (if (500 <? String.length s)%nat then JS.sliceLast 500 s else s)
  = JS.sliceLast 500 s.
Proof.
  destruct (Nat.ltb_spec 500 (String.length s)) as [H|H]; [reflexivity|].
  unfold JS.sliceLast.
  replace (String.length s - 500)%nat with 0%nat by lia. reflexivity.
Qed.

(** *** One input *)

Lemma created_tracks : tracks created "".
Proof. split; [reflexivity | intros _; reflexivity]. Qed.

Lemma fired_quiet (written : list Effect) (data : string) :
  (written = [] \/ written = [StdoutWrite data]) ->
  fired (written ++ [EmitData data]) = false /\
  filter isRateLimitEvent (written ++ [EmitData data]) = [].
Proof.
  intros [->| ->]; split; reflexivity.
Qed.

Lemma fired_loud (written : list Effect) (data : string) (hasCallback : bool) :
  (written = [] \/ written = [StdoutWrite data]) ->
  fired (written ++ [EmitRateLimit]
           ++ (if hasCallback then [CallOnRateLimitDetected] else [])
           ++ [EmitData data]) = true /\
  filter isRateLimitEvent
    (written ++ [EmitRateLimit]
       ++ (if hasCallback then [CallOnRateLimitDetected] else [])
       ++ [EmitData data]) = [EmitRateLimit].
Proof.
  intros [->| ->]; destruct hasCallback; split; reflexivity.
Qed.

Lemma step_tracks (hasCallback : bool) (i : Input) (w : Wrapper)
    (history : string) :
  tracks w history ->
  let w1 := fst (step hasCallback i w) in
  let effects := snd (step hasCallback i w) in
  let seen := JS.includes (JS.sliceLast 500 (history ++ outputOf i))
                          RATE_LIMIT_TRIGGER in
  tracks w1 (history ++ outputOf i) /\
  rateLimitDetected w1 = rateLimitDetected w || seen /\
  fired effects = negb (rateLimitDetected w) && seen /\
  List.length (filter isRateLimitEvent effects)
    = (if fired effects then 1 else 0)%nat.
Proof.
  intros [Hbuf Hclean].
  destruct i as [chunk| |]; simpl.
  - unfold onData. rewrite trim_is_sliceLast, Hbuf, sliceLast_append.
    set (buffer := JS.sliceLast 500 (history ++ chunk)).
    set (written := if negb (outputPaused w) then [StdoutWrite chunk] else []).
    assert (Hw : written = [] \/ written = [StdoutWrite chunk])
      by (unfold written; destruct (outputPaused w); [left|right]; reflexivity).
    destruct (fired_quiet written chunk Hw) as [Hfq Hcq].
    destruct (fired_loud written chunk hasCallback Hw) as [Hfl Hcl].
    destruct (rateLimitDetected w) eqn:Ed;
      [|destruct (JS.includes buffer RATE_LIMIT_TRIGGER) eqn:Ei];
      cbn [negb andb orb fst snd rateLimitDetected outputBuffer tracks].
    + rewrite Hfq, Hcq. repeat split; simpl; try reflexivity. intro H; discriminate H.
    + rewrite Hfl, Hcl. repeat split; simpl; try reflexivity. intro H; discriminate H.
    + rewrite Hfq, Hcq. repeat split; simpl; try reflexivity. intros _. exact Ei.
  - rewrite append_empty, <- Hbuf.
    destruct (rateLimitDetected w) eqn:Ed; simpl;
      [|rewrite (Hclean eq_refl)];
      repeat split; intros; simpl in *; try assumption; try reflexivity;
      try congruence; auto.
  - rewrite append_empty, <- Hbuf.
    destruct (rateLimitDetected w) eqn:Ed; simpl;
      [|rewrite (Hclean eq_refl)];
      repeat split; intros; simpl in *; try assumption; try reflexivity;
      try congruence; auto.
Qed.

(** *** A whole session *)


Lemma seenAfter_next (history : string) (i : Input) (inputs : list Input)
    (k : nat) :
  seenAfter history (i :: inputs) (S k)
  = seenAfter (history ++ outputOf i) inputs k.
Proof.
  unfold seenAfter. simpl. rewrite append_assoc. reflexivity.
Qed.

Lemma quietBefore_next (history : string) (i : Input) (inputs : list Input)
    (k : nat) :
  quietBefore history (i :: inputs) (S k)
  = negb (seenAfter history (i :: inputs) 0)
    && quietBefore (history ++ outputOf i) inputs k.
Proof.
  unfold quietBefore. cbn [seq forallb]. f_equal.
  rewrite <- seq_shift. apply forallb_map_ext.
  intro j. rewrite seenAfter_next. reflexivity.
Qed.

Lemma run_cons (hasCallback : bool) (i : Input) (inputs : list Input)
    (w : Wrapper) :
  run hasCallback (i :: inputs) w
  = (fst (run hasCallback inputs (fst (step hasCallback i w))),
     snd (step hasCallback i w)
       :: snd (run hasCallback inputs (fst (step hasCallback i w)))).
Proof.
  cbn [run]. destruct (step hasCallback i w) as [w1 effects].
  cbn [fst snd]. destruct (run hasCallback inputs w1). reflexivity.
Qed.

(** The event fires at input [k] exactly when nothing was detected before
    the observation started, the marker shows after [k], and it did not
    show after any earlier input. *)
Lemma run_fired (hasCallback : bool) (inputs : list Input) :
  forall (w : Wrapper) (history : string) (k : nat),
    tracks w history ->
    (k < List.length inputs)%nat ->
    fired (nth k (snd (run hasCallback inputs w)) [])
    = negb (rateLimitDetected w)
      && seenAfter history inputs k
      && quietBefore history inputs k.
Proof.
  induction inputs as [|i inputs IH]; intros w history k Ht Hk;
    [simpl in Hk; lia|].
  rewrite run_cons. cbn [snd].
  destruct (step_tracks hasCallback i w history Ht) as (Ht1 & Hd1 & Hf & _).
  destruct k as [|k].
  - cbn [nth]. rewrite Hf. unfold quietBefore, seenAfter. simpl.
    rewrite andb_true_r. reflexivity.
  - cbn [nth]. simpl in Hk.
    rewrite (IH _ _ k Ht1) by lia.
    rewrite seenAfter_next, quietBefore_next, Hd1.
    unfold seenAfter at 3. cbn [outputUpTo].
    destruct (rateLimitDetected w),
      (JS.includes (JS.sliceLast 500 (history ++ outputOf i)) RATE_LIMIT_TRIGGER),
      (seenAfter (history ++ outputOf i) inputs k),
      (quietBefore (history ++ outputOf i) inputs k); reflexivity.
Qed.

(** A session emits no event once one was detected, and at most one
    otherwise. *)
Lemma run_count (hasCallback : bool) (inputs : list Input) :
  forall (w : Wrapper) (history : string),
    tracks w history ->
    (rateLimitEvents (snd (run hasCallback inputs w))
     <= if rateLimitDetected w then 0 else 1)%nat.
Proof.
  unfold rateLimitEvents.
  induction inputs as [|i inputs IH]; intros w history Ht.
  - simpl. destruct (rateLimitDetected w); lia.
  - rewrite run_cons. cbn [snd List.concat]. rewrite filter_app, length_app.
    destruct (step_tracks hasCallback i w history Ht) as (Ht1 & Hd1 & Hf & Hc).
    specialize (IH _ _ Ht1). rewrite Hc, Hf. rewrite Hd1 in IH.
    destruct (rateLimitDetected w),
      (JS.includes (JS.sliceLast 500 (history ++ outputOf i)) RATE_LIMIT_TRIGGER);
      simpl in *; lia.
Qed.

(** After input [k] the wrapper's buffer is the trailing 500 characters of
    the output so far. *)
Lemma run_buffer (hasCallback : bool) (inputs : list Input) :
  forall (w : Wrapper) (history : string) (k : nat),
    tracks w history ->
    (k < List.length inputs)%nat ->
    tracks (fst (run hasCallback (firstn (S k) inputs) w))
           (history ++ outputUpTo inputs k).
Proof.
  induction inputs as [|i inputs IH]; intros w history k Ht Hk;
    [simpl in Hk; lia|].
  cbn [firstn]. rewrite run_cons. cbn [fst].
  destruct (step_tracks hasCallback i w history Ht) as (Ht1 & _).
  destruct k as [|k].
  - simpl. exact Ht1.
  - simpl in Hk. cbn [outputUpTo]. rewrite <- append_assoc.
    apply IH; [exact Ht1 | lia].
Qed.

(** C8.  Within one session of the wrapper the ['rate-limit'] event is
    emitted at most once.  It is emitted at input [k] exactly when the
    trailing 500 characters of the output contain the marker after [k] and
    did not contain it after any earlier input, that is, at the first chunk
    that brings the marker into the buffer; the buffer the wrapper tests is
    that trailing window, at most 500 characters long.  Pausing and
    resuming the relay in between changes nothing. *)
Theorem rate_limit_fires_once (hasCallback : bool) (inputs : list Input) :
  let trace := snd (run hasCallback inputs created) in
  (rateLimitEvents trace <= 1)%nat /\
  forall k, (k < List.length inputs)%nat ->
    fired (nth k trace [])
    = markerVisible inputs k
      && forallb (fun j => negb (markerVisible inputs j)) (seq 0 k) /\
    outputBuffer (fst (run hasCallback (firstn (S k) inputs) created))
    = trailing inputs k /\
    (String.length (trailing inputs k) <= 500)%nat.
Proof.
  intro trace. subst trace. split.
  - exact (run_count hasCallback inputs created "" created_tracks).
  - intros k Hk. split; [|split].
    + rewrite (run_fired hasCallback inputs created "" k created_tracks Hk).
      reflexivity.
    + destruct (run_buffer hasCallback inputs created "" k created_tracks Hk)
        as [Hb _].
      exact Hb.
    + apply sliceLast_length.
Qed.

(** A session in which the marker arrives split over two chunks, stays in
    the buffer for a while and later appears a second time: one event, at
    the chunk that completes the first occurrence. *)
Example marker_twice_fires_once :
  map fired
    (snd (run true
            [Data "Welcome. You've hit"; PauseOutput; Data " your limit";
             Data " - resets 3pm"; ResumeOutput;
             Data "You've hit your limit again"]
            created))
  = [false; false; true; false; false; false].
Proof. reflexivity. Qed.

End PtyFacts.


(* ================================================================== *)
(** ** Failover: the replacement argument list and the in-flight flags *)
(* ================================================================== *)

Module LauncherFacts.
Import Api Selector Launcher Scenarios.
Local Open Scope string_scope.
Local Open Scope list_scope.

(** *** The argument list of a manual switch *)

Lemma afterResume_next (pre : list string) (a : string) (rest : list string) :
  afterResume (pre ++ a :: rest) (S (List.length pre)) = (a =? "--resume").
Proof.
  unfold afterResume. cbn [Nat.ltb Nat.leb andb]. simpl Nat.sub.
  rewrite Nat.sub_0_r, nth_error_app2 by lia.
  rewrite Nat.sub_diag. reflexivity.
Qed.

(** The indexed filter is the one-pass scan. *)
Lemma filteri_scan (full : list string) :
  forall (rest pre : list string),
    full = pre ++ rest ->
    JS.filteri_from (keepOnSwitch full) (List.length pre) rest
    = scanResume (afterResume full (List.length pre)) rest.
Proof.
  induction rest as [|a rest IH]; intros pre Hfull; [reflexivity|].
  assert (Hnext : full = (pre ++ [a]) ++ rest)
    by (rewrite <- app_assoc; exact Hfull).
  specialize (IH (pre ++ [a]) Hnext).
  rewrite length_app in IH. simpl in IH. rewrite Nat.add_1_r in IH.
  assert (Ha : afterResume full (S (List.length pre)) = (a =? "--resume"))
    by (rewrite Hfull; apply afterResume_next).
  rewrite Ha in IH.
  cbn [JS.filteri_from scanResume]. unfold keepOnSwitch.
  destruct (a =? "--resume") eqn:Ea; [exact IH|].
  destruct (afterResume full (List.length pre)); [exact IH|].
  cbv beta iota. f_equal. exact IH.
Qed.

Lemma scan_agrees_with_spec (args : list string) :
  (noDoubleResume args = true -> scanResume false args = spec_stripResume args) /\
  (forall a, noDoubleResume (a :: args) = true ->
     scanResume false (a :: args) = spec_stripResume (a :: args)).
Proof.
  induction args as [|b args [IH1 IH2]].
  - split; [reflexivity|]. intros a _. simpl. destruct (a =? "--resume"); reflexivity.
  - split; [intro H; apply IH2, H|].
    intros a H. cbn [noDoubleResume] in H.
    apply andb_true_iff in H. destruct H as [Hab Hrest].
    cbn [scanResume spec_stripResume].
    destruct (a =? "--resume") eqn:Ea.
    + destruct (b =? "--resume") eqn:Eb; [discriminate|].
      apply IH1.
      destruct args as [|c args]; [reflexivity|].
      cbn [noDoubleResume] in Hrest.
      apply andb_true_iff in Hrest. apply Hrest.
    + f_equal. apply IH2, Hrest.
Qed.

(** X4.  A manual switch that finds the identifier [id] hands on what the
    specification prescribes: the resume pair, then the prior arguments
    without the [--resume] flag and its value, the others unchanged and in
    order (no [--resume] taking another [--resume] as its value). *)
Theorem switch_args_as_specified (id : string) (args : list string) :
  id <> "" ->
  noDoubleResume args = true ->
  switchResumeArgs (Some id) args = spec_resumeArgs id args.
Proof.
  intros Hid Hargs. unfold switchResumeArgs, spec_resumeArgs, JS.truthy.
  destruct (id =? "") eqn:E; [apply String.eqb_eq in E; contradiction|].
  cbn [negb]. do 2 f_equal.
  unfold JS.filteri.
  pose proof (filteri_scan args args [] eq_refl) as Hscan.
  change (afterResume args (List.length (@nil string))) with false in Hscan.
  cbn [List.length] in Hscan. rewrite Hscan.
  apply scan_agrees_with_spec, Hargs.
Qed.

(** *** The argument list of a rate-limit failover *)

(** X5.  On a rate-limit failover without a [--resume] among the prior
    arguments, [indexOf] answers -1 and the filter tests every argument
    against the first one: the first argument is dropped, and with it every
    argument that occurs inside it. *)
Theorem rate_limit_args_without_resume (id a : string) (rest : list string) :
  id <> "" ->
  JS.indexOf "--resume" (a :: rest) = (-1)%Z ->
  rateLimitResumeArgs (Some id) (a :: rest)
  = "--resume" :: id
      :: filter (fun x => negb (x =? "--resume") && negb (JS.includes a x)) rest.
Proof.
  intros Hid Hidx. unfold rateLimitResumeArgs, JS.truthy.
  destruct (id =? "") eqn:E; [apply String.eqb_eq in E; contradiction|].
  cbn [negb]. do 2 f_equal.
  unfold keepOnRateLimit. rewrite Hidx. cbn [filter JS.at_ Z.add Z.ltb Z.compare
    Z.to_nat nth_error Z.opp Pos.compare Z.pos_sub Pos.compare_cont].
  assert (Hself : JS.includes a a = true).
  { apply JSFacts.includes_spec. exists "", "".
    rewrite JSFacts.append_empty. reflexivity. }
  simpl. rewrite Hself, andb_false_r. reflexivity.
Qed.

Lemma switch_args_as_specified_witness :
  switchResumeArgs (Some "0f3a9c2e") ["-c"; "--resume"; "11aa22bb"; "--model"; "opus"]
  = spec_resumeArgs "0f3a9c2e" ["-c"; "--resume"; "11aa22bb"; "--model"; "opus"].
Proof.
  apply (switch_args_as_specified "0f3a9c2e"
           ["-c"; "--resume"; "11aa22bb"; "--model"; "opus"]).
  - discriminate.
  - reflexivity.
Defined.

Lemma rate_limit_args_without_resume_witness :
  rateLimitResumeArgs (Some "0f3a9c2e") ["--model"; "opus"; "-c"]
  = "--resume" :: "0f3a9c2e"
      :: filter (fun x => negb (x =? "--resume") && negb (JS.includes "--model" x))
                ["opus"; "-c"].
Proof.
  apply (rate_limit_args_without_resume "0f3a9c2e" "--model" ["opus"; "-c"]).
  - discriminate.
  - reflexivity.
Defined.

(** C1, on the rate-limit path, fails where the manual path holds.  A
    session on [a] started as [hub --model opus] hits its limit, [b] is
    chosen and the conversation identifier is found: the replacement is
    launched with the resume pair followed by [opus] alone, the [--model]
    flag is gone.  The manual switch from the same state launches with the
    list the specification prescribes. *)
Theorem rate_limit_failover_loses_argument :
  let c := controllerOnA 0 ["--model"; "opus"] in
  let w := worldAt 0 (Some "0f3a9c2e") in
  snd (onRateLimitDetected c w launched)
  = [Kill; Sync;
     Launch "b" ["--resume"; "0f3a9c2e"; "opus"]
            (map (markExhausted c) (usageData c))] /\
  spec_resumeArgs "0f3a9c2e" (claudeArgs c)
  = ["--resume"; "0f3a9c2e"; "--model"; "opus"] /\
  snd (switchAccount c w "b" true launched)
  = [Kill; Sync;
     Launch "b" ["--resume"; "0f3a9c2e"; "--model"; "opus"] (usageData c)].
Proof.
  repeat split.
Qed.

(** *** The in-flight flags *)

Lemma rate_limit_ignored (c : Controller) (w : World) (f : Flags) :
  autoSwitch c = false \/ isHandlingRateLimit f = true ->
  onRateLimitDetected c w f = (f, []).
Proof.
  unfold onRateLimitDetected. intros [H|H]; rewrite H; simpl;
    [reflexivity | rewrite orb_true_r; reflexivity].
Qed.

(** Whatever a rate-limit detection does when it is not ignored, it
    raises its flag. *)
Lemma rate_limit_raises_flag (c : Controller) (w : World) (f : Flags) :
  autoSwitch c = true ->
  isHandlingRateLimit f = false ->
  isHandlingRateLimit (fst (onRateLimitDetected c w f)) = true.
Proof.
  unfold onRateLimitDetected. intros Ha Hf. rewrite Ha, Hf. simpl.
  destruct (selectNextAccount _ _ _ _ _) as [[sel|]|];
    [destruct (isRateLimited sel)| |]; reflexivity.
Qed.

(** No handler ever lowers the rate-limit flag. *)
Lemma flag_stays_raised (c : Controller) (e : Event) (f : Flags) :
  isHandlingRateLimit f = true ->
  isHandlingRateLimit (fst (handle c e f)) = true.
Proof.
  intro Hf. destruct e as [w|w account resume|code]; simpl.
  - rewrite (rate_limit_ignored c w f (or_intror Hf)). exact Hf.
  - exact Hf.
  - unfold onExit. rewrite Hf. exact Hf.
Qed.

Lemma run_step (c : Controller) (e : Event) (events : list Event) (f : Flags) :
  run c (e :: events) f
  = (fst (run c events (fst (handle c e f))),
     snd (handle c e f) :: snd (run c events (fst (handle c e f)))).
Proof.
  cbn [run]. destruct (handle c e f) as [f1 actions].
  cbn [fst snd]. destruct (run c events f1). reflexivity.
Qed.

(** A detection that kills or launches found its flag down and leaves it
    up. *)
Lemma acted_raises_flag (c : Controller) (e : Event) (f : Flags) :
  isRateLimitDetected e && negb (dropped (snd (handle c e f))) = true ->
  isHandlingRateLimit f = false /\
  isHandlingRateLimit (fst (handle c e f)) = true.
Proof.
  destruct e as [w|w account resume|code]; cbn [isRateLimitDetected andb handle];
    try discriminate.
  intro H.
  destruct (autoSwitch c) eqn:Ha.
  - destruct (isHandlingRateLimit f) eqn:Hf.
    + rewrite (rate_limit_ignored c w f (or_intror Hf)) in H. discriminate.
    + split; [reflexivity | apply rate_limit_raises_flag; assumption].
  - rewrite (rate_limit_ignored c w f (or_introl Ha)) in H. discriminate.
Qed.

Lemma failovers_bounded (c : Controller) (events : list Event) :
  forall f,
    (rateLimitFailovers c events f
     <= if isHandlingRateLimit f then 0 else 1)%nat.
Proof.
  unfold rateLimitFailovers.
  induction events as [|e events IH]; intro f.
  - simpl. destruct (isHandlingRateLimit f); lia.
  - rewrite run_step. cbn [snd combine filter fst].
    specialize (IH (fst (handle c e f))).
    destruct (isRateLimitDetected e && negb (dropped (snd (handle c e f)))) eqn:E.
    + apply acted_raises_flag in E. destruct E as [Hf Hf1].
      rewrite Hf. rewrite Hf1 in IH. cbn [List.length]. lia.
    + destruct (isHandlingRateLimit f) eqn:Hf.
      * rewrite (flag_stays_raised c e f Hf) in IH. exact IH.
      * destruct (isHandlingRateLimit (fst (handle c e f))); lia.
Qed.

(** C2, as the code has it.  Per controller instance the guard is the
    rate-limit flag alone.  A rate-limit detection is ignored (flags as
    they were, nothing killed, nothing launched, nothing kept for later)
    when auto-switch is off or an earlier detection was already taken up;
    so of all the detections reaching one instance at most one kills or
    launches.  A manual switch consults no flag and always goes ahead, and
    whether one was requested makes no difference to what a rate-limit
    detection does. *)
Theorem rate_limit_guard (c : Controller) :
  (forall w f,
     autoSwitch c = false \/ isHandlingRateLimit f = true ->
     onRateLimitDetected c w f = (f, [])) /\
  (forall events, (rateLimitFailovers c events launched <= 1)%nat) /\
  (forall w account resume f,
     dropped (snd (switchAccount c w account resume f)) = false /\
     isHandlingManualSwitch (fst (switchAccount c w account resume f)) = true) /\
  (forall w rateLimit manual,
     snd (onRateLimitDetected c w
            {| isHandlingRateLimit := rateLimit; isHandlingManualSwitch := manual |})
     = snd (onRateLimitDetected c w
              {| isHandlingRateLimit := rateLimit; isHandlingManualSwitch := false |})).
Proof.
  split; [exact (rate_limit_ignored c)|].
  split; [intro events; exact (failovers_bounded c events launched)|].
  split; [intros; split; reflexivity|].
  intros w rateLimit manual. unfold onRateLimitDetected. simpl.
  destruct (negb (autoSwitch c) || rateLimit); [reflexivity|].
  destruct (selectNextAccount _ _ _ _ _) as [[sel|]|];
    [destruct (isRateLimited sel)| |]; reflexivity.
Qed.

(** C2, as the claim has it, fails in both directions.  A rate-limit
    detection reaching a controller whose manual switch is under way kills
    and launches again; and a manual switch requested after a rate-limit
    failover began does the same. *)
Lemma failovers_overlap :
  let c := controllerOnA 0 [] in
  let w := worldAt 0 None in
  let manualFirst := run c [SwitchRequested w "b" true; RateLimitDetected w] launched in
  let rateLimitFirst := run c [RateLimitDetected w; SwitchRequested w "b" true] launched in
  isHandlingManualSwitch (fst (switchAccount c w "b" true launched)) = true /\
  isHandlingRateLimit (fst (onRateLimitDetected c w launched)) = true /\
  map dropped (snd manualFirst) = [false; false] /\
  map dropped (snd rateLimitFirst) = [false; false] /\
  snd manualFirst
  = [[Kill; Sync; Launch "b" [] (usageData c)];
     [Kill; Sync; Launch "b" [] (map (markExhausted c) (usageData c))]] /\
  snd rateLimitFirst
  = [[Kill; Sync; Launch "b" [] (map (markExhausted c) (usageData c))];
     [Kill; Sync; Launch "b" [] (usageData c)]].
Proof.
  repeat split.
Qed.

End LauncherFacts.

(* ================================================================== *)
(** ** Parsing the usage endpoint's answer; fetching with one retry *)
(* ================================================================== *)

Module UsageFacts.
Import Api Selector.

(** X7.  A freshly parsed snapshot counts as rate-limited exactly when the
    session utilization is above 99.5 %: from there on the remaining
    percentage rounds to zero or below. *)
Theorem parsed_rate_limited_threshold (name : string)
    (response : UsageAPIResponse) :
  isAccountRateLimited (parseAPIResponse name response) = true
  <-> 99.5 < utilization (five_hour response).
Proof.
  unfold isAccountRateLimited, parseAPIResponse, hasError. simpl.
  rewrite JSFacts.leb_le. unfold JS.round.
  set (u := utilization (five_hour response)).
  set (x := 100 - u + (1 # 2)).
  pose proof (Qfloor_le x) as Hlo. pose proof (Qlt_floor x) as Hhi.
  rewrite inject_Z_plus in Hhi. change (inject_Z 1) with 1 in Hhi.
  assert (Hx : x == 100 - u + (1 # 2)) by reflexivity.
  clearbody x u.
  split; intro H.
  - lra.
  - assert (Hz : (Qfloor x < 1)%Z).
    { rewrite Zlt_Qlt. change (inject_Z 1) with 1. lra. }
    assert (Hz' : (Qfloor x <= 0)%Z) by lia.
    rewrite Zle_Qle in Hz'. exact Hz'.
Qed.

(** X8.  [getAPIUsage] always resolves to a snapshot of the account asked
    for.  It calls the API at most twice and refreshes the token at most
    once; it refreshes exactly when the first call failed with a message
    that mentions an expired token or 401, and calls a second time only
    after a refresh that reported success.  A failure of any other kind
    ends the run after one call, its message handed on unchanged. *)
Theorem usage_fetch_retries_once (name : string) (now now' : Date)
    (env : Surroundings) :
  let snapshot := fst (getAPIUsage name now now' env) in
  let steps := snd (getAPIUsage name now now' env) in
  accountName snapshot = name /\
  (apiCalls steps <= 2)%nat /\
  (refreshes steps <= 1)%nat /\
  (refreshes steps = 1%nat <->
   exists token m,
     keychain env = Ok token /\ fetchUsage env token = Err m /\
     looksExpired m = true) /\
  (apiCalls steps = 2%nat -> refreshes steps = 1%nat /\ refreshToken env = true) /\
  (forall token m,
     keychain env = Ok token -> fetchUsage env token = Err m ->
     looksExpired m = false ->
     error snapshot = Some m /\ steps = [ReadKeychain; CallApi token]).
Proof.
  intros snapshot steps. subst snapshot steps. unfold getAPIUsage.
  destruct (keychain env) as [token|m0] eqn:Ek;
    [destruct (fetchUsage env token) as [response|m1] eqn:Ef;
       [|destruct (looksExpired m1) eqn:El;
           [destruct (refreshToken env) eqn:Er; cbn [negb];
              [destruct (keychainAfterRefresh env) as [token2|m2];
                 [destruct (fetchUsageAfterRefresh env token2) as [response|m3]|]|]|]]|];
    cbn; repeat split; intros;
    repeat match goal with
           | H : exists _, _ |- _ => destruct H as [? H]
           | H : _ /\ _ |- _ => destruct H
           | H : Ok _ = Ok _ |- _ => injection H as <-
           end;
    try lia; try discriminate; try congruence; try reflexivity;
    match goal with
    | Hf : fetchUsage env ?t = Err ?m |- exists _ _, _ =>
        exists t, m; repeat split; assumption
    end.
Qed.

(** *** The cache across calls *)

(** X9.  A call of [getAllAPIUsage] entered at [now], no other call in
    flight, leaves the cache holding the list it returned.  A call that
    fetched stamps the cache with [now], the instant it was entered, not the
    instant the fetches came back: asked at a later instant [returned],
    [hasValidUsageCache] answers whether fewer than 30 seconds have passed
    since [now]; a call served from the cache leaves the cache as it was.
    After [clearUsageCache] the cache is not valid at any instant, and the
    next call fetches. *)
Theorem cache_valid_after_call (now returned : JS.number)
    (fresh again : list APIUsageData) (cache : Cache) :
  let r := getAllAPIUsage now fresh cache in
  cachedUsageData (cacheAfter r) = Some (results r) /\
  (refetched r = true ->
   lastFetchTime (cacheAfter r) = now /\
   hasValidUsageCache returned (cacheAfter r)
   = JS.ltb ((returned - now) / 1000) USAGE_CACHE_SECONDS) /\
  (refetched r = false -> cacheAfter r = cache) /\
  hasValidUsageCache returned (clearUsageCache (cacheAfter r)) = false /\
  refetched (getAllAPIUsage returned again (clearUsageCache (cacheAfter r))) = true.
Proof.
  intro r. subst r. unfold getAllAPIUsage, hasValidUsageCache.
  destruct (cachedUsageData cache) as [data|] eqn:Ec.
  - destruct (JS.ltb ((now - lastFetchTime cache) / 1000) USAGE_CACHE_SECONDS) eqn:Ea.
    + destruct (hasStaleResetTime now data); cbn.
      * repeat split; intros; try discriminate; reflexivity.
      * rewrite Ec. repeat split; intros; try discriminate; reflexivity.
    + cbn. repeat split; intros; try discriminate; reflexivity.
  - cbn. repeat split; intros; try discriminate; reflexivity.
Qed.

(** Fetches that take 30 seconds or more leave a cache that is no longer
    valid when the call returns. *)
Example slow_fetch_leaves_stale_cache :
  let r := getAllAPIUsage 1000 [Scenarios.weeklyStale 1000] initialCache in
  refetched r = true /\
  hasValidUsageCache 1000 (cacheAfter r) = true /\
  hasValidUsageCache 31000 (cacheAfter r) = false.
Proof.
  repeat split.
Qed.

(** X10.  After a call that fetched at [now], a call at [later], less than
    30 seconds on, answers with the same list without fetching, provided
    no snapshot free of error in that list has its session reset before
    [later]. *)
Theorem second_call_served (now later : JS.number)
    (fresh again : list APIUsageData) (cache : Cache) :
  refetched (getAllAPIUsage now fresh cache) = true ->
  (later - now) / 1000 < USAGE_CACHE_SECONDS ->
  (forall u, In u fresh -> hasError u = false -> later <= fiveHourResetsAt u) ->
  let second := getAllAPIUsage later again
                  (cacheAfter (getAllAPIUsage now fresh cache)) in
  refetched second = false /\
  results second = fresh /\
  cacheAfter second = cacheAfter (getAllAPIUsage now fresh cache).
Proof.
  intros Hfetched Hage Hreset.
  assert (Hafter : cacheAfter (getAllAPIUsage now fresh cache)
                   = {| cachedUsageData := Some fresh; lastFetchTime := now |}).
  { revert Hfetched. unfold getAllAPIUsage.
    destruct (cachedUsageData cache) as [data|]; [|reflexivity].
    destruct (JS.ltb _ USAGE_CACHE_SECONDS); [|reflexivity].
    destruct (hasStaleResetTime now data); [reflexivity | discriminate]. }
  rewrite Hafter. unfold getAllAPIUsage. cbn [cachedUsageData lastFetchTime].
  apply JSFacts.ltb_lt in Hage. rewrite Hage.
  apply CacheFacts.stale_none in Hreset. rewrite Hreset.
  repeat split.
Qed.

Lemma second_call_served_witness :
  let first := getAllAPIUsage 1000 [Scenarios.weeklyStale 1000] initialCache in
  let second := getAllAPIUsage 6000 [] (cacheAfter first) in
  refetched second = false /\
  results second = [Scenarios.weeklyStale 1000] /\
  cacheAfter second = cacheAfter first.
Proof.
  apply (second_call_served 1000 6000 [Scenarios.weeklyStale 1000] [] initialCache).
  - reflexivity.
  - reflexivity.
  - intros u [<-|[]] _. discriminate.
Defined.

(** X11.  Snapshots that carry an error never invalidate the cache: a
    cached list made of error results only is served for the whole 30
    seconds, although the reset instants of an error result are the time of
    the failure and so already lie in the past. *)
Theorem errors_never_invalidate (now : JS.number)
    (fresh data : list APIUsageData) (fetchedAt : JS.number) :
  (forall u, In u data -> hasError u = true) ->
  (now - fetchedAt) / 1000 < USAGE_CACHE_SECONDS ->
  let cache := {| cachedUsageData := Some data; lastFetchTime := fetchedAt |} in
  refetched (getAllAPIUsage now fresh cache) = false /\
  results (getAllAPIUsage now fresh cache) = data.
Proof.
  intros Herr Hage cache. subst cache.
  unfold getAllAPIUsage. cbn [cachedUsageData lastFetchTime].
  apply JSFacts.ltb_lt in Hage. rewrite Hage.
  assert (Hs : hasStaleResetTime now data = false).
  { apply CacheFacts.stale_none. intros u Hu He.
    rewrite (Herr u Hu) in He. discriminate. }
  rewrite Hs. split; reflexivity.
Qed.

Lemma errors_never_invalidate_witness :
  let data := [makeErrorResult "a" 1000 1000 "Network error: timeout"] in
  let cache := {| cachedUsageData := Some data; lastFetchTime := 1000 |} in
  refetched (getAllAPIUsage 20000 [] cache) = false /\
  results (getAllAPIUsage 20000 [] cache) = data.
Proof.
  apply (errors_never_invalidate 20000 []
           [makeErrorResult "a" 1000 1000 "Network error: timeout"] 1000).
  - intros u [<-|[]]. reflexivity.
  - reflexivity.
Defined.

End UsageFacts.


(* ================================================================== *)
(** ** What a selection means, and where a failover may lead *)
(* ================================================================== *)

Module FailoverFacts.
Import Launcher Chain Api Selector ListFacts.

Section Outcome.
Variable now : JS.number.
Variable isProcessRunning : Z -> bool.
Variable file : StateFile.
Variable excludeAccount : option string.

(** Every selection is read off one candidate, from the available ones
    when it is not marked rate-limited, and only when none is available
    otherwise. *)
Lemma select_outcome (usages : list APIUsageData) :
  match selectBestAccount now isProcessRunning file usages excludeAccount with
  | JS.Returns (Some sel) =>
      exists best,
        In best (Spec.candidatesOf excludeAccount usages) /\
        sel_accountName sel = accountName best /\
        sessionRemaining sel = fiveHourRemaining best /\
        (if isRateLimited sel
         then Spec.availableOf excludeAccount usages = [] /\
              resetsAt sel = Some (fiveHourResetsAt best)
         else In best (Spec.availableOf excludeAccount usages) /\
              resetsAt sel = None)
  | JS.Returns None => Spec.candidatesOf excludeAccount usages = []
  | JS.Throws => False
  end.
Proof.
  destruct (Spec.candidatesOf excludeAccount usages) as [|c0 cs] eqn:Ec.
  - rewrite (SelectorFacts.select_without_candidates _ _ _ _ _ Ec). reflexivity.
  - assert (Hc : Spec.candidatesOf excludeAccount usages <> [])
      by (rewrite Ec; discriminate).
    rewrite <- Ec.
    rewrite (SelectorFacts.select_with_candidates _ _ _ _ _ Hc).
    destruct (List.length (Spec.availableOf excludeAccount usages) =? 0)%nat eqn:El.
    + apply length_zero in El. pose proof El as El'.
      unfold Spec.availableOf in El'.
      rewrite (SelectorFacts.partition_covers _ El').
      destruct (JS.sort _ (Spec.candidatesOf excludeAccount usages))
        as [|h t] eqn:Hs.
      * exact (JSFacts.sort_nonempty _ _ Hc Hs).
      * assert (Hin : In h (h :: t)) by (left; reflexivity).
        rewrite <- Hs in Hin.
        apply (Permutation_in _ (JSFacts.sort_perm _ _)) in Hin.
        exists h. cbn. repeat split; assumption.
    + set (scored := scoreAccounts now (Spec.availableOf excludeAccount usages)
                       (Spec.registryOf isProcessRunning file) excludeAccount).
      assert (Hn : scored <> []).
      { intro E.
        assert (Ha : Spec.availableOf excludeAccount usages = [])
          by (rewrite <- (SelectorFacts.scored_usages now excludeAccount usages
                            (Spec.registryOf isProcessRunning file));
              fold scored; rewrite E; reflexivity).
        rewrite Ha in El. discriminate. }
      destruct (JS.sort _ scored) as [|h t] eqn:Hs.
      * exact (JSFacts.sort_nonempty _ _ Hn Hs).
      * assert (Hin : In h (h :: t)) by (left; reflexivity).
        rewrite <- Hs in Hin.
        apply (Permutation_in _ (JSFacts.sort_perm _ _)) in Hin.
        apply (in_map usage) in Hin. unfold scored in Hin.
        rewrite SelectorFacts.scored_usages in Hin.
        assert (Hcand : In (usage h) (Spec.candidatesOf excludeAccount usages)).
        { unfold Spec.availableOf in Hin. apply filter_In in Hin. apply Hin. }
        exists (usage h). cbn. repeat split; assumption.
Qed.

(** X12.  The [isRateLimited] mark of a selection means what its callers
    take it to mean.  Unmarked, the chosen account has session capacity
    left and the selection carries no reset instant.  Marked, every
    candidate (no error, not excluded), the chosen one included, is
    rate-limited in the sense of [isAccountRateLimited], and the selection
    carries a reset instant. *)
Theorem selection_flag_meaning (usages : list APIUsageData) :
  match selectBestAccount now isProcessRunning file usages excludeAccount with
  | JS.Returns (Some sel) =>
      if isRateLimited sel
      then (forall u, In u (Spec.candidatesOf excludeAccount usages) ->
                      isAccountRateLimited u = true) /\
           sessionRemaining sel <= 0 /\
           resetsAt sel <> None
      else 0 < sessionRemaining sel /\ resetsAt sel = None
  | _ => True
  end.
Proof.
  pose proof (select_outcome usages) as H.
  destruct (selectBestAccount now isProcessRunning file usages excludeAccount)
    as [[sel|]|]; try exact I.
  destruct H as (best & Hin & _ & Hrem & Hflag).
  destruct (isRateLimited sel).
  - destruct Hflag as [Hnone Hreset].
    assert (Hall : forall u, In u (Spec.candidatesOf excludeAccount usages) ->
                             fiveHourRemaining u <= 0).
    { intros u Hu. apply JSFacts.ltb_ge.
      destruct (JS.ltb 0 (fiveHourRemaining u)) eqn:E; [|reflexivity].
      assert (Hav : In u (Spec.availableOf excludeAccount usages))
        by (apply filter_In; split; assumption).
      rewrite Hnone in Hav. destruct Hav. }
    repeat split.
    + intros u Hu. unfold isAccountRateLimited.
      pose proof Hu as Hu'. apply filter_In in Hu'. destruct Hu' as [_ He].
      unfold eligible in He. apply andb_true_iff in He. destruct He as [He _].
      rewrite He. apply JSFacts.leb_le, Hall, Hu.
    + rewrite Hrem. apply Hall, Hin.
    + rewrite Hreset. discriminate.
  - destruct Hflag as [Hav Hreset]. split; [|exact Hreset].
    rewrite Hrem. apply filter_In in Hav. apply JSFacts.ltb_lt, Hav.
Qed.

End Outcome.

(** *** Where a rate-limit failover may lead *)

Lemma launch_on_rate_limit (c : Controller) (w : World) (f : Flags)
    (account : string) (args : list string) (usage : list APIUsageData) :
  In (Launch account args usage) (snd (onRateLimitDetected c w f)) ->
  usage = map (markExhausted c) (usageData c) /\
  args = rateLimitResumeArgs (activeSessionId w) (claudeArgs c) /\
  exists best,
    In best (filter (isTarget (Launcher.accountName c)) (usageData c)) /\
    accountName best = account.
Proof.
  unfold onRateLimitDetected.
  destruct (negb (autoSwitch c) || isHandlingRateLimit f); [intros []|].
  pose proof (select_outcome (now w) (isProcessRunning w) (stateFile w)
                (Some (Launcher.accountName c)) (usageData c)) as H.
  unfold selectNextAccount.
  destruct (selectBestAccount _ _ _ _ _) as [[sel|]|];
    [|cbn; intros [H0|[]]; discriminate|cbn; intros [H0|[]]; discriminate].
  destruct H as (best & _ & Hname & _ & Hflag).
  destruct (isRateLimited sel); [cbn; intros [H0|[]]; discriminate|].
  destruct Hflag as [Hav _].
  cbn. intros [H0|[H0|[H0|[]]]]; try discriminate.
  injection H0 as <- <- <-. repeat split.
  exists best. split; [|symmetry; exact Hname].
  unfold Spec.availableOf, Spec.candidatesOf in Hav.
  rewrite filter_filter in Hav. exact Hav.
Qed.

(** X13.  An automatic failover never leads to the account it leaves, to
    an account whose snapshot carries an error, or to one without session
    capacity left: the account launched is that of a snapshot of the
    controller's usage data free of error and with capacity. *)
Theorem failover_target_has_capacity (c : Controller) (w : World) (f : Flags)
    (account : string) (args : list string) (usage : list APIUsageData) :
  In (Launch account args usage) (snd (onRateLimitDetected c w f)) ->
  account <> Launcher.accountName c /\
  exists u,
    In u (usageData c) /\
    Api.accountName u = account /\
    hasError u = false /\
    0 < fiveHourRemaining u.
Proof.
  intro H. apply launch_on_rate_limit in H.
  destruct H as (_ & _ & best & Hin & Hname).
  apply filter_In in Hin. destruct Hin as [Hin Ht].
  unfold isTarget, eligible in Ht.
  apply andb_true_iff in Ht. destruct Ht as [He Hpos].
  apply andb_true_iff in He. destruct He as [Herr Hne].
  apply negb_true_iff in Herr, Hne. apply String.eqb_neq in Hne.
  split; [congruence|].
  exists best. repeat split; try assumption. apply JSFacts.ltb_lt, Hpos.
Qed.

Lemma failover_target_has_capacity_witness :
  "b"%string <> "a"%string /\
  exists u,
    In u (Scenarios.twoAccounts 0) /\
    Api.accountName u = "b"%string /\
    hasError u = false /\
    0 < fiveHourRemaining u.
Proof.
  apply (failover_target_has_capacity
           (Scenarios.controllerOnA 0 []) (Scenarios.worldAt 0 None) launched
           "b" [] (map (markExhausted (Scenarios.controllerOnA 0 []))
                       (Scenarios.twoAccounts 0))).
  right. right. left. reflexivity.
Defined.

(** *** Chains of failovers *)

Lemma count_split {A} (f g : A -> bool) (l : list A) :
  List.length (filter f l)
  = (List.length (filter (fun x => f x && g x) l)
     + List.length (filter (fun x => f x && negb (g x)) l))%nat.
Proof.
  induction l as [|x l IH]; [reflexivity|].
  cbn [filter]. destruct (f x), (g x); cbn [andb negb List.length]; lia.
Qed.

Lemma count_positive {A} (f : A -> bool) (l : list A) (x : A) :
  In x l -> f x = true -> (1 <= List.length (filter f l))%nat.
Proof.
  intros Hin Hf.
  assert (H : In x (filter f l)) by (apply filter_In; split; assumption).
  destruct (filter f l); [destruct H | simpl; lia].
Qed.

Lemma count_map {A B} (p : B -> bool) (g : A -> B) (l : list A) :
  List.length (filter p (map g l)) = List.length (filter (fun x => p (g x)) l).
Proof.
  induction l as [|x l IH]; [reflexivity|].
  cbn [map filter]. destruct (p (g x)); cbn [List.length]; rewrite IH; reflexivity.
Qed.

(** A snapshot is a target of the relaunched controller exactly when it
    was one before and does not belong to the account now in use. *)
Lemma target_after_failover (c : Controller) (account : string)
    (u : APIUsageData) :
  isTarget account (markExhausted c u)
  = isTarget (Launcher.accountName c) u && negb (Api.accountName u =? account)%string.
Proof.
  unfold isTarget, eligible, markExhausted, hasError.
  destruct (Api.accountName u =? Launcher.accountName c)%string; cbn.
  - rewrite !andb_false_r. reflexivity.
  - destruct (negb (JS.truthy (error u))),
      (negb (Api.accountName u =? account)%string),
      (JS.ltb 0 (fiveHourRemaining u)); reflexivity.
Qed.

Lemma failover_shrinks_targets (c c1 : Controller) :
  failsOverTo c c1 -> (targetsLeft c1 < targetsLeft c)%nat.
Proof.
  intros [w f account args usage Hlaunch].
  apply launch_on_rate_limit in Hlaunch.
  destruct Hlaunch as (-> & _ & best & Hin & Hname).
  unfold targetsLeft, relaunched. cbn.
  rewrite count_map.
  rewrite (filter_same _ _ (usageData c) (target_after_failover c account)).
  rewrite (count_split (isTarget (Launcher.accountName c))
             (fun u => negb (Api.accountName u =? account)%string)
             (usageData c)).
  apply filter_In in Hin. destruct Hin as [Hin Ht].
  assert (Hpos : (1 <= List.length
                   (filter (fun u => isTarget (Launcher.accountName c) u
                                     && negb (negb (Api.accountName u =? account)%string))
                           (usageData c)))%nat).
  { apply (count_positive _ _ best Hin).
    rewrite Ht, Hname, String.eqb_refl. reflexivity. }
  lia.
Qed.

(** X14.  Automatic failovers cannot go round in circles.  Every
    rate-limit failover leaves the next controller with strictly fewer
    snapshots it could fail over to (the account just left is marked
    exhausted, the account entered is its own), so a chain of [n]
    failovers in a row has [n] at most the number of targets of the first
    controller, which is at most the number of usage snapshots. *)
Theorem failover_chain_bounded (n : nat) (c c' : Controller) :
  failoverChain n c c' ->
  (n + targetsLeft c' <= targetsLeft c)%nat /\
  (targetsLeft c <= List.length (usageData c))%nat.
Proof.
  intro H. split.
  - induction H as [c|n c c1 c2 Hstep _ IH]; [lia|].
    apply failover_shrinks_targets in Hstep. lia.
  - unfold targetsLeft. apply filter_length_le.
Qed.

Lemma failover_chain_bounded_witness :
  let c := Scenarios.controllerOnA 0 [] in
  let c1 := relaunched c "b" [] (map (markExhausted c) (usageData c)) in
  (1 + targetsLeft c1 <= targetsLeft c)%nat /\
  (targetsLeft c <= List.length (usageData c))%nat.
Proof.
  apply (failover_chain_bounded 1 (Scenarios.controllerOnA 0 [])
           (relaunched (Scenarios.controllerOnA 0 []) "b" []
              (map (markExhausted (Scenarios.controllerOnA 0 []))
                   (usageData (Scenarios.controllerOnA 0 []))))).
  eapply ChainStep; [|apply ChainEnd].
  apply (FailsOver _ (Scenarios.worldAt 0 None) launched).
  right. right. left. reflexivity.
Defined.

End FailoverFacts.

(* ================================================================== *)
(** ** The command line *)
(* ================================================================== *)

Module CliFacts.
Import Cli.
Local Open Scope string_scope.
Local Open Scope list_scope.


Lemma separate_plain (args : List.list string) :
  Forall (fun a => includes hubFlags a = false) args -> separate args = args.
Proof.
  induction 1 as [|arg rest Harg _ IH]; [reflexivity|].
  cbn [separate]. rewrite Harg, IH. reflexivity.
Qed.


Lemma indexOf_absent (x : string) (l : List.list string) :
  ~ In x l -> JS.indexOf x l = (-1)%Z.
Proof.
  induction l as [|y l IH]; intro H; [reflexivity|].
  cbn [JS.indexOf]. destruct (y =? x) eqn:E.
  - apply String.eqb_eq in E. exfalso. apply H. left. exact E.
  - rewrite IH by (intro Hin; apply H; right; exact Hin). reflexivity.
Qed.

Lemma indexOf_first (x : string) (pre rest : List.list string) :
  ~ In x pre -> JS.indexOf x (pre ++ x :: rest) = Z.of_nat (List.length pre).
Proof.
  induction pre as [|y pre IH]; intro H.
  - cbn. rewrite String.eqb_refl. reflexivity.
  - cbn [app JS.indexOf List.length]. destruct (y =? x) eqn:E.
    + apply String.eqb_eq in E. exfalso. apply H. left. exact E.
    + rewrite IH by (intro Hin; apply H; right; exact Hin).
      destruct (Z.ltb_spec (Z.of_nat (List.length pre)) 0); lia.
Qed.

Lemma includes_absent (l : List.list string) (x : string) :
  includes l x = false <-> ~ In x l.
Proof.
  unfold includes. split.
  - intros H Hin.
    assert (E : existsb (String.eqb x) l = true).
    { apply existsb_exists. exists x. split; [exact Hin | apply String.eqb_refl]. }
    congruence.
  - intro H. destruct (existsb (String.eqb x) l) eqn:E; [|reflexivity].
    apply existsb_exists in E. destruct E as (y & Hy & E).
    apply String.eqb_eq in E. subst y. contradiction.
Qed.

(** X16.  A command line without hub flags whose first word is not [mcp]
    goes to claude as it is: the arguments are handed on unchanged and in
    order, no account is named, none is to be added, there are no MCP
    arguments, and every flag of the parsed command line is off. *)
Theorem plain_args_pass_through (args : List.list string) :
  Forall (fun a => includes hubFlags a = false) args ->
  hd_error args <> Some "mcp" ->
  parseArgs args
  = {| sync := false; verbose := false; list := false; help := false;
       usage := false; score := false; noAutoSwitch := false;
       account := None; addAccount := None; mcpArgs := None;
       claudeArgs := args |}.
Proof.
  intros H Hmcp.
  assert (Hflag : forall flag, In flag hubFlags -> ~ In flag args).
  { intros flag Hf Hin. rewrite Forall_forall in H.
    specialize (H flag Hin). apply includes_absent in H. contradiction. }
  assert (Hinc : forall flag, In flag hubFlags -> includes args flag = false).
  { intros flag Hf. apply includes_absent, Hflag, Hf. }
  unfold parseArgs, valueAfter.
  rewrite (separate_plain args H).
  rewrite !indexOf_absent by (apply Hflag; cbn; tauto).
  rewrite !Hinc by (cbn; tauto).
  cbn [negb andb orb Z.eqb].
  destruct args as [|first rest]; [reflexivity|].
  destruct (first =? "mcp") eqn:E; [|reflexivity].
  apply String.eqb_eq in E. subst first. exfalso. apply Hmcp. reflexivity.
Qed.

Lemma plain_args_pass_through_witness :
  parseArgs ["--resume"; "abc123"; "-c"]
  = {| sync := false; verbose := false; list := false; help := false;
       usage := false; score := false; noAutoSwitch := false;
       account := None; addAccount := None; mcpArgs := None;
       claudeArgs := ["--resume"; "abc123"; "-c"] |}.
Proof.
  apply (plain_args_pass_through ["--resume"; "abc123"; "-c"]).
  - repeat constructor.
  - discriminate.
Defined.

(** With [mcp] as the first word the MCP arguments are set, hub flag or
    not. *)
Example mcp_first_word_sets_mcp_mode :
  Forall (fun a => includes hubFlags a = false) ["mcp"; "add"; "x"] /\
  mcpArgs (parseArgs ["mcp"; "add"; "x"]) = Some ["add"; "x"] /\
  claudeArgs (parseArgs ["mcp"; "add"; "x"]) = ["mcp"; "add"; "x"].
Proof.
  split; [repeat constructor | split; reflexivity].
Qed.

Lemma separate_app (pre rest : List.list string) :
  ~ In "--account" pre -> ~ In "--add-account" pre ->
  separate (pre ++ rest) = separate pre ++ separate rest.
Proof.
  induction pre as [|arg pre IH]; intros H1 H2; [reflexivity|].
  assert (E1 : (arg =? "--account") = false)
    by (apply String.eqb_neq; intro E; apply H1; left; exact E).
  assert (E2 : (arg =? "--add-account") = false)
    by (apply String.eqb_neq; intro E; apply H2; left; exact E).
  cbn [app separate]. rewrite E1, E2. cbn [orb].
  rewrite IH;
    [| intro Hin; apply H1; right; exact Hin
     | intro Hin; apply H2; right; exact Hin].
  destruct (includes hubFlags arg); reflexivity.
Qed.

(** X17.  [hub ... --account NAME ...], with no value-taking flag before
    it: the account named is NAME, and neither the flag nor NAME is handed
    on to claude; what stands before and after is separated as usual. *)
Theorem account_flag_withheld (pre post : List.list string) (name : string) :
  ~ In "--account" pre -> ~ In "--add-account" pre ->
  account (parseArgs (pre ++ "--account" :: name :: post)) = Some name /\
  claudeArgs (parseArgs (pre ++ "--account" :: name :: post))
  = separate pre ++ separate post.
Proof.
  intros H1 H2. cbn [account claudeArgs parseArgs]. split.
  - unfold valueAfter. rewrite indexOf_first by exact H1.
    rewrite length_app. cbn [List.length].
    replace (negb (Z.of_nat (List.length pre) =? -1)%Z) with true
      by (symmetry; apply negb_true_iff, Z.eqb_neq; lia).
    replace (Z.of_nat (List.length pre) + 1
             <? Z.of_nat (List.length pre + S (S (List.length post))))%Z
      with true by (symmetry; apply Z.ltb_lt; lia).
    cbn [andb]. unfold JS.at_.
    replace (Z.of_nat (List.length pre) + 1 <? 0)%Z with false
      by (symmetry; apply Z.ltb_ge; lia).
    replace (Z.to_nat (Z.of_nat (List.length pre) + 1)) with (S (List.length pre))
      by lia.
    rewrite nth_error_app2 by lia.
    replace (S (List.length pre) - List.length pre)%nat with 1%nat by lia.
    reflexivity.
  - rewrite separate_app by assumption. reflexivity.
Qed.

Lemma account_flag_withheld_witness :
  account (parseArgs (["-v"] ++ "--account" :: "work" :: ["--resume"; "abc123"]))
  = Some "work" /\
  claudeArgs (parseArgs (["-v"] ++ "--account" :: "work" :: ["--resume"; "abc123"]))
  = separate ["-v"] ++ separate ["--resume"; "abc123"].
Proof.
  apply (account_flag_withheld ["-v"] ["--resume"; "abc123"] "work").
  - intros [H|[]]. discriminate.
  - intros [H|[]]. discriminate.
Defined.

End CliFacts.


(* ================================================================== *)
(** ** Finding the conversation to resume *)
(* ================================================================== *)

Module ConversationFacts.
Import Conversations.
Local Open Scope string_scope.
Local Open Scope list_scope.

(** *** The order on strings *)

Lemma ascii_compare_spec (a b : ascii) :
  CompareSpec (a = b) (N_of_ascii a < N_of_ascii b)%N
              (N_of_ascii b < N_of_ascii a)%N (Ascii.compare a b).
Proof.
  unfold Ascii.compare. destruct (N.compare_spec (N_of_ascii a) (N_of_ascii b)) as [E|E|E];
    constructor; try assumption.
  rewrite <- (ascii_N_embedding a), <- (ascii_N_embedding b), E. reflexivity.
Qed.

Lemma ascii_compare_lt (a b : ascii) :
  (N_of_ascii a < N_of_ascii b)%N -> Ascii.compare a b = Lt.
Proof. intro H. unfold Ascii.compare. apply N.compare_lt_iff, H. Qed.

Lemma ascii_compare_refl (a : ascii) : Ascii.compare a a = Eq.
Proof. unfold Ascii.compare. apply N.compare_refl. Qed.

Lemma compare_lt_le_trans (a b c : string) :
  String.compare a b = Lt -> String.compare b c <> Gt -> String.compare a c = Lt.
Proof.
  revert b c. induction a as [|x a IH]; intros [|y b] [|z c] Hab Hbc;
    cbn in *; try congruence.
  destruct (ascii_compare_spec x y) as [->|Hxy|Hxy]; try discriminate.
  - destruct (ascii_compare_spec y z) as [->|Hyz|Hyz];
      [exact (IH b c Hab Hbc) | reflexivity | congruence].
  - destruct (ascii_compare_spec y z) as [->|Hyz|Hyz]; [| |congruence].
    + rewrite (ascii_compare_lt x z Hxy). reflexivity.
    + rewrite (ascii_compare_lt x z) by lia. reflexivity.
Qed.

Lemma compare_le_lt_trans (a b c : string) :
  String.compare a b <> Gt -> String.compare b c = Lt -> String.compare a c = Lt.
Proof.
  revert b c. induction a as [|x a IH]; intros [|y b] [|z c] Hab Hbc;
    cbn in *; try congruence.
  destruct (ascii_compare_spec y z) as [->|Hyz|Hyz]; try discriminate.
  - destruct (ascii_compare_spec x z) as [->|Hxz|Hxz];
      [exact (IH b c Hab Hbc) | reflexivity | congruence].
  - destruct (ascii_compare_spec x y) as [->|Hxy|Hxy]; [| |congruence].
    + rewrite (ascii_compare_lt y z Hyz). reflexivity.
    + rewrite (ascii_compare_lt x z) by lia. reflexivity.
Qed.

Lemma ltb_trans (a b c : string) :
  String.ltb a b = true -> String.ltb b c = true -> String.ltb a c = true.
Proof.
  unfold String.ltb. intros Hab Hbc.
  destruct (String.compare a b) eqn:Eab; try discriminate.
  destruct (String.compare b c) eqn:Ebc; try discriminate.
  rewrite (compare_lt_le_trans a b c Eab); [reflexivity | congruence].
Qed.

(** [a] not above [b], and [b] below [c]: [a] below [c]. *)
Lemma not_gt_ltb_trans (a b c : string) :
  String.ltb b a = false -> String.ltb b c = true -> String.ltb a c = true.
Proof.
  unfold String.ltb. intros Hba Hbc.
  destruct (String.compare b c) eqn:Ebc; try discriminate.
  assert (Hab : String.compare a b <> Gt).
  { rewrite String.compare_antisym.
    destruct (String.compare b a); cbn; congruence. }
  rewrite (compare_le_lt_trans a b c Hab Ebc). reflexivity.
Qed.

(** A timestamp the scan accepts is not the empty string, so it is above
    the initial [latestTimestamp]. *)
Lemma lastTimestamp_above_initial (lines : list Line) (t : string) :
  lastTimestamp lines = Some t -> String.ltb "" t = true.
Proof.
  unfold lastTimestamp. intro H.
  destruct (find JS.truthy (rev lines)) as [[t'|]|] eqn:E; try discriminate.
  injection H as ->. apply find_some in E. destruct E as [_ E].
  destruct t; [discriminate E | reflexivity].
Qed.

Lemma visit_without_timestamp (latest : string * option string) (e : Entry) :
  latestOf e = None -> visit latest e = latest.
Proof.
  unfold latestOf, visit. destruct (content e) as [lines|]; [|reflexivity].
  intros ->. reflexivity.
Qed.

Lemma visit_with_timestamp (latest : string * option string) (e : Entry)
    (t : string) :
  latestOf e = Some t ->
  visit latest e =
    if String.ltb (fst latest) t then (t, Some (sessionIdOf e)) else latest.
Proof.
  unfold latestOf, visit, JS.gt. destruct (content e) as [lines|]; [|discriminate].
  intros ->. reflexivity.
Qed.

(** The loop invariant of the scan over the files. *)
Lemma visit_tracks (seen : list Entry) (latest : string * option string)
    (e : Entry) :
  tracksLatest seen latest -> tracksLatest (seen ++ [e]) (visit latest e).
Proof.
  intro Hinv. destruct (latestOf e) as [t|] eqn:El.
  - rewrite (visit_with_timestamp latest e t El).
    destruct (String.ltb (fst latest) t) eqn:Egt.
    + (* the file takes the lead *)
      unfold tracksLatest; cbn [fst snd].
      exists seen, e, []. repeat split; try assumption; [|intros e' t' []].
      intros e' t' Hin Ht'. unfold tracksLatest in Hinv.
      destruct (snd latest) as [id|].
      * destruct Hinv as (before & e0 & after & -> & _ & He0 & Hb & Ha).
        apply in_app_or in Hin. destruct Hin as [Hin|[<-|Hin]].
        -- exact (ltb_trans _ _ _ (Hb e' t' Hin Ht') Egt).
        -- rewrite He0 in Ht'. injection Ht' as <-. exact Egt.
        -- exact (not_gt_ltb_trans _ _ _ (Ha e' t' Hin Ht') Egt).
      * destruct Hinv as [_ Hnone]. rewrite (Hnone e' Hin) in Ht'. discriminate.
    + (* the lead stays *)
      unfold tracksLatest in *. destruct (snd latest) as [id|].
      * destruct Hinv as (before & e0 & after & -> & Hid & He0 & Hb & Ha).
        exists before, e0, (after ++ [e]). repeat split; try assumption.
        -- rewrite <- app_assoc. reflexivity.
        -- intros e' t' Hin Ht'. apply in_app_or in Hin.
           destruct Hin as [Hin|[<-|[]]]; [exact (Ha e' t' Hin Ht')|].
           rewrite El in Ht'. injection Ht' as <-. exact Egt.
      * destruct Hinv as [Hempty _]. rewrite Hempty in Egt.
        unfold latestOf in El. destruct (content e) as [lines|]; [|discriminate].
        rewrite (lastTimestamp_above_initial lines t El) in Egt. discriminate.
  - rewrite (visit_without_timestamp latest e El).
    unfold tracksLatest in *. destruct (snd latest) as [id|].
    + destruct Hinv as (before & e0 & after & -> & Hid & He0 & Hb & Ha).
      exists before, e0, (after ++ [e]). repeat split; try assumption.
      * rewrite <- app_assoc. reflexivity.
      * intros e' t' Hin Ht'. apply in_app_or in Hin.
        destruct Hin as [Hin|[<-|[]]]; [exact (Ha e' t' Hin Ht')|].
        rewrite El in Ht'. discriminate.
    + destruct Hinv as [Hempty Hnone]. split; [assumption|].
      intros e' Hin. apply in_app_or in Hin.
      destruct Hin as [Hin|[<-|[]]]; [exact (Hnone e' Hin) | exact El].
Qed.

Lemma scan_tracks (files seen : list Entry) (latest : string * option string) :
  tracksLatest seen latest ->
  tracksLatest (seen ++ files) (fold_left visit files latest).
Proof.
  revert seen latest. induction files as [|e files IH]; intros seen latest Hinv.
  - rewrite app_nil_r. exact Hinv.
  - cbn [fold_left].
    replace (seen ++ e :: files) with ((seen ++ [e]) ++ files)
      by (rewrite <- app_assoc; reflexivity).
    apply IH, visit_tracks, Hinv.
Qed.

(** X18. The session [findActiveSessionId] returns is that of the first
    conversation file, in directory order, whose last timestamp no other
    conversation file exceeds: every earlier file with a timestamp is
    strictly older, no later file is newer.  It returns nothing only when
    no conversation file of the folder yields a timestamp. *)
Theorem active_session_is_latest (entries : list Entry) :
  match findActiveSessionId (Some entries) with
  | Some id =>
      exists before e after timestamp,
        filter isConversation entries = before ++ e :: after /\
        id = sessionIdOf e /\
        latestOf e = Some timestamp /\
        (forall e' t, In e' before -> latestOf e' = Some t ->
                      String.ltb t timestamp = true) /\
        (forall e' t, In e' after -> latestOf e' = Some t ->
                      String.ltb timestamp t = false)
  | None =>
      forall e, In e entries -> isConversation e = true -> latestOf e = None
  end.
Proof.
  unfold findActiveSessionId.
  pose proof (scan_tracks (filter isConversation entries) [] ("", None)) as H.
  cbn [app] in H.
  assert (H0 : tracksLatest [] ("", None)).
  { unfold tracksLatest; cbn. split; [reflexivity | intros e []]. }
  specialize (H H0). clear H0.
  destruct (List.length (filter isConversation entries) =? 0)%nat eqn:En.
  - apply Nat.eqb_eq in En. apply length_zero_iff_nil in En.
    intros e Hin Hconv.
    assert (Hf : In e (filter isConversation entries))
      by (apply filter_In; split; assumption).
    rewrite En in Hf. destruct Hf.
  - unfold tracksLatest in H.
    destruct (fold_left visit (filter isConversation entries) ("", None))
      as [timestamp [id|]]; cbn [fst snd] in *.
    + destruct H as (before & e & after & Hs & Hid & He & Hb & Ha).
      exists before, e, after, timestamp. repeat split; assumption.
    + destruct H as [_ Hnone]. intros e Hin Hconv.
      apply Hnone, filter_In. split; assumption.
Qed.

(** [jsonl] cannot begin inside a name and end inside the extension. *)
Lemma prefix_after_dot (name : string) :
  String.prefix "jsonl" (name ++ ".jsonl") = true ->
  String.prefix "jsonl" name = true.
Proof.
  intro H. apply JSFacts.prefix_spec in H. destruct H as [rest H].
  apply JSFacts.prefix_spec.
  destruct name as [|c1 name]; [discriminate H|]. injection H as -> H.
  destruct name as [|c2 name]; [discriminate H|]. injection H as -> H.
  destruct name as [|c3 name]; [discriminate H|]. injection H as -> H.
  destruct name as [|c4 name]; [discriminate H|]. injection H as -> H.
  destruct name as [|c5 name]; [discriminate H|]. injection H as -> H.
  exists name. reflexivity.
Qed.

(** X19. The session id of a conversation file is its name without the
    [.jsonl] extension, provided the name holds [.jsonl] nowhere else. *)
Theorem session_id_strips_extension (name : string) (lines : option (list Line)) :
  JS.includes name ".jsonl" = false ->
  sessionIdOf {| fileName := name ++ ".jsonl"; content := lines |} = name.
Proof.
  unfold sessionIdOf; cbn [fileName]. induction name as [|c name IH]; intro H.
  - reflexivity.
  - cbn [JS.includes] in H. apply orb_false_elim in H. destruct H as [Hp Hi].
    cbn [append JS.replaceFirst].
    destruct (String.prefix ".jsonl" (String c (name ++ ".jsonl"))) eqn:Ep.
    + exfalso. apply JSFacts.prefix_spec in Ep. destruct Ep as [rest Ep].
      injection Ep as -> Ep.
      assert (Hj : String.prefix "jsonl" name = true).
      { apply prefix_after_dot, JSFacts.prefix_spec. exists rest. exact Ep. }
      apply JSFacts.prefix_spec in Hj. destruct Hj as [r ->].
      assert (Hc : String.prefix ".jsonl" (String "." ("jsonl" ++ r)) = true)
        by (apply JSFacts.prefix_spec; exists r; reflexivity).
      rewrite Hc in Hp. discriminate Hp.
    + rewrite (IH Hi). reflexivity.
Qed.

Lemma session_id_strips_extension_witness :
  JS.includes "3f2a" ".jsonl" = false /\
  sessionIdOf {| fileName := "3f2a.jsonl"; content := None |} = "3f2a".
Proof.
  split; [reflexivity|].
  exact (session_id_strips_extension "3f2a" None eq_refl).
Defined.

End ConversationFacts.

(* ================================================================== *)
(** ** The switch menu *)
(* ================================================================== *)

Module SwitchMenuFacts.
Import Api Selector SwitchMenu.
Local Open Scope string_scope.
Local Open Scope list_scope.

Lemma options_accounts (k : nat) (best : option string) (current : string)
    (usages : list APIUsageData) :
  map optionAccount (optionsFrom k best current usages) =
  filter (other current) (map accountName usages).
Proof.
  revert k. induction usages as [|u usages IH]; intro k; [reflexivity|].
  cbn [optionsFrom map filter]. unfold other at 1.
  destruct (negb (accountName u =? current)); cbn [map];
    rewrite IH; reflexivity.
Qed.

Lemma options_numbers (k : nat) (best : option string) (current : string)
    (usages : list APIUsageData) :
  map number (optionsFrom k best current usages) =
  seq k (List.length (optionsFrom k best current usages)).
Proof.
  revert k. induction usages as [|u usages IH]; intro k; [reflexivity|].
  cbn [optionsFrom]. destruct (negb (accountName u =? current)).
  - cbn [map List.length seq number]. rewrite IH. reflexivity.
  - apply IH.
Qed.

Lemma options_recommended (k : nat) (best : option string) (current : string)
    (usages : list APIUsageData) (opt : SwitchOption) :
  In opt (optionsFrom k best current usages) ->
  isRecommended opt =
    match best with
    | Some b => optionAccount opt =? b
    | None => false
    end.
Proof.
  revert k. induction usages as [|u usages IH]; intros k Hin; [destruct Hin|].
  cbn [optionsFrom] in Hin. destruct (negb (accountName u =? current)).
  - destruct Hin as [<-|Hin]; [reflexivity | exact (IH _ Hin)].
  - exact (IH _ Hin).
Qed.

(** X20. The switch menu offers every account but the current one, in the
    order of the usage list and numbered from 1 without a gap, whether or
    not its snapshot carries an error or has any capacity left. *)
Theorem menu_offers_every_other_account (now : JS.number)
    (isProcessRunning : Z -> bool) (file : StateFile)
    (usages : list APIUsageData) (currentAccount : string) :
  match renderSwitchMenu now isProcessRunning file usages currentAccount with
  | JS.Returns options =>
      map optionAccount options =
        filter (other currentAccount) (map accountName usages) /\
      map number options = seq 1 (List.length options)
  | JS.Throws => True
  end.
Proof.
  unfold renderSwitchMenu.
  destruct (selectBestAccount now isProcessRunning file usages (Some currentAccount))
    as [best|]; [|exact I].
  split; [apply options_accounts | apply options_numbers].
Qed.

(** X21. The option the menu marks as recommended is the account
    [selectBestAccount] picks with the current account excluded, and no
    other option is marked. *)
Theorem menu_recommends_selection (now : JS.number)
    (isProcessRunning : Z -> bool) (file : StateFile)
    (usages : list APIUsageData) (currentAccount : string)
    (options : list SwitchOption) (opt : SwitchOption) :
  renderSwitchMenu now isProcessRunning file usages currentAccount
    = JS.Returns options ->
  In opt options ->
  (isRecommended opt = true <->
   exists selection,
     selectBestAccount now isProcessRunning file usages (Some currentAccount)
       = JS.Returns (Some selection) /\
     sel_accountName selection = optionAccount opt).
Proof.
  unfold renderSwitchMenu.
  destruct (selectBestAccount now isProcessRunning file usages (Some currentAccount))
    as [best|]; [|discriminate].
  intros [= <-] Hin. rewrite (options_recommended _ _ _ _ _ Hin).
  destruct best as [selection|]; cbn [option_map].
  - rewrite String.eqb_eq. split.
    + intro E. exists selection. split; [reflexivity | symmetry; exact E].
    + intros (selection' & [= <-] & E). symmetry. exact E.
  - split; [discriminate | intros (selection' & [=] & _)].
Qed.

Lemma menu_recommends_selection_witness :
  renderSwitchMenu 0 (fun _ => true) None (Scenarios.twoAccounts 0) "a"
    = JS.Returns [{| number := 1; optionAccount := "b"; isRecommended := true |}] /\
  (true = true <->
   exists selection,
     selectBestAccount 0 (fun _ => true) None (Scenarios.twoAccounts 0) (Some "a")
       = JS.Returns (Some selection) /\
     sel_accountName selection = "b").
Proof.
  split; [vm_compute; reflexivity|].
  exact (menu_recommends_selection 0 (fun _ => true) None
           (Scenarios.twoAccounts 0) "a"
           [{| number := 1; optionAccount := "b"; isRecommended := true |}]
           {| number := 1; optionAccount := "b"; isRecommended := true |}
           eq_refl (or_introl eq_refl)).
Defined.

Lemma digit_at_most_nine (c : ascii) (n : nat) :
  digitOf c = Some n -> (n <= 9)%nat.
Proof.
  unfold digitOf.
  destruct ((48 <=? nat_of_ascii c)%nat && (nat_of_ascii c <=? 57)%nat) eqn:E;
    [|discriminate].
  apply andb_prop in E. destruct E as [Hlo Hhi].
  apply Nat.leb_le in Hlo, Hhi. intros [= <-]. lia.
Qed.

Lemma key_in_range (data : string) (maxOption n : nat) :
  keysPressed data maxOption = Some (Some n) ->
  (1 <= n <= maxOption)%nat /\ (n <= 9)%nat.
Proof.
  induction data as [|char rest IH]; cbn [keysPressed]; [discriminate|].
  destruct (Ascii.eqb char "027"); [discriminate|].
  destruct (maxOption =? 0)%nat; [discriminate|].
  destruct (digitOf char) as [num|] eqn:Ed; [|exact IH].
  destruct ((1 <=? num)%nat && (num <=? maxOption)%nat) eqn:E; [|exact IH].
  intros [= <-]. apply andb_prop in E. destruct E as [Hlo Hhi].
  apply Nat.leb_le in Hlo, Hhi. split; [lia | exact (digit_at_most_nine _ _ Ed)].
Qed.

(** X22. A choice made in the switch menu is the number of an option on
    display and at most 9: an option numbered 10 or more cannot be chosen,
    however many accounts the menu lists. *)
Theorem selection_within_menu (chunks : list string) (maxOption n : nat) :
  waitForSelection chunks maxOption = Some (Some n) ->
  (1 <= n <= maxOption)%nat /\ (n <= 9)%nat.
Proof.
  induction chunks as [|data rest IH]; cbn [waitForSelection]; [discriminate|].
  destruct (keysPressed data maxOption) as [selection|] eqn:Ek; [|exact IH].
  intros [= ->]. exact (key_in_range _ _ _ Ek).
Qed.

Lemma selection_within_menu_witness :
  waitForSelection ["x"; "12"] 12 = Some (Some 1%nat) /\
  (1 <= 1 <= 12)%nat /\ (1 <= 9)%nat.
Proof.
  split; [reflexivity|].
  exact (selection_within_menu ["x"; "12"] 12 1 eq_refl).
Defined.

(** X23. Whatever keys are pressed in the switch menu, a relaunch it
    causes is on an account of the usage list other than the current one,
    with the arguments of a manual switch that resumes the session; the
    menu never restarts Claude on the account it already runs on. *)
Theorem menu_switch_leaves_current (c : Launcher.Controller) (now : JS.number)
    (isProcessRunning : Z -> bool) (file : StateFile)
    (usages : list APIUsageData) (chunks : list string)
    (w : Launcher.World) (f : Launcher.Flags)
    (account : string) (args : list string) (usage : list APIUsageData) :
  In (Launcher.Launch account args usage)
     (snd (switchHandler c now isProcessRunning file usages chunks w f)) ->
  account <> Launcher.accountName c /\
  In account (map accountName usages) /\
  args = Launcher.switchResumeArgs (Launcher.activeSessionId w)
                                   (Launcher.claudeArgs c).
Proof.
  unfold switchHandler, renderSwitchMenu.
  destruct (selectBestAccount now isProcessRunning file usages
              (Some (Launcher.accountName c))) as [best|]; [|intros []].
  pose proof (options_accounts 1 (option_map sel_accountName best)
                (Launcher.accountName c) usages) as Hacc.
  set (options := optionsFrom 1 (option_map sel_accountName best)
                    (Launcher.accountName c) usages) in *.
  clearbody options.
  destruct (waitForSelection chunks (List.length options)) as [selection|];
    [|intros []].
  unfold selectedAccount.
  destruct selection as [[|index]|]; try (intros []).
  destruct (nth_error options index) as [opt|] eqn:En; [|intros []].
  destruct (JS.truthy (Some (optionAccount opt))); [|intros []].
  unfold Launcher.switchAccount; cbn [snd]. intro Hin.
  destruct Hin as [H|[H|[H|[]]]]; try discriminate H.
  injection H as <- <- _.
  assert (Hopt : In (optionAccount opt)
                    (filter (other (Launcher.accountName c)) (map accountName usages))).
  { rewrite <- Hacc. apply in_map. exact (nth_error_In _ _ En). }
  apply filter_In in Hopt. destruct Hopt as [Hin Hother].
  repeat split; try assumption.
  unfold other in Hother. apply negb_true_iff, String.eqb_neq in Hother.
  exact Hother.
Qed.

Lemma menu_switch_leaves_current_witness :
  "b" <> "a" /\
  In "b" (map accountName (Scenarios.twoAccounts 0)) /\
  ["--resume"; "s1"; "--model"; "opus"] =
    Launcher.switchResumeArgs (Some "s1") ["--model"; "opus"].
Proof.
  exact (menu_switch_leaves_current
           (Scenarios.controllerOnA 0 ["--model"; "opus"]) 0 (fun _ => true) None
           (Scenarios.twoAccounts 0) ["1"]
           (Scenarios.worldAt 0 (Some "s1")) Launcher.launched
           "b" ["--resume"; "s1"; "--model"; "opus"] (Scenarios.twoAccounts 0)
           (or_intror (or_intror (or_introl eq_refl)))).
Defined.

End SwitchMenuFacts.

(* ================================================================== *)
(** ** Keyboard relay *)
(* ================================================================== *)

Module StdinFacts.
Import Stdin.
Local Open Scope list_scope.
Local Open Scope string_scope.

Lemma written_app (a b : list Effect) :
  written (a ++ b)%list = written a ++ written b.
Proof.
  induction a as [|e a IH]; [reflexivity|].
  destruct e; cbn [app written]; rewrite ?IH, ?JSFacts.append_assoc; reflexivity.
Qed.

Lemma flush_keeps (buffer : string) (k : Keyboard) :
  written (snd (flush buffer k)) ++ fst (flush buffer k) = buffer /\
  existsb isFunctionKeyCall (snd (flush buffer k)) = false.
Proof.
  unfold flush. destruct ((0 <? String.length buffer)%nat && ptyProcess k); cbn.
  - rewrite !JSFacts.append_empty. split; reflexivity.
  - split; reflexivity.
Qed.

Lemma existsb_call_app (a b : list Effect) :
  existsb isFunctionKeyCall (a ++ b)%list = false ->
  existsb isFunctionKeyCall a = false /\ existsb isFunctionKeyCall b = false.
Proof. rewrite existsb_app. apply orb_false_elim. Qed.

(** One event outside a function key command: what was written plus what
    is held is what was held plus what was typed. *)
Lemma step_keeps (hasF9 hasF10 : bool) (e : Event) (k : Keyboard) :
  isProcessingFunctionKey k = false ->
  existsb isFunctionKeyCall (snd (step hasF9 hasF10 e k)) = false ->
  isProcessingFunctionKey (fst (step hasF9 hasF10 e k)) = false /\
  written (snd (step hasF9 hasF10 e k)) ++ inputBuffer (fst (step hasF9 hasF10 e k))
    = inputBuffer k ++ typed [e].
Proof.
  intros Hidle. destruct e as [str| | |present|]; cbn [step typed].
  - unfold stdinHandler. rewrite Hidle.
    destruct (JS.includes (inputBuffer k ++ str) F9_SEQ && hasF9).
    { destruct (flush _ k) as [buffer effects]; cbn [snd].
      rewrite existsb_app; cbn. rewrite orb_true_r. discriminate. }
    destruct (JS.includes (inputBuffer k ++ str) F10_SEQ && hasF10).
    { destruct (flush _ k) as [buffer effects]; cbn [snd].
      rewrite existsb_app; cbn. rewrite orb_true_r. discriminate. }
    rewrite JSFacts.append_empty.
    destruct (JS.startsWith (inputBuffer k ++ str) (String ESC "")
              && (String.length (inputBuffer k ++ str) <? 5)%nat).
    + intros _. split; reflexivity.
    + pose proof (flush_keeps (inputBuffer k ++ str) k) as [Hk _].
      destruct (flush (inputBuffer k ++ str) k) as [buffer effects].
      intros _. split; [reflexivity | exact Hk].
  - unfold flushTimer. rewrite JSFacts.append_empty.
    destruct (pendingFlushes k) as [|pending].
    + intros _. split; [exact Hidle | reflexivity].
    + pose proof (flush_keeps (inputBuffer k) k) as [Hk _].
      destruct (flush (inputBuffer k) k) as [buffer effects].
      intros _. split; [exact Hidle | exact Hk].
  - intros _. rewrite JSFacts.append_empty. split; reflexivity.
  - intros _. rewrite JSFacts.append_empty. split; [exact Hidle | reflexivity].
  - intros _. rewrite JSFacts.append_empty. split; [exact Hidle | reflexivity].
Qed.

Lemma run_keeps (hasF9 hasF10 : bool) (events : list Event) (k : Keyboard) :
  isProcessingFunctionKey k = false ->
  existsb isFunctionKeyCall (snd (run hasF9 hasF10 events k)) = false ->
  written (snd (run hasF9 hasF10 events k))
    ++ inputBuffer (fst (run hasF9 hasF10 events k))
  = inputBuffer k ++ typed events.
Proof.
  revert k. induction events as [|e rest IH]; intros k Hidle Hquiet.
  - cbn. rewrite JSFacts.append_empty. reflexivity.
  - cbn [run] in *.
    pose proof (step_keeps hasF9 hasF10 e k Hidle) as Hstep.
    destruct (step hasF9 hasF10 e k) as [k1 effects].
    specialize (IH k1).
    destruct (run hasF9 hasF10 rest k1) as [k2 later]. cbn [fst snd] in *.
    apply existsb_call_app in Hquiet. destruct Hquiet as [Hq1 Hq2].
    destruct (Hstep Hq1) as [Hidle1 Hkeep].
    rewrite written_app, JSFacts.append_assoc, (IH Hidle1 Hq2).
    rewrite <- JSFacts.append_assoc, Hkeep, JSFacts.append_assoc.
    f_equal. destruct e; cbn [typed]; rewrite ?JSFacts.append_empty; reflexivity.
Qed.

(** X24. As long as no function key command is started, the keyboard
    relay neither loses, repeats nor reorders input: what was written to
    Claude so far, followed by what the relay still holds back, is exactly
    what was typed, whatever timers fired in between and whether or not
    the child is still there. *)
Theorem typed_input_reaches_claude (hasF9 hasF10 : bool) (events : list Event) :
  existsb isFunctionKeyCall (snd (run hasF9 hasF10 events created)) = false ->
  written (snd (run hasF9 hasF10 events created))
    ++ inputBuffer (fst (run hasF9 hasF10 events created))
  = typed events.
Proof.
  intro Hquiet. exact (run_keeps hasF9 hasF10 events created eq_refl Hquiet).
Qed.

Lemma typed_input_reaches_claude_witness :
  written (snd (run true true
                  [Typed "ls"; Typed (String ESC "[A"); TimerFired; Typed "x"]
                  created))
    ++ inputBuffer (fst (run true true
                  [Typed "ls"; Typed (String ESC "[A"); TimerFired; Typed "x"]
                  created))
  = typed [Typed "ls"; Typed (String ESC "[A"); TimerFired; Typed "x"].
Proof.
  apply (typed_input_reaches_claude true true
           [Typed "ls"; Typed (String ESC "[A"); TimerFired; Typed "x"]).
  reflexivity.
Defined.

(** What the relay may hold back while the child runs: nothing, or the
    beginning of an escape sequence with a flush timer pending. *)
Lemma step_holds (hasF9 hasF10 : bool) (e : Event) (k : Keyboard) :
  (ptyProcess k = true ->
   inputBuffer k = "" \/
   (JS.startsWith (inputBuffer k) (String ESC "") = true /\
    (String.length (inputBuffer k) < 5)%nat /\ (0 < pendingFlushes k)%nat)) ->
  let k1 := fst (step hasF9 hasF10 e k) in
  ptyProcess k1 = true ->
  inputBuffer k1 = "" \/
  (JS.startsWith (inputBuffer k1) (String ESC "") = true /\
   (String.length (inputBuffer k1) < 5)%nat /\ (0 < pendingFlushes k1)%nat).
Proof.
  assert (Hflush : forall buffer, ptyProcess k = true -> fst (flush buffer k) = "").
  { intros buffer Hp. unfold flush. rewrite Hp, andb_true_r.
    destruct buffer; reflexivity. }
  intros Hinv. destruct e as [str| | |present|]; cbn [step].
  - unfold stdinHandler. destruct (isProcessingFunctionKey k); [exact Hinv|].
    destruct (JS.includes (inputBuffer k ++ str) F9_SEQ && hasF9).
    { specialize (Hflush (JS.replaceFirst (inputBuffer k ++ str) F9_SEQ "")).
      destruct (flush _ k) as [buffer effects]; cbn [fst snd] in *.
      intro Hp. left. exact (Hflush Hp). }
    destruct (JS.includes (inputBuffer k ++ str) F10_SEQ && hasF10).
    { specialize (Hflush (JS.replaceFirst (inputBuffer k ++ str) F10_SEQ "")).
      destruct (flush _ k) as [buffer effects]; cbn [fst snd] in *.
      intro Hp. left. exact (Hflush Hp). }
    destruct (JS.startsWith (inputBuffer k ++ str) (String ESC "")
              && (String.length (inputBuffer k ++ str) <? 5)%nat) eqn:E.
    + cbn [fst inputBuffer pendingFlushes]. intros _. right.
      apply andb_prop in E. destruct E as [E1 E2]. apply Nat.ltb_lt in E2.
      repeat split; [exact E1 | exact E2 | lia].
    + specialize (Hflush (inputBuffer k ++ str)).
      destruct (flush _ k) as [buffer effects]; cbn [fst snd] in *.
      intro Hp. left. exact (Hflush Hp).
  - unfold flushTimer. destruct (pendingFlushes k) as [|pending] eqn:Ep.
    + cbn [fst]. rewrite Ep. exact Hinv.
    + specialize (Hflush (inputBuffer k)).
      destruct (flush _ k) as [buffer effects]; cbn [fst snd] in *.
      intro Hp. left. exact (Hflush Hp).
  - exact Hinv.
  - exact Hinv.
  - cbn. discriminate.
Qed.

(** X25. After any sequence of events, unless the child has exited, the
    buffer of the keyboard relay is empty or holds the beginning of an
    escape sequence: at most four characters, the first of them ESC, and
    then a flush timer is pending. *)
Theorem held_input_is_escape_prefix (hasF9 hasF10 : bool) (events : list Event) :
  let k := fst (run hasF9 hasF10 events created) in
  ptyProcess k = false \/
  inputBuffer k = "" \/
  (JS.startsWith (inputBuffer k) (String ESC "") = true /\
   (String.length (inputBuffer k) < 5)%nat /\ (0 < pendingFlushes k)%nat).
Proof.
  cut (forall k0,
         (ptyProcess k0 = true ->
          inputBuffer k0 = "" \/
          (JS.startsWith (inputBuffer k0) (String ESC "") = true /\
           (String.length (inputBuffer k0) < 5)%nat /\ (0 < pendingFlushes k0)%nat)) ->
         let k := fst (run hasF9 hasF10 events k0) in
         ptyProcess k = true ->
         inputBuffer k = "" \/
         (JS.startsWith (inputBuffer k) (String ESC "") = true /\
          (String.length (inputBuffer k) < 5)%nat /\ (0 < pendingFlushes k)%nat)).
  { intro H. cbn zeta.
    destruct (ptyProcess (fst (run hasF9 hasF10 events created))) eqn:Ep;
      [right | left; reflexivity].
    apply (H created); [intros _; left; reflexivity | exact Ep]. }
  induction events as [|e rest IH]; intros k0 Hinv; [exact Hinv|].
  cbn [run]. pose proof (step_holds hasF9 hasF10 e k0 Hinv) as Hstep.
  destruct (step hasF9 hasF10 e k0) as [k1 effects]. cbn [fst] in Hstep.
  specialize (IH k1 Hstep).
  destruct (run hasF9 hasF10 rest k1) as [k2 later]. exact IH.
Qed.

End StdinFacts.

(* ================================================================== *)
(** ** The calls [main] makes *)
(* ================================================================== *)

Module MainFacts.
Import Main.
Local Open Scope string_scope.
Local Open Scope list_scope.

(** When every snapshot carries an error there is no candidate, and the
    selection returns [null]. *)
Lemma select_without_snapshot (clock : nat -> Binary64.number)
    (isProcessRunning : Z -> bool) (file : Selector.StateFile)
    (usages : list Binary64.APIUsageData) :
  (forall u, In u usages -> Binary64.hasError u = true) ->
  Binary64.selectBestAccount clock isProcessRunning file usages None
  = JS.Returns None.
Proof.
  intro H. unfold Binary64.selectBestAccount.
  destruct (List.length usages =? 0)%nat; [reflexivity|].
  replace (filter (Binary64.eligible None) usages) with (@nil Binary64.APIUsageData).
  - reflexivity.
  - symmetry. apply ListFacts.filter_none. intros u Hu.
    unfold Binary64.eligible. rewrite (H u Hu). reflexivity.
Qed.

Lemma session_without_snapshot (args : Cli.CliArgs) (config : Config)
    (env : Surroundings) :
  JS.truthy (Cli.account args) = false ->
  (forall u, In u (fetchedUsage env) -> Binary64.hasError u = true) ->
  startSession args config env = [GetAllAPIUsage; ProcessExit 1].
Proof.
  intros Hacc Herr. unfold startSession. rewrite Hacc. cbn [negb].
  rewrite (select_without_snapshot _ _ _ _ Herr). reflexivity.
Qed.

(** X27. Without an account named on the command line and with every
    usage snapshot carrying an error (or none fetched), [main] calls
    neither [launchClaudeWithPty] nor [launchClaudeFallback].  When the run
    gets as far as choosing an account (no help, no account to add, no MCP
    arguments, no list, usage, score or sync mode, a configuration that
    loads and validates), it makes exactly these calls: [loadConfig],
    [validateConfig], [getAllAPIUsage], [process.exit(1)]; [runSync] is not
    among them.  What [addAccount], [handleMcpCommand] and the token
    refresh of [getAllAPIUsage] run by themselves is not a call of
    [main]. *)
Theorem session_needs_a_snapshot (args : Cli.CliArgs) (env : Surroundings) :
  JS.truthy (Cli.account args) = false ->
  (forall u, In u (fetchedUsage env) -> Binary64.hasError u = true) ->
  (forall c, In c (main args env) -> launchOf c = None) /\
  (forall config,
     Cli.help args = false ->
     configExists env = true ->
     loadConfig env = JS.Returns config ->
     JS.truthy (Cli.addAccount args) = false ->
     validateConfig (pathExists env) config = true ->
     Cli.mcpArgs args = None ->
     Cli.list args = false -> Cli.usage args = false ->
     Cli.score args = false -> Cli.sync args = false ->
     main args env = [LoadConfig; ValidateConfig; GetAllAPIUsage; ProcessExit 1]).
Proof.
  intros Hacc Herr. split.
  - unfold main.
    destruct (Cli.help args); [intros c [<-|[]]; reflexivity|].
    destruct (configExists env); cbn [negb];
      [|destruct (setupCompleted env); intros c [<-|[<-|[]]]; reflexivity].
    destruct (loadConfig env) as [config|];
      [|intros c [<-|[<-|[]]]; reflexivity].
    destruct (if JS.truthy (Cli.addAccount args) then Cli.addAccount args else None);
      [intros c [<-|[<-|[<-|[]]]]; reflexivity|].
    destruct (validateConfig (pathExists env) config); cbn [negb];
      [|intros c [<-|[<-|[<-|[]]]]; reflexivity].
    destruct (Cli.mcpArgs args); [intros c [<-|[<-|[<-|[]]]]; reflexivity|].
    destruct (Cli.list args); [intros c [<-|[<-|[<-|[]]]]; reflexivity|].
    destruct (Cli.usage args); [intros c [<-|[<-|[<-|[<-|[]]]]]; reflexivity|].
    destruct (Cli.score args); [intros c [<-|[<-|[<-|[<-|[]]]]]; reflexivity|].
    destruct (Cli.sync args); [intros c [<-|[<-|[<-|[]]]]; reflexivity|].
    rewrite (session_without_snapshot args config env Hacc Herr).
    intros c [<-|[<-|[<-|[<-|[]]]]]; reflexivity.
  - intros config Hhelp Hexists Hload Hadd Hvalid Hmcp Hlist Husage Hscore Hsync.
    unfold main.
    rewrite Hhelp, Hexists, Hload, Hadd, Hvalid, Hmcp, Hlist, Husage, Hscore, Hsync.
    cbn [negb].
    rewrite (session_without_snapshot args config env Hacc Herr). reflexivity.
Qed.

Lemma session_needs_a_snapshot_witness :
  main (Cli.parseArgs ["--model"; "opus"])
    {| configExists := true;
       setupCompleted := false;
       loadConfig :=
         JS.Returns {| accounts := [("a", "/home/u/.claude-a")];
                       masterFolder := "/home/u/.claude-master";
                       syncOnStart := true |};
       pathExists := fun _ => true;
       accountAdded := false;
       fetchedUsage := [NearTies.failed "a" "No OAuth token found"];
       stateFile := None;
       isProcessRunning := fun _ => true;
       clock := NearTies.steady |}
  = [LoadConfig; ValidateConfig; GetAllAPIUsage; ProcessExit 1].
Proof.
  refine (proj2 (session_needs_a_snapshot (Cli.parseArgs ["--model"; "opus"]) _ _ _)
                _ _ _ _ _ _ _ _ _ _ _); try reflexivity.
  intros u [<-|[]]. reflexivity.
Defined.

(** The calls of the end of [main]: a launch is the last of them, on the
    account that was checked. *)
Lemma launch_call (args : Cli.CliArgs) (config : Config)
    (accountToUse : string) (usageData : list Binary64.APIUsageData)
    (c : Call) (account : string) (claudeArgs : list string)
    (wrapper : option (list Binary64.APIUsageData)) :
  In c (launch args config accountToUse usageData) ->
  launchOf c = Some (account, claudeArgs, wrapper) ->
  accountToUse = account /\
  claudeArgs = Cli.claudeArgs args /\
  found (lookupAccount config account) = true /\
  match wrapper with
  | Some usage =>
      Cli.noAutoSwitch args = false /\ usage = usageData /\ usage <> []
  | None => Cli.noAutoSwitch args = true \/ usageData = []
  end.
Proof.
  unfold launch. intros Hin Hl.
  destruct (found (lookupAccount config accountToUse)) eqn:Hp; cbn [negb] in Hin;
    [|destruct Hin as [<-|[]]; discriminate Hl].
  assert (Hsync : forall last,
            In c ((if syncOnStart config then [RunSync] else []) ++ [last]) ->
            c = last).
  { intros last H. apply in_app_or in H. destruct H as [H|[<-|[]]]; [|reflexivity].
    destruct (syncOnStart config); [destruct H as [<-|[]]; discriminate Hl
                                   | destruct H]. }
  destruct (Cli.noAutoSwitch args) eqn:Hno; cbn [negb andb] in Hin.
  - apply Hsync in Hin. subst c. cbn in Hl. injection Hl as <- <- <-.
    repeat split; try assumption. left. reflexivity.
  - destruct (0 <? List.length usageData)%nat eqn:Hlen;
      apply Hsync in Hin; subst c; cbn in Hl; injection Hl as <- <- <-;
      repeat split; try assumption.
    + intro E. rewrite E in Hlen. discriminate Hlen.
    + right. destruct usageData; [reflexivity | discriminate Hlen].
Qed.

Lemma session_launch (args : Cli.CliArgs) (config : Config) (env : Surroundings)
    (c : Call) (account : string) (claudeArgs : list string)
    (wrapper : option (list Binary64.APIUsageData)) :
  In c (startSession args config env) ->
  launchOf c = Some (account, claudeArgs, wrapper) ->
  claudeArgs = Cli.claudeArgs args /\
  found (lookupAccount config account) = true /\
  (if JS.truthy (Cli.account args) then Cli.account args = Some account
   else exists selection,
          Binary64.selectBestAccount (clock env) (isProcessRunning env)
            (stateFile env) (fetchedUsage env) None
            = JS.Returns (Some selection) /\
          Binary64.sel_accountName selection = account) /\
  match wrapper with
  | Some usageData =>
      Cli.noAutoSwitch args = false /\
      usageData = fetchedUsage env /\ usageData <> []
  | None => Cli.noAutoSwitch args = true \/ fetchedUsage env = []
  end.
Proof.
  unfold startSession.
  destruct (JS.truthy (Cli.account args)) eqn:Hacc; cbn [negb].
  - destruct (Cli.account args) as [accountToUse|]; [|discriminate Hacc].
    destruct (Cli.noAutoSwitch args) eqn:Hno; cbn [negb].
    + intros Hin Hl.
      destruct (launch_call _ _ _ _ _ _ _ _ Hin Hl) as (-> & Hargs & Hpath & Hw).
      split; [exact Hargs|]. split; [exact Hpath|]. split; [reflexivity|].
      destruct wrapper as [usage|].
      * destruct Hw as (Hno' & _). rewrite Hno in Hno'. discriminate Hno'.
      * left. reflexivity.
    + intros [<-|Hin] Hl; [discriminate Hl|].
      destruct (launch_call _ _ _ _ _ _ _ _ Hin Hl) as (-> & Hargs & Hpath & Hw).
      split; [exact Hargs|]. split; [exact Hpath|]. split; [reflexivity|].
      destruct wrapper as [usage|].
      * destruct Hw as (_ & Hu & Hne).
        split; [assumption || reflexivity|]. split; [exact Hu | exact Hne].
      * destruct Hw as [Hw|Hw]; [congruence | right; exact Hw].
  - intros [<-|Hin] Hl; [discriminate Hl|]. revert Hin.
    destruct (Binary64.selectBestAccount (clock env) (isProcessRunning env)
                (stateFile env) (fetchedUsage env) None) as [[selection|]|];
      try (intros [<-|[]]; discriminate Hl).
    intro Hin.
    destruct (launch_call _ _ _ _ _ _ _ _ Hin Hl) as (Hname & Hargs & Hpath & Hw).
    split; [exact Hargs|]. split; [exact Hpath|].
    split; [exists selection; split; [reflexivity | exact Hname]|].
    exact Hw.
Qed.

(** X28. Every call [main] makes of [launchClaudeWithPty] or
    [launchClaudeFallback] is with exactly the arguments [parseArgs] set
    aside for claude and on an account name that [config.accounts[name]]
    answers to with a truthy value: an own key with a non-empty path, or a
    name the object inherits, such as [toString].  The account is the one
    named with [--account] if one was named, whatever its usage, and
    otherwise the one [selectBestAccount] returns for the fetched
    snapshots.  [launchClaudeWithPty], which alone can fail over, is called
    only without [--no-auto-switch] and with the fetched usage list, which
    is then not empty.  The runs of claude inside [addAccount] and
    [handleMcpCommand] are not such calls. *)
Theorem launch_is_on_chosen_account (args : Cli.CliArgs) (env : Surroundings)
    (c : Call) (account : string) (claudeArgs : list string)
    (wrapper : option (list Binary64.APIUsageData)) :
  In c (main args env) ->
  launchOf c = Some (account, claudeArgs, wrapper) ->
  claudeArgs = Cli.claudeArgs args /\
  (exists config,
     loadConfig env = JS.Returns config /\
     found (lookupAccount config account) = true /\
     ((exists path, In (account, path) (accounts config) /\ path <> "") \/
      In account objectPrototypeKeys)) /\
  (if JS.truthy (Cli.account args) then Cli.account args = Some account
   else exists selection,
          Binary64.selectBestAccount (clock env) (isProcessRunning env)
            (stateFile env) (fetchedUsage env) None
            = JS.Returns (Some selection) /\
          Binary64.sel_accountName selection = account) /\
  match wrapper with
  | Some usageData =>
      Cli.noAutoSwitch args = false /\
      usageData = fetchedUsage env /\ usageData <> []
  | None => Cli.noAutoSwitch args = true \/ fetchedUsage env = []
  end.
Proof.
  unfold main.
  destruct (Cli.help args); [intros [<-|[]] Hl; discriminate Hl|].
  destruct (configExists env); cbn [negb];
    [|destruct (setupCompleted env); intros [<-|[<-|[]]] Hl; discriminate Hl].
  destruct (loadConfig env) as [config|];
    [|intros [<-|[<-|[]]] Hl; discriminate Hl].
  destruct (if JS.truthy (Cli.addAccount args) then Cli.addAccount args else None);
    [intros [<-|[<-|[<-|[]]]] Hl; discriminate Hl|].
  destruct (validateConfig (pathExists env) config); cbn [negb];
    [|intros [<-|[<-|[<-|[]]]] Hl; discriminate Hl].
  destruct (Cli.mcpArgs args); [intros [<-|[<-|[<-|[]]]] Hl; discriminate Hl|].
  destruct (Cli.list args); [intros [<-|[<-|[<-|[]]]] Hl; discriminate Hl|].
  destruct (Cli.usage args); [intros [<-|[<-|[<-|[<-|[]]]]] Hl; discriminate Hl|].
  destruct (Cli.score args); [intros [<-|[<-|[<-|[<-|[]]]]] Hl; discriminate Hl|].
  destruct (Cli.sync args); [intros [<-|[<-|[<-|[]]]] Hl; discriminate Hl|].
  intros [<-|[<-|Hin]] Hl; try discriminate Hl.
  destruct (session_launch args config env c account claudeArgs wrapper Hin Hl)
    as (Hargs & Hpath & Hacc & Hw).
  split; [exact Hargs|]. split; [|split; [exact Hacc | exact Hw]].
  exists config. split; [reflexivity|]. split; [exact Hpath|].
  revert Hpath. unfold lookupAccount.
  destruct (find (fun entry => fst entry =? account) (accounts config))
    as [[name path]|] eqn:Ef.
  - intro Hpath. left. exists path.
    apply find_some in Ef. destruct Ef as [Hin' Hname]. cbn [fst] in Hname.
    apply String.eqb_eq in Hname. subst name. split; [exact Hin'|].
    intros ->. discriminate Hpath.
  - destruct (existsb (String.eqb account) objectPrototypeKeys) eqn:Ei;
      [|discriminate].
    intros _. right. apply existsb_exists in Ei. destruct Ei as (k & Hk & E).
    apply String.eqb_eq in E. subst k. exact Hk.
Qed.

Lemma launch_is_on_chosen_account_witness :
  ["--model"; "opus"] = Cli.claudeArgs (Cli.parseArgs
     ["--account"; "a"; "--model"; "opus"; "--no-auto-switch"]) /\
  Cli.account (Cli.parseArgs
     ["--account"; "a"; "--model"; "opus"; "--no-auto-switch"]) = Some "a" /\
  (Cli.noAutoSwitch (Cli.parseArgs
     ["--account"; "a"; "--model"; "opus"; "--no-auto-switch"]) = true \/
   [NearTies.failed "a" "No OAuth token found"] = []).
Proof.
  pose (env :=
    {| configExists := true;
       setupCompleted := false;
       loadConfig :=
         JS.Returns {| accounts := [("a", "/home/u/.claude-a")];
                       masterFolder := "/home/u/.claude-master";
                       syncOnStart := false |};
       pathExists := fun _ => true;
       accountAdded := false;
       fetchedUsage := [NearTies.failed "a" "No OAuth token found"];
       stateFile := None;
       isProcessRunning := fun _ => true;
       clock := NearTies.steady |}).
  destruct (launch_is_on_chosen_account
              (Cli.parseArgs ["--account"; "a"; "--model"; "opus"; "--no-auto-switch"])
              env (LaunchClaudeFallback "a" ["--model"; "opus"])
              "a" ["--model"; "opus"] None
              (or_intror (or_intror (or_introl eq_refl))) eq_refl)
    as (Hargs & _ & Hacc & Hw).
  split; [exact Hargs|]. split; [exact Hacc | exact Hw].
Defined.

(** A name the accounts object inherits passes the check of [main]
    although no account of that name is configured. *)
Example inherited_name_passes_account_check :
  main (Cli.parseArgs ["--account"; "toString"; "--no-auto-switch"])
    {| configExists := true;
       setupCompleted := false;
       loadConfig :=
         JS.Returns {| accounts := [("a", "/home/u/.claude-a")];
                       masterFolder := "/home/u/.claude-master";
                       syncOnStart := false |};
       pathExists := fun _ => true;
       accountAdded := false;
       fetchedUsage := [];
       stateFile := None;
       isProcessRunning := fun _ => true;
       clock := NearTies.steady |}
  = [LoadConfig; ValidateConfig; LaunchClaudeFallback "toString" []].
Proof.
  reflexivity.
Qed.

(** [hub --add-account NAME] hands over to [addAccount], which runs claude
    by itself, before the configuration is validated. *)
Example add_account_precedes_validation :
  main (Cli.parseArgs ["--add-account"; "work"])
    {| configExists := true;
       setupCompleted := false;
       loadConfig :=
         JS.Returns {| accounts := [];
                       masterFolder := "/home/u/.claude-master";
                       syncOnStart := false |};
       pathExists := fun _ => true;
       accountAdded := true;
       fetchedUsage := [];
       stateFile := None;
       isProcessRunning := fun _ => true;
       clock := NearTies.steady |}
  = [LoadConfig; AddAccount "work"; ProcessExit 0].
Proof.
  reflexivity.
Qed.

End MainFacts.

(* ================================================================== *)
(** ** The order of the doubles and the sign of a difference *)
(* ================================================================== *)

Module FloatFacts.
Import Floats.SpecFloat.
Import PrimFloat.
Local Open Scope Z_scope.

Local Abbreviation rankOf := Binary64.rankOf.
Local Abbreviation rank := Binary64.rank.

Local Abbreviation prec := FloatOps.prec.
Local Abbreviation emax := FloatOps.emax.

Lemma digits_bounds (m : positive) :
  2 ^ (Zpos (digits2_pos m) - 1) <= Zpos m < 2 ^ Zpos (digits2_pos m).
Proof.
  induction m as [m IH|m IH|]; cbn [digits2_pos].
  - rewrite Pos2Z.inj_succ.
    replace (Z.succ (Zpos (digits2_pos m)) - 1) with (Z.succ (Zpos (digits2_pos m) - 1)) by lia.
    rewrite !Z.pow_succ_r by lia. lia.
  - rewrite Pos2Z.inj_succ.
    replace (Z.succ (Zpos (digits2_pos m)) - 1) with (Z.succ (Zpos (digits2_pos m) - 1)) by lia.
    rewrite !Z.pow_succ_r by lia. lia.
  - cbn. lia.
Qed.

(** What validity says about a finite float. *)
Lemma bounded_spec (m : positive) (e : Z) :
  bounded prec emax m e = true ->
  -1074 <= e <= 971 /\ Zpos (digits2_pos m) <= 53 /\
  (-1074 < e -> Zpos (digits2_pos m) = 53).
Proof.
  unfold bounded, canonical_mantissa, fexp, emin, FloatOps.prec, FloatOps.emax.
  intro H. apply andb_prop in H. destruct H as [H1 H2].
  apply Z.eqb_eq in H1. apply Z.leb_le in H2. lia.
Qed.

Lemma pow2_pos (k : Z) : 0 <= k -> 0 < 2 ^ k.
Proof. intro H. apply Z.pow_pos_nonneg; lia. Qed.

Lemma finite_rank_bounds (m : positive) (e : Z) :
  bounded prec emax m e = true ->
  0 < Zpos m * 2 ^ (e + 1074) < 2 ^ 2098.
Proof.
  intro H. destruct (bounded_spec m e H) as (He & Hd & _).
  pose proof (digits_bounds m) as [_ Hm].
  pose proof (pow2_pos (e + 1074) ltac:(lia)) as Hp.
  split; [lia|].
  assert (Hm' : Zpos m < 2 ^ 53).
  { eapply Z.lt_le_trans; [exact Hm|]. apply Z.pow_le_mono_r; lia. }
  assert (Hle : 2 ^ 53 * 2 ^ (e + 1074) <= 2 ^ 2098).
  { rewrite <- Z.pow_add_r by lia. apply Z.pow_le_mono_r; lia. }
  nia.
Qed.

(** A greater exponent means a greater value. *)
Lemma exponent_orders (m1 m2 : positive) (e1 e2 : Z) :
  bounded prec emax m1 e1 = true -> bounded prec emax m2 e2 = true ->
  e1 < e2 ->
  Zpos m1 * 2 ^ (e1 + 1074) < Zpos m2 * 2 ^ (e2 + 1074).
Proof.
  intros H1 H2 Hlt.
  destruct (bounded_spec m1 e1 H1) as (He1 & Hd1 & _).
  destruct (bounded_spec m2 e2 H2) as (He2 & _ & Hd2).
  specialize (Hd2 ltac:(lia)).
  pose proof (digits_bounds m1) as [_ Hm1].
  pose proof (digits_bounds m2) as [Hm2 _]. rewrite Hd2 in Hm2.
  assert (Hm1' : Zpos m1 < 2 ^ 53).
  { eapply Z.lt_le_trans; [exact Hm1|]. apply Z.pow_le_mono_r; lia. }
  pose proof (pow2_pos (e1 + 1074) ltac:(lia)) as Hp1.
  assert (Hstep : 2 ^ 53 * 2 ^ (e1 + 1074) <= 2 ^ (53 - 1) * 2 ^ (e2 + 1074)).
  { rewrite <- !Z.pow_add_r by lia. apply Z.pow_le_mono_r; lia. }
  pose proof (pow2_pos (e2 + 1074) ltac:(lia)) as Hp2.
  nia.
Qed.

Lemma compare_scaled (m1 m2 : positive) (k : Z) :
  0 <= k ->
  (Zpos m1 * 2 ^ k ?= Zpos m2 * 2 ^ k) = Pos.compare_cont Eq m1 m2.
Proof.
  intro Hk. pose proof (pow2_pos k Hk) as Hp.
  change (Pos.compare_cont Eq m1 m2) with (Pos.compare m1 m2).
  destruct (Pos.compare_spec m1 m2) as [->|H|H].
  - apply Z.compare_refl.
  - apply Z.compare_lt_iff. apply Z.mul_lt_mono_pos_r; [exact Hp | lia].
  - apply Z.compare_gt_iff. apply Z.mul_lt_mono_pos_r; [exact Hp | lia].
Qed.

Lemma compare_opp (a b : Z) : (- a ?= - b) = CompOpp (a ?= b).
Proof. rewrite Z.compare_opp. apply Z.compare_antisym. Qed.

(** On valid floats other than NaN, comparison is comparison of ranks. *)
Lemma compare_rank (a b : spec_float) :
  valid_binary prec emax a = true -> valid_binary prec emax b = true ->
  a <> S754_nan -> b <> S754_nan ->
  SFcompare a b = Some (rankOf a ?= rankOf b).
Proof.
  intros Va Vb Na Nb.
  assert (Hinf : 0 < 2 ^ 2098) by (apply pow2_pos; lia).
  assert (Hfin : forall m e, bounded prec emax m e = true ->
            0 < Zpos m * 2 ^ (e + 1074) < 2 ^ 2098)
    by exact finite_rank_bounds.
  unfold rankOf. set (inf := 2 ^ 2098) in *. clearbody inf.
  destruct a as [sa|sa| |sa ma ea]; try congruence;
    destruct b as [sb|sb| |sb mb eb]; try congruence; cbn [valid_binary] in *;
    try (pose proof (Hfin ma ea Va)); try (pose proof (Hfin mb eb Vb));
    try solve [ destruct sa; destruct sb; cbn [SFcompare cond_Zopp];
                f_equal; symmetry;
                first [ apply Z.compare_lt_iff; lia
                      | apply Z.compare_gt_iff; lia
                      | apply Z.compare_eq_iff; lia ] ].
  - pose proof (finite_rank_bounds ma ea Va) as Ha.
    pose proof (finite_rank_bounds mb eb Vb) as Hb.
    destruct (bounded_spec ma ea Va) as (Hea & _).
    destruct (bounded_spec mb eb Vb) as (Heb & _).
    destruct sa, sb; cbn [SFcompare rankOf cond_Zopp]; f_equal.
    + rewrite compare_opp.
      destruct (Z.compare_spec ea eb) as [->|Hlt|Hgt].
      * rewrite compare_scaled by lia. reflexivity.
      * pose proof (exponent_orders _ _ _ _ Va Vb Hlt) as Ho.
        apply Z.compare_lt_iff in Ho. rewrite Ho. reflexivity.
      * pose proof (exponent_orders _ _ _ _ Vb Va Hgt) as Ho.
        apply Z.compare_gt_iff in Ho. rewrite Ho. reflexivity.
    + symmetry. apply Z.compare_lt_iff. lia.
    + symmetry. apply Z.compare_gt_iff. lia.
    + destruct (Z.compare_spec ea eb) as [->|Hlt|Hgt].
      * rewrite compare_scaled by lia. reflexivity.
      * pose proof (exponent_orders _ _ _ _ Va Vb Hlt) as Ho.
        apply Z.compare_lt_iff in Ho. rewrite Ho. reflexivity.
      * pose proof (exponent_orders _ _ _ _ Vb Va Hgt) as Ho.
        apply Z.compare_gt_iff in Ho. rewrite Ho. reflexivity.
Qed.

(** *** Subtraction: the sign of a difference *)

Lemma iter_pos_nat {A : Type} (f : A -> A) (p : positive) (x : A) :
  iter_pos f p x = Nat.iter (Pos.to_nat p) f x.
Proof.
  revert x. induction p as [p IH|p IH|]; intro x; cbn [iter_pos].
  - rewrite !IH, Pos2Nat.inj_xI.
    rewrite <- Nat.iter_add, <- Nat.iter_succ_r. f_equal. lia.
  - rewrite !IH, Pos2Nat.inj_xO. rewrite <- Nat.iter_add. f_equal. lia.
  - reflexivity.
Qed.

Lemma shr_1_digits (r : shr_record) (q : positive) :
  shr_m r = Zpos q -> (1 < digits2_pos q)%positive ->
  exists q', shr_m (shr_1 r) = Zpos q' /\
             Zpos (digits2_pos q') = Zpos (digits2_pos q) - 1.
Proof.
  destruct r as [m rb sb]. cbn [shr_m]. intros -> Hd.
  destruct q as [q|q|]; cbn [shr_1 shr_m digits2_pos] in *.
  - exists q. split; [reflexivity | lia].
  - exists q. split; [reflexivity | lia].
  - lia.
Qed.

Lemma iter_shr_1_digits (k : nat) (r : shr_record) (q : positive) :
  shr_m r = Zpos q -> Z.of_nat k < Zpos (digits2_pos q) ->
  exists q', shr_m (Nat.iter k shr_1 r) = Zpos q' /\
             Zpos (digits2_pos q') = Zpos (digits2_pos q) - Z.of_nat k.
Proof.
  induction k as [|k IH]; intros Hr Hk.
  - exists q. split; [exact Hr | cbn; lia].
  - destruct IH as (q1 & H1 & Hd1); [exact Hr | lia |].
    cbn [Nat.iter nat_rect].
    destruct (shr_1_digits _ q1 H1) as (q2 & H2 & Hd2); [lia|].
    exists q2. split; [exact H2 | lia].
Qed.

(** Shifting to the target exponent keeps a positive mantissa positive,
    provided the exponent is not below the least one. *)
Lemma shr_fexp_positive (q : positive) (e : Z) (l : location) :
  -1074 <= e ->
  exists q', shr_m (fst (shr_fexp prec emax (Zpos q) e l)) = Zpos q' /\
             -1074 <= snd (shr_fexp prec emax (Zpos q) e l).
Proof.
  intro He. unfold shr_fexp, shr, fexp, emin, FloatOps.prec, FloatOps.emax.
  cbn [Zdigits2].
  assert (Hrec : shr_m (shr_record_of_loc (Zpos q) l) = Zpos q)
    by (destruct l as [|[| |]]; reflexivity).
  destruct (Z.max (Zpos (digits2_pos q) + e - 53) (3 - 1024 - 53) - e)
    as [|n|n] eqn:En; cbn [fst snd].
  - exists q. split; [exact Hrec | exact He].
  - rewrite iter_pos_nat.
    destruct (iter_shr_1_digits (Pos.to_nat n) _ q Hrec) as (q' & Hq' & _).
    + rewrite positive_nat_Z. lia.
    + exists q'. split; [exact Hq' | lia].
  - exists q. split; [exact Hrec | exact He].
Qed.

Lemma round_nearest_even_positive (q : positive) (l : location) :
  exists q', round_nearest_even (Zpos q) l = Zpos q'.
Proof.
  destruct l as [|[| |]]; cbn [round_nearest_even].
  - exists q; reflexivity.
  - destruct (Z.even (Zpos q)); [exists q | exists (q + 1)%positive]; reflexivity.
  - exists q; reflexivity.
  - exists (q + 1)%positive; reflexivity.
Qed.

(** Rounding a positive mantissa at an exponent not below the least one
    gives a finite float or an infinity of the sign asked for, never a zero. *)
Lemma binary_round_aux_sign (sx : bool) (q : positive) (e : Z) (l : location) :
  -1074 <= e ->
  (exists m' e', binary_round_aux prec emax sx (Zpos q) e l = S754_finite sx m' e') \/
  binary_round_aux prec emax sx (Zpos q) e l = S754_infinity sx.
Proof.
  intro He. unfold binary_round_aux.
  destruct (shr_fexp_positive q e l He) as (q1 & H1 & He1).
  destruct (shr_fexp prec emax (Zpos q) e l) as [mrs1 e1]. cbn [fst snd] in *.
  rewrite H1.
  destruct (round_nearest_even_positive q1 (loc_of_shr_record mrs1)) as (q2 & ->).
  destruct (shr_fexp_positive q2 e1 loc_Exact He1) as (q3 & H3 & _).
  destruct (shr_fexp prec emax (Zpos q2) e1 loc_Exact) as [mrs2 e2].
  cbn [fst snd] in *. rewrite H3.
  destruct (e2 <=? emax - prec); [left; eauto | right; reflexivity].
Qed.

Lemma binary_round_sign (sx : bool) (q : positive) (e : Z) :
  -1074 <= e ->
  (exists m' e', binary_round prec emax sx q e = S754_finite sx m' e') \/
  binary_round prec emax sx q e = S754_infinity sx.
Proof.
  intro He. unfold binary_round.
  destruct (shl_align q e (fexp prec emax (Zpos (digits2_pos q) + e)))
    as [mz ez] eqn:Es.
  apply binary_round_aux_sign.
  unfold shl_align in Es.
  destruct (fexp prec emax (Zpos (digits2_pos q) + e) - e) eqn:Ed;
    injection Es as <- <-; try exact He.
  unfold fexp, emin, FloatOps.prec, FloatOps.emax. lia.
Qed.

Lemma iter_xO_value (m d : positive) :
  Zpos (Pos.iter xO m d) = Zpos m * 2 ^ Zpos d.
Proof.
  revert m. induction d as [|d IH] using Pos.peano_ind; intro m.
  - cbn. lia.
  - rewrite Pos.iter_succ, Pos2Z.inj_succ, Z.pow_succ_r by lia.
    rewrite Pos2Z.inj_xO, IH. lia.
Qed.

Lemma shl_align_value (m : positive) (e ez : Z) :
  ez <= e -> Zpos (fst (shl_align m e ez)) = Zpos m * 2 ^ (e - ez).
Proof.
  intro H. unfold shl_align. destruct (ez - e) as [|d|d] eqn:Ed; cbn [fst].
  - replace (e - ez) with 0 by lia. lia.
  - lia.
  - rewrite iter_xO_value. f_equal. f_equal. lia.
Qed.


Lemma positive_result (r : spec_float) :
  (exists m e, r = S754_finite false m e) \/ r = S754_infinity false ->
  SFltb (S754_zero false) r = true.
Proof. intros [(m & e & ->)| ->]; reflexivity. Qed.

Lemma negative_result (r : spec_float) :
  (exists m e, r = S754_finite true m e) \/ r = S754_infinity true ->
  SFltb (S754_zero false) r = false.
Proof. intros [(m & e & ->)| ->]; reflexivity. Qed.

(** The sign of a computed difference is the sign of the exact one:
    [b - a] is above zero exactly when [a] ranks below [b]. *)
Lemma sub_sign (a b : spec_float) :
  valid_binary prec emax a = true -> valid_binary prec emax b = true ->
  a <> S754_nan -> b <> S754_nan ->
  SFltb (S754_zero false) (SFsub prec emax b a) = (rankOf a <? rankOf b).
Proof.
  intros Va Vb Na Nb.
  assert (Hinf : 0 < 2 ^ 2098) by (apply pow2_pos; lia).
  assert (Hfin : forall m e, bounded prec emax m e = true ->
            0 < Zpos m * 2 ^ (e + 1074) < 2 ^ 2098)
    by exact finite_rank_bounds.
  destruct a as [sa|sa| |sa ma ea]; try congruence;
    destruct b as [sb|sb| |sb mb eb]; try congruence; cbn [valid_binary] in *;
    try (pose proof (Hfin ma ea Va)); try (pose proof (Hfin mb eb Vb)).
  9: {
    destruct (bounded_spec ma ea Va) as (Hea & _).
    destruct (bounded_spec mb eb Vb) as (Heb & _).
    cbn [SFsub rankOf].
    set (ez := Z.min eb ea).
    assert (Hez : ez <= eb /\ ez <= ea /\ -1074 <= ez) by (unfold ez; lia).
    clearbody ez. destruct Hez as (Hezb & Heza & Hezm).
    rewrite (shl_align_value mb eb ez) by lia.
    rewrite (shl_align_value ma ea ez) by lia.
    assert (Hscale : (cond_Zopp sb (Zpos mb * 2 ^ (eb - ez))
                      - cond_Zopp sa (Zpos ma * 2 ^ (ea - ez))) * 2 ^ (ez + 1074)
                     = cond_Zopp sb (Zpos mb * 2 ^ (eb + 1074))
                       - cond_Zopp sa (Zpos ma * 2 ^ (ea + 1074))).
    { replace (eb + 1074) with ((eb - ez) + (ez + 1074)) by lia.
      replace (ea + 1074) with ((ea - ez) + (ez + 1074)) by lia.
      rewrite (Z.pow_add_r 2 (eb - ez) (ez + 1074)) by lia.
      rewrite (Z.pow_add_r 2 (ea - ez) (ez + 1074)) by lia.
      destruct sa, sb; cbn [cond_Zopp]; ring. }
    pose proof (pow2_pos (ez + 1074) ltac:(lia)) as Hp.
    generalize dependent (cond_Zopp sa (Zpos ma * 2 ^ (ea + 1074))).
    generalize dependent (cond_Zopp sb (Zpos mb * 2 ^ (eb + 1074))).
    generalize (cond_Zopp sb (Zpos mb * 2 ^ (eb - ez))
                - cond_Zopp sa (Zpos ma * 2 ^ (ea - ez))).
    generalize dependent (2 ^ (ez + 1074)).
    intros scale Hp D rb ra Hscale.
    unfold binary_normalize.
    destruct D as [|q|q].
    - cbn [SFltb SFcompare]. symmetry. apply Z.ltb_ge. lia.
    - rewrite (positive_result _ (binary_round_sign false q ez ltac:(lia))).
      symmetry. apply Z.ltb_lt. nia.
    - rewrite (negative_result _ (binary_round_sign true q ez ltac:(lia))).
      symmetry. apply Z.ltb_ge. nia. }
  all: unfold rankOf; set (inf := 2 ^ 2098) in *; clearbody inf;
    destruct sa; destruct sb; cbn [SFsub SFltb SFcompare cond_Zopp negb];
    symmetry; first [apply Z.ltb_lt; lia | apply Z.ltb_ge; lia].
Qed.

(** *** The same for the primitive floats *)

Lemma not_nan (x : PrimFloat.float) :
  PrimFloat.is_nan x = false -> FloatOps.Prim2SF x <> S754_nan.
Proof.
  unfold PrimFloat.is_nan. rewrite FloatAxioms.eqb_spec. intros H E.
  rewrite E in H. discriminate H.
Qed.

Lemma ltb_rank (x y : PrimFloat.float) :
  PrimFloat.is_nan x = false -> PrimFloat.is_nan y = false ->
  PrimFloat.ltb x y = (rank x <? rank y).
Proof.
  intros Hx Hy. rewrite FloatAxioms.ltb_spec. unfold SFltb, rank.
  rewrite (compare_rank _ _ (FloatAxioms.Prim2SF_valid x)
             (FloatAxioms.Prim2SF_valid y) (not_nan x Hx) (not_nan y Hy)).
  destruct (Z.compare_spec (rankOf (FloatOps.Prim2SF x)) (rankOf (FloatOps.Prim2SF y)));
    symmetry; first [apply Z.ltb_lt; lia | apply Z.ltb_ge; lia].
Qed.

Lemma sub_positive_rank (x y : PrimFloat.float) :
  PrimFloat.is_nan x = false -> PrimFloat.is_nan y = false ->
  PrimFloat.ltb 0%float (PrimFloat.sub y x) = (rank x <? rank y).
Proof.
  intros Hx Hy. rewrite FloatAxioms.ltb_spec, FloatAxioms.sub_spec.
  change (FloatOps.Prim2SF 0%float) with (S754_zero false).
  exact (sub_sign _ _ (FloatAxioms.Prim2SF_valid x)
           (FloatAxioms.Prim2SF_valid y) (not_nan x Hx) (not_nan y Hy)).
Qed.

Lemma leb_rank (x y : PrimFloat.float) :
  PrimFloat.is_nan x = false -> PrimFloat.is_nan y = false ->
  PrimFloat.leb x y = (rank x <=? rank y).
Proof.
  intros Hx Hy. rewrite FloatAxioms.leb_spec. unfold SFleb, Binary64.rank.
  rewrite (compare_rank _ _ (FloatAxioms.Prim2SF_valid x)
             (FloatAxioms.Prim2SF_valid y) (not_nan x Hx) (not_nan y Hy)).
  destruct (Z.compare_spec (Binary64.rankOf (FloatOps.Prim2SF x))
                           (Binary64.rankOf (FloatOps.Prim2SF y)));
    symmetry; first [apply Z.leb_le; lia | apply Z.leb_gt; lia].
Qed.

End FloatFacts.

(* ================================================================== *)
(** ** Selection on the scored path, in double precision *)
(* ================================================================== *)

Module ScoredFacts.
Import PrimFloat.
Import Binary64 Scored.

(** *** [sort] on a comparator that is the sign of a difference of keys *)

Section SortFacts.
Context {A : Type} (cmp : A -> A -> number) (key : A -> Z) (sound : A -> Prop).

(** On sound elements the comparator orders by [key], ascending. *)
Hypothesis cmp_key :
  forall a b, sound a -> sound b ->
    (0 <? cmp a b)%float = (key b <? key a)%Z.

Lemma ranked_insert_perm (x : A) (l : list A) : Permutation (insert cmp x l) (x :: l).
Proof.
  induction l as [|y l IH]; cbn [insert].
  - apply Permutation_refl.
  - destruct ((0 <? cmp x y)%float).
    + eapply perm_trans; [apply perm_skip, IH | apply perm_swap].
    + apply Permutation_refl.
Qed.

Lemma ranked_sort_perm (l : list A) : Permutation (sort cmp l) l.
Proof.
  induction l as [|x l IH]; cbn [sort fold_right].
  - apply perm_nil.
  - eapply perm_trans; [apply ranked_insert_perm | apply perm_skip, IH].
Qed.

Lemma ranked_sort_nonempty (l : list A) : l <> [] -> sort cmp l <> [].
Proof.
  intros Hl Hs. apply Hl. apply Permutation_nil.
  rewrite <- Hs. apply ranked_sort_perm.
Qed.

Lemma ranked_sort_sound (l : list A) : Forall sound l -> Forall sound (sort cmp l).
Proof.
  intro H. rewrite Forall_forall in *. intros x Hx.
  apply H. exact (Permutation_in _ (ranked_sort_perm l) Hx).
Qed.

Lemma ranked_insert_sorted (x : A) (l : list A) :
  sound x -> Forall sound l ->
  StronglySorted (fun a b => (key a <= key b)%Z) l ->
  StronglySorted (fun a b => (key a <= key b)%Z) (insert cmp x l).
Proof.
  intros Hx Hl Hs. induction Hs as [|y l Hs IH Hy]; cbn [insert].
  - constructor; [constructor | constructor].
  - inversion Hl as [|? ? Hsy Hsl]; subst.
    destruct ((0 <? cmp x y)%float) eqn:E.
    + rewrite (cmp_key x y Hx Hsy) in E. apply Z.ltb_lt in E.
      constructor; [exact (IH Hsl)|].
      rewrite Forall_forall in *. intros z Hz.
      apply (Permutation_in _ (ranked_insert_perm x l)) in Hz.
      destruct Hz as [<-|Hz]; [lia | exact (Hy z Hz)].
    + rewrite (cmp_key x y Hx Hsy) in E. apply Z.ltb_ge in E.
      constructor; [constructor; assumption|].
      constructor; [exact E|].
      rewrite Forall_forall in *. intros z Hz. specialize (Hy z Hz). lia.
Qed.

Lemma ranked_sort_sorted (l : list A) :
  Forall sound l ->
  StronglySorted (fun a b => (key a <= key b)%Z) (sort cmp l).
Proof.
  induction l as [|x l IH]; intro H; cbn [sort fold_right]; [constructor|].
  inversion H as [|? ? Hx Hl]; subst.
  apply ranked_insert_sorted; [exact Hx | exact (ranked_sort_sound l Hl) | exact (IH Hl)].
Qed.

(** The first element of the sorted array is the first element of least
    key of the original one. *)
Lemma ranked_sort_head (l : list A) (h : A) (t : list A) :
  Forall sound l ->
  sort cmp l = h :: t ->
  exists pre post,
    l = pre ++ h :: post /\
    (forall c, In c pre -> (key h < key c)%Z) /\
    (forall c, In c post -> (key h <= key c)%Z).
Proof.
  revert h t. induction l as [|x l IH]; intros h t Hl Hs; [discriminate|].
  inversion Hl as [|? ? Hx Hl']; subst.
  cbn [sort fold_right] in Hs. fold (sort cmp l) in Hs.
  destruct (sort cmp l) as [|h' t'] eqn:Es.
  - cbn in Hs. injection Hs as <- <-.
    assert (l = []) as ->.
    { apply Permutation_nil. rewrite <- Es. apply ranked_sort_perm. }
    exists [], []. repeat split; intros c [].
  - destruct (IH h' t' Hl' eq_refl) as (pre & post & -> & Hpre & Hpost).
    assert (Hh' : sound h').
    { rewrite Forall_forall in Hl'. apply Hl'.
      apply in_or_app. right. left. reflexivity. }
    cbn [insert] in Hs.
    destruct ((0 <? cmp x h')%float) eqn:E;
      rewrite (cmp_key x h' Hx Hh') in E; injection Hs as <- <-.
    + apply Z.ltb_lt in E.
      exists (x :: pre), post. repeat split; auto.
      intros c [<-|Hc]; auto.
    + apply Z.ltb_ge in E.
      exists [], (pre ++ h' :: post). repeat split; [intros c []|].
      intros c Hc. apply in_app_or in Hc.
      destruct Hc as [Hc|[<-|Hc]].
      * specialize (Hpre c Hc). lia.
      * exact E.
      * specialize (Hpost c Hc). lia.
Qed.

(** Elements of equal key keep their relative order: the sort is stable. *)
Lemma ranked_insert_stable (x : A) (l : list A) (k : Z) :
  sound x -> Forall sound l ->
  filter (fun a => (key a =? k)%Z) (insert cmp x l)
  = filter (fun a => (key a =? k)%Z) (x :: l).
Proof.
  intros Hx Hl. induction l as [|y l IH]; [reflexivity|].
  inversion Hl as [|? ? Hy Hl']; subst.
  cbn [insert]. destruct ((0 <? cmp x y)%float) eqn:E;
    [|reflexivity].
  rewrite (cmp_key x y Hx Hy) in E. apply Z.ltb_lt in E.
  cbn [filter] in *. rewrite (IH Hl').
  destruct (key x =? k)%Z eqn:Ex; destruct (key y =? k)%Z eqn:Ey; try reflexivity.
  apply Z.eqb_eq in Ex, Ey. lia.
Qed.

Lemma ranked_sort_stable (l : list A) (k : Z) :
  Forall sound l ->
  filter (fun a => (key a =? k)%Z) (sort cmp l)
  = filter (fun a => (key a =? k)%Z) l.
Proof.
  induction l as [|x l IH]; intro H; [reflexivity|].
  inversion H as [|? ? Hx Hl]; subst.
  cbn [sort fold_right]. fold (sort cmp l).
  rewrite (ranked_insert_stable x (sort cmp l) k Hx (ranked_sort_sound l Hl)).
  cbn [filter]. rewrite (IH Hl). reflexivity.
Qed.

End SortFacts.

(** *** The code's score is the computed score of the amended claim *)

Lemma active_agrees (state : Selector.SelectorState) (u : APIUsageData) :
  Selector.has (Selector.getActiveAccounts state) (accountName u)
  = isActive state u.
Proof.
  unfold Selector.has, Selector.getActiveAccounts, isActive.
  induction (Selector.activeSessions state) as [|s l IH]; [reflexivity|].
  cbn [map existsb]. rewrite IH, (String.eqb_sym (accountName u)). reflexivity.
Qed.

Lemma score_computed (state : Selector.SelectorState)
    (nowSession nowWeekly : number) (u : APIUsageData) :
  adjustedScore (scoreAccount state (Selector.getActiveAccounts state)
                   nowSession nowWeekly u)
  = computedScore nowSession nowWeekly state u.
Proof.
  unfold scoreAccount, computedScore; cbn [adjustedScore].
  rewrite active_agrees. unfold isLastUsed.
  destruct (isActive state u);
    destruct (Selector.lastUsedAccount state) as [l|];
    try rewrite (String.eqb_sym (accountName u) l);
    try destruct (l =? accountName u)%string; reflexivity.
Qed.

Lemma scored_ranked (clock : nat -> number) (k : nat)
    (state : Selector.SelectorState) (l : list APIUsageData) :
  map (fun s => (usage s, adjustedScore s))
      (scoreFrom clock k state (Selector.getActiveAccounts state) l)
  = rankedFrom clock k state l.
Proof.
  revert k. induction l as [|u l IH]; intro k; [reflexivity|].
  cbn [scoreFrom rankedFrom map]. rewrite IH, score_computed. reflexivity.
Qed.

Lemma registry_agrees (isProcessRunning : Z -> bool) (file : Selector.StateFile) :
  Selector.cleanStaleSessions isProcessRunning (Selector.loadState file)
  = registryOf isProcessRunning file.
Proof. destruct file; reflexivity. Qed.

(** Scoring filters once more; on the available candidates that changes
    nothing. *)
Lemma available_eligible (excludeAccount : option string)
    (usages : list APIUsageData) :
  filter (eligible excludeAccount) (availableOf excludeAccount usages)
  = availableOf excludeAccount usages.
Proof.
  apply ListFacts.filter_all. intros u Hu.
  unfold availableOf, candidatesOf in Hu.
  apply filter_In in Hu. destruct Hu as [Hu _].
  apply filter_In in Hu. exact (proj2 Hu).
Qed.

(** How a call proceeds once a candidate has session capacity left. *)
Lemma select_with_available (clock : nat -> number) (isProcessRunning : Z -> bool)
    (file : Selector.StateFile) (excludeAccount : option string)
    (usages : list APIUsageData) :
  availableOf excludeAccount usages <> [] ->
  selectBestAccount clock isProcessRunning file usages excludeAccount =
  match sort (fun a b => (adjustedScore b - adjustedScore a)%float)
          (scoreFrom clock 0 (registryOf isProcessRunning file)
             (Selector.getActiveAccounts (registryOf isProcessRunning file))
             (availableOf excludeAccount usages))
  with
  | best :: _ =>
      JS.Returns (Some
        {| sel_accountName := accountName (usage best);
           sessionRemaining := fiveHourRemaining (usage best);
           weeklyRemaining := sevenDayRemaining (usage best);
           score := adjustedScore best;
           isRateLimited := false;
           resetsAt := None |})
  | [] => JS.Throws
  end.
Proof.
  intro Ha.
  assert (Hc : candidatesOf excludeAccount usages <> []).
  { intro E. apply Ha. unfold availableOf. rewrite E. reflexivity. }
  assert (Hu : usages <> []).
  { intro E. apply Hc. rewrite E. reflexivity. }
  unfold selectBestAccount.
  rewrite (ListFacts.length_nonzero _ Hu).
  change (filter (eligible excludeAccount) usages)
    with (candidatesOf excludeAccount usages).
  rewrite (ListFacts.length_nonzero _ Hc).
  change (filter (fun u => (0 <? fiveHourRemaining u)%float)
                 (candidatesOf excludeAccount usages))
    with (availableOf excludeAccount usages).
  rewrite (ListFacts.length_nonzero _ Ha).
  unfold scoreAccounts. rewrite available_eligible, registry_agrees.
  reflexivity.
Qed.

Lemma opp_ltb (a b : Z) : (- b <? - a)%Z = (a <? b)%Z.
Proof.
  destruct (Z.ltb_spec a b); [apply Z.ltb_lt | apply Z.ltb_ge]; lia.
Qed.

(** On scores that are numbers the comparator of the scored path is
    consistent: it orders by rank, descending. *)
Lemma descending_rank (a b : ScoredAccount) :
  is_nan (adjustedScore a) = false -> is_nan (adjustedScore b) = false ->
  (0 <? adjustedScore b - adjustedScore a)%float
  = (- rank (adjustedScore b) <? - rank (adjustedScore a))%Z.
Proof.
  intros Ha Hb. rewrite opp_ltb.
  exact (FloatFacts.sub_positive_rank _ _ Ha Hb).
Qed.

(** C3, as the code has it.  When at least one candidate (no error, not
    excluded) has session capacity left and no computed score is NaN,
    [selectBestAccount] returns the available candidate of greatest
    computed score: the double the scorer arrives at by subtracting from
    the base score the penalties that apply and then adding the session
    and the weekly bonus, each measured at the instant its own reading of
    the clock gives.  Among equal computed scores the first in snapshot
    order wins: every available candidate before the chosen one has a
    strictly smaller computed score, every one after it none greater.  The
    selection is not rate-limited and carries the candidate's figures and
    computed score. *)
Theorem select_computed_maximal (clock : nat -> number)
    (isProcessRunning : Z -> bool) (file : Selector.StateFile)
    (excludeAccount : option string) (usages : list APIUsageData) :
  (exists u, In u (candidatesOf excludeAccount usages) /\
             (0 <? fiveHourRemaining u)%float = true) ->
  forallb (fun c => negb (is_nan (snd c)))
          (ranked clock (registryOf isProcessRunning file)
                  (availableOf excludeAccount usages)) = true ->
  exists pre best post sel,
    ranked clock (registryOf isProcessRunning file)
           (availableOf excludeAccount usages) = pre ++ best :: post /\
    (forall c, In c pre -> (snd c <? snd best)%float = true) /\
    (forall c, In c post -> (snd c <=? snd best)%float = true) /\
    selectBestAccount clock isProcessRunning file usages excludeAccount
      = JS.Returns (Some sel) /\
    sel_accountName sel = accountName (fst best) /\
    sessionRemaining sel = fiveHourRemaining (fst best) /\
    weeklyRemaining sel = sevenDayRemaining (fst best) /\
    score sel = snd best /\
    isRateLimited sel = false /\
    resetsAt sel = None.
Proof.
  intros (u & Hu & Hpos) Hnum.
  set (state := registryOf isProcessRunning file) in *.
  set (available := availableOf excludeAccount usages) in *.
  assert (Ha : available <> []).
  { intro E. assert (Hin : In u available)
      by (apply filter_In; split; assumption).
    rewrite E in Hin. exact Hin. }
  rewrite (select_with_available clock isProcessRunning file excludeAccount
             usages Ha).
  fold state. fold available.
  set (scored := scoreFrom clock 0 state (Selector.getActiveAccounts state) available).
  assert (Hmap : map (fun s => (usage s, adjustedScore s)) scored
                 = ranked clock state available) by apply scored_ranked.
  assert (Hsound : Forall (fun s => is_nan (adjustedScore s) = false) scored).
  { rewrite Forall_forall. intros s Hs.
    rewrite forallb_forall in Hnum.
    specialize (Hnum (usage s, adjustedScore s)).
    rewrite <- Hmap in Hnum.
    specialize (Hnum (in_map (fun s => (usage s, adjustedScore s)) _ _ Hs)).
    cbn [snd] in Hnum. apply negb_true_iff in Hnum. exact Hnum. }
  destruct (sort (fun a b => (adjustedScore b - adjustedScore a)%float) scored)
    as [|h t] eqn:Hs.
  - exfalso. refine (ranked_sort_nonempty _ scored _ Hs).
    intro E. apply Ha.
    assert (Hlen : List.length (ranked clock state available) = 0%nat)
      by (rewrite <- Hmap, E; reflexivity).
    unfold ranked in Hlen. destruct available; [reflexivity | discriminate Hlen].
  - destruct (ranked_sort_head _ (fun s => (- rank (adjustedScore s))%Z)
                (fun s => is_nan (adjustedScore s) = false)
                descending_rank scored h t Hsound Hs)
      as (pre & post & Hsplit & Hpre & Hpost).
    assert (Hnan : forall s, In s scored -> is_nan (adjustedScore s) = false)
      by (rewrite Forall_forall in Hsound; exact Hsound).
    assert (Hh : is_nan (adjustedScore h) = false).
    { apply Hnan. rewrite Hsplit. apply in_or_app. right. left. reflexivity. }
    exists (map (fun s => (usage s, adjustedScore s)) pre),
           (usage h, adjustedScore h),
           (map (fun s => (usage s, adjustedScore s)) post).
    eexists.
    split; [rewrite <- Hmap, Hsplit, map_app; reflexivity|].
    split.
    { intros c Hc. apply in_map_iff in Hc. destruct Hc as (s & <- & Hin).
      cbn [snd].
      assert (Hsn : is_nan (adjustedScore s) = false).
      { apply Hnan. rewrite Hsplit. apply in_or_app. left. exact Hin. }
      rewrite (FloatFacts.ltb_rank _ _ Hsn Hh). apply Z.ltb_lt.
      specialize (Hpre s Hin). cbn beta in Hpre. lia. }
    split.
    { intros c Hc. apply in_map_iff in Hc. destruct Hc as (s & <- & Hin).
      cbn [snd].
      assert (Hsn : is_nan (adjustedScore s) = false).
      { apply Hnan. rewrite Hsplit. apply in_or_app. right. right. exact Hin. }
      rewrite (FloatFacts.leb_rank _ _ Hsn Hh). apply Z.leb_le.
      specialize (Hpost s Hin). cbn beta in Hpost. lia. }
    split; [reflexivity|]. cbn.
    repeat split; reflexivity.
Qed.

Lemma select_computed_maximal_witness :
  exists pre best post sel,
    ranked NearTies.steady (registryOf (fun _ => true) None)
           (availableOf None [NearTies.u; NearTies.v]) = pre ++ best :: post /\
    (forall c, In c pre -> (snd c <? snd best)%float = true) /\
    (forall c, In c post -> (snd c <=? snd best)%float = true) /\
    selectBestAccount NearTies.steady (fun _ => true) None
                      [NearTies.u; NearTies.v] None
      = JS.Returns (Some sel) /\
    sel_accountName sel = accountName (fst best) /\
    sessionRemaining sel = fiveHourRemaining (fst best) /\
    weeklyRemaining sel = sevenDayRemaining (fst best) /\
    score sel = snd best /\
    isRateLimited sel = false /\
    resetsAt sel = None.
Proof.
  apply (select_computed_maximal NearTies.steady (fun _ => true) None None
           [NearTies.u; NearTies.v]).
  - exists NearTies.u. split; [left; reflexivity | vm_compute; reflexivity].
  - vm_compute. reflexivity.
Defined.

(** C3, as the claim has it, fails.  [x] and [y] have the same final
    score, 15.7, in exact arithmetic, and [x] comes first; evaluated in
    doubles as the specification writes the sum (bonuses added, then
    penalties subtracted) [x] even scores strictly more than [y].  The code
    subtracts the penalties first, arrives at a score for [x] one step
    below that of [y], and returns [y]. *)
Lemma equal_scores_second_selected :
  availableOf None [NearTies.x; NearTies.y] = [NearTies.x; NearTies.y] /\
  (exactScore 44 2 7 7 true true == exactScore 4 12 7 7 false false)%Q /\
  (finalScore NearTies.instant (registryOf (fun _ => true) NearTies.registryX)
              NearTies.y
   <? finalScore NearTies.instant (registryOf (fun _ => true) NearTies.registryX)
                 NearTies.x)%float = true /\
  exists sel,
    selectBestAccount NearTies.steady (fun _ => true) NearTies.registryX
                      [NearTies.x; NearTies.y] None
      = JS.Returns (Some sel) /\
    sel_accountName sel = "y"%string /\
    isRateLimited sel = false.
Proof.
  split; [vm_compute; reflexivity|].
  split; [vm_compute; reflexivity|].
  split; [vm_compute; reflexivity|].
  eexists. split; [vm_compute; reflexivity|].
  split; reflexivity.
Qed.

End ScoredFacts.
